(** * Balsam: scheduler output parsing, job transitions and batch-job validation

    A shallow embedding of the parts of Balsam that the specification makes
    claims about:

    - [balsam/platform/scheduler/lsf_sched.py]: [parse_clock],
      [_parse_submit_output], [_parse_job_status], [_parse_status_output],
      [_parse_backfill_output], [_parse_bslots_line];
    - [balsam/_api/bases.py]: [BatchJobBase.validate],
      [BatchJobBase.partitions_to_cli_args], and the app caches of
      [JobBase]: [_fetch_app_by_name], [_fetch_app_by_id],
      [_resolve_app_id];
    - [balsam/site/service/processing.py]: [job_context], [transition],
      [read_pyapp_result], [run_worker], [ProcessingService.terminate] and
      [ProcessingService.join].

    Python integers are [Z]; Python [str] values are [string]s whose
    characters are the code points 0..255; a Python exception leaving a
    function is a [Raise] result. *)

From Stdlib Require Import ZArith String Ascii List Bool Lia.
From stdpp Require Import gmap strings list pretty.

Local Open Scope string_scope.
Local Open Scope Z_scope.

(** ** Results and exceptions *)

(** The [ValueError]s raised by the modelled code, told apart by what the
    message reports. *)
Inductive value_error : Type :=
  | BadIntLiteral (lit : string)
  | ExceedsDigitLimit
  | BadTimeData (lit : string)
  | ColumnCount (actual expected : nat) (fields : list string)
  | UnknownQueue (queue : string) (known : list string)
  | ExceedsMaxNodes (num_nodes max_nodes : Z)
  | TooFewNodes
  | ExceedsMaxWalltime (wall_time_min max_walltime : Z)
  | UnknownProject (project : string) (known : list string)
  | PartitionSum
  | ExtraneousParams (extraneous allowed : list string).

Inductive exn : Type :=
  | ValueError (why : value_error)
  | OverflowError
  | IndexError
  | TypeError
  | NotImplementedError.

Inductive result (A : Type) : Type :=
  | Ok (a : A)
  | Raise (e : exn).
Arguments Ok {A} a.
Arguments Raise {A} e.

Definition bind {A B : Type} (r : result A) (k : A -> result B) : result B :=
  match r with
  | Ok a => k a
  | Raise e => Raise e
  end.

Notation "'let*' x ':=' r 'in' k" := (bind r (fun x => k))
  (at level 10, x name, r at level 100, k at level 200).

(** ** Python string primitives *)

Module PyStr.

(** [str.isspace] on the code points 0..255: TAB..CR, FS..US, space, NEL
    and NBSP. *)
Definition is_space (c : ascii) : bool :=
  let n := N_of_ascii c in
  ((9 <=? n) && (n <=? 13) || (28 <=? n) && (n <=? 32)
   || (n =? 133) || (n =? 160))%N.

Definition is_digit (c : ascii) : bool :=
  let n := N_of_ascii c in ((48 <=? n) && (n <=? 57))%N.

Definition digit_val (c : ascii) : Z := Z.of_N (N_of_ascii c) - 48.

Fixpoint lstrip (s : string) : string :=
  match s with
  | String c r => if is_space c then lstrip r else s
  | EmptyString => EmptyString
  end.

Fixpoint rstrip (s : string) : string :=
  match s with
  | String c r =>
      match rstrip r with
      | EmptyString => if is_space c then EmptyString else String c EmptyString
      | r' => String c r'
      end
  | EmptyString => EmptyString
  end.

(** [s.strip()] *)
Definition strip (s : string) : string := rstrip (lstrip s).

(** [s.split(sep)] for a one-character separator: never the empty list. *)
Fixpoint split_on (sep : ascii) (s : string) : list string :=
  match s with
  | EmptyString => [EmptyString]
  | String c r =>
      if Ascii.eqb c sep then EmptyString :: split_on sep r
      else match split_on sep r with
           | w :: ws => String c w :: ws
           | [] => [String c EmptyString]
           end
  end.

(** [s.split()]: the maximal runs of non-whitespace characters. *)
Fixpoint split_ws (s : string) : list string :=
  match s with
  | EmptyString => []
  | String c r =>
      if is_space c then split_ws r
      else match r with
           | EmptyString => [String c EmptyString]
           | String c' _ =>
               if is_space c' then String c EmptyString :: split_ws r
               else match split_ws r with
                    | w :: ws => String c w :: ws
                    | [] => [String c EmptyString]
                    end
           end
  end.

(** The first whitespace-free run of [s] and what follows it. *)
Fixpoint span_word (s : string) : string * string :=
  match s with
  | EmptyString => (EmptyString, EmptyString)
  | String c r =>
      if is_space c then (EmptyString, s)
      else let (w, rest) := span_word r in (String c w, rest)
  end.

(** [s.split(None, 1)]: the first word, then the remainder with its leading
    whitespace removed, when something is left. *)
Definition split_ws_1 (s : string) : list string :=
  match lstrip s with
  | EmptyString => []
  | s' =>
      let (w, rest) := span_word s' in
      match lstrip rest with
      | EmptyString => [w]
      | rest' => [w; rest']
      end
  end.

(** [sep.join(parts)] *)
Fixpoint join (sep : string) (parts : list string) : string :=
  match parts with
  | [] => EmptyString
  | [p] => p
  | p :: ps => p +:+ sep +:+ join sep ps
  end.

(** [s.startswith(p)] *)
Definition startswith (s p : string) : bool := String.prefix p s.

Fixpoint drop (n : nat) (s : string) : string :=
  match n, s with
  | O, _ => s
  | S n', String _ r => drop n' r
  | S _, EmptyString => EmptyString
  end.

Fixpoint find_at (sub s : string) (i : nat) : option nat :=
  if String.prefix sub s then Some i
  else match s with
       | String _ r => find_at sub r (S i)
       | EmptyString => None
       end.

(** [s.find(sub, start)] for [0 <= start]: the lowest index at or after
    [start] where [sub] occurs, [-1] when there is none. *)
Definition find (s sub : string) (start : nat) : Z :=
  if (String.length s <? start)%nat then -1
  else match find_at sub (drop start s) start with
       | Some i => Z.of_nat i
       | None => -1
       end.

(** [sub in s] *)
Definition contains (s sub : string) : bool := 0 <=? find s sub 0.

(** [s[start:stop]] with Python's treatment of negative and out-of-range
    bounds. *)
Definition slice (s : string) (start stop : Z) : string :=
  let n := Z.of_nat (String.length s) in
  let norm i := if i <? 0 then Z.max 0 (i + n) else Z.min i n in
  let a := norm start in
  let b := norm stop in
  if a <? b then substring (Z.to_nat a) (Z.to_nat (b - a)) s
  else EmptyString.

(** [s[start:]] *)
Definition slice_from (s : string) (start : Z) : string :=
  slice s start (Z.of_nat (String.length s)).

(** The whitespace [int] skips around a literal: TAB..CR and the space, and
    NEL and NBSP, which are turned into spaces first. The separators FS..US,
    which [str.strip] removes, are not among them. *)
Definition is_int_space (c : ascii) : bool :=
  let n := N_of_ascii c in
  ((9 <=? n) && (n <=? 13) || (n =? 32) || (n =? 133) || (n =? 160))%N.

Fixpoint int_lstrip (s : string) : string :=
  match s with
  | String c r => if is_int_space c then int_lstrip r else s
  | EmptyString => EmptyString
  end.

Fixpoint int_rstrip (s : string) : string :=
  match s with
  | String c r =>
      match int_rstrip r with
      | EmptyString =>
          if is_int_space c then EmptyString else String c EmptyString
      | r' => String c r'
      end
  | EmptyString => EmptyString
  end.

(** Digits with single underscores between them, as [int] accepts after
    the sign: [seen] tells whether the previous character was a digit. *)
Fixpoint int_digits (acc : Z) (seen : bool) (s : string) : option Z :=
  match s with
  | EmptyString => if seen then Some acc else None
  | String c r =>
      if is_digit c then int_digits (10 * acc + digit_val c) true r
      else if Ascii.eqb c "_" then
             if seen then int_digits acc false r else None
      else None
  end.

(** The digits and underscores at the head of [s]: what [int] scans before
    it converts. *)
Fixpoint digit_run (s : string) : string :=
  match s with
  | String c r =>
      if is_digit c || Ascii.eqb c "_" then String c (digit_run r)
      else EmptyString
  | EmptyString => EmptyString
  end.

Fixpoint count_digits (s : string) : Z :=
  match s with
  | String c r => (if is_digit c then 1 else 0) + count_digits r
  | EmptyString => 0
  end.

(** [sys.int_info.default_max_str_digits], the limit on the digits of a
    literal that CPython 3.11 and later put on [int] unless told
    otherwise. *)
Definition int_max_str_digits : Z := 4300.

(** [int(s)] in base 10: surrounding whitespace, an optional sign, then
    digits. A well-formed run of more than [int_max_str_digits] digits is
    refused before what follows it is looked at. *)
Definition int (s : string) : result Z :=
  let t := int_rstrip (int_lstrip s) in
  let '(negative, body) :=
    match t with
    | String "+" r => (false, r)
    | String "-" r => (true, r)
    | _ => (false, t)
    end in
  match int_digits 0 false (digit_run body) with
  | Some _ =>
      if int_max_str_digits <? count_digits (digit_run body) then
        Raise (ValueError ExceedsDigitLimit)
      else
        match int_digits 0 false body with
        | Some z => Ok (if negative then - z else z)
        | None => Raise (ValueError (BadIntLiteral s))
        end
  | None => Raise (ValueError (BadIntLiteral s))
  end.

End PyStr.

Module Lsf.

(** ** [lsf_sched.py]: durations *)

(** [a / b] rounded to the nearest integer, a tie going to the even one,
    for [0 < b]. *)
Definition round_half_even (a b : Z) : Z :=
  let q := a / b in
  let r := a mod b in
  if 2 * r <? b then q
  else if b <? 2 * r then q + 1
  else if Z.even q then q else q + 1.

(** The exponent [e] of the binary64 nearest to [n / 60], for [0 < n]:
    [2^(e+52) <= n/60 < 2^(e+53)]. *)
Definition float_exponent (n : Z) : Z :=
  let l := Z.log2 n in
  (if 15 * 2 ^ l <=? 8 * n then l - 5 else l - 6) - 52.

(** [round(S / 60)]. The division of two integers gives the binary64
    nearest to the quotient, a tie going to the even mantissa, and raises
    [OverflowError] when that is beyond the largest binary64; [round] then
    takes the nearest integer, a tie going to the even one. The binary64 is
    [m * 2^e] with [m] the quotient scaled by [2^-e] and rounded. *)
Definition round_div60 (secs : Z) : result Z :=
  if secs =? 0 then Ok 0
  else
    let n := Z.abs secs in
    let e := float_exponent n in
    let r :=
      if 0 <=? e then round_half_even n (60 * 2 ^ e) * 2 ^ e
      else round_half_even (round_half_even (n * 2 ^ (- e)) 60) (2 ^ (- e)) in
    if 2 ^ 1024 <=? r then Raise OverflowError
    else Ok (Z.sgn secs * r).

(** [map(int, parts)] consumed by a tuple assignment: the conversions run
    left to right and the first failure is the one raised. *)
Fixpoint map_int (parts : list string) : result (list Z) :=
  match parts with
  | [] => Ok []
  | p :: ps =>
      let* z := PyStr.int p in
      let* zs := map_int ps in
      Ok (z :: zs)
  end.

Definition parse_clock (t_str : string) : result Z :=
  let parts := PyStr.split_on ":" t_str in
  let* dhms :=
    match parts with
    | [_; _; _; _] =>
        let* l := map_int parts in
        match l with
        | [D; H; M; Sec] => Ok (D, H, M, Sec)
        | _ => Ok (0, 0, 0, 0)
        end
    | [_; _; _] =>
        let* l := map_int parts in
        match l with
        | [H; M; Sec] => Ok (0, H, M, Sec)
        | _ => Ok (0, 0, 0, 0)
        end
    | [_; _] =>
        let* l := map_int parts in
        match l with
        | [M; Sec] => Ok (0, 0, M, Sec)
        | _ => Ok (0, 0, 0, 0)
        end
    | _ => Ok (0, 0, 0, 0)
    end in
  let '(D, H, M, Sec) := dhms in
  let* r := round_div60 Sec in
  Ok (D * 24 * 60 + H * 60 + M + r).

(** The duration strings the specification speaks of are made of decimal
    numerals: non-empty strings of digits, read by Horner's rule. *)
Fixpoint only_digits (s : string) : bool :=
  match s with
  | EmptyString => true
  | String c r => PyStr.is_digit c && only_digits r
  end.

Definition numeral (s : string) : Prop :=
  s <> EmptyString /\ only_digits s = true.

Fixpoint horner (acc : Z) (s : string) : Z :=
  match s with
  | EmptyString => acc
  | String c r => horner (10 * acc + PyStr.digit_val c) r
  end.

Definition dec (s : string) : Z := horner 0 s.

(** The shapes [M:S], [H:M:S] and [D:H:M:S], with the numbers they
    denote. *)
Inductive clock_shape : string -> Z -> Z -> Z -> Z -> Prop :=
  | shape_MS m s :
      numeral m -> numeral s ->
      clock_shape (m +:+ ":" +:+ s) 0 0 (dec m) (dec s)
  | shape_HMS h m s :
      numeral h -> numeral m -> numeral s ->
      clock_shape (h +:+ ":" +:+ m +:+ ":" +:+ s) 0 (dec h) (dec m) (dec s)
  | shape_DHMS d h m s :
      numeral d -> numeral h -> numeral m -> numeral s ->
      clock_shape (d +:+ ":" +:+ h +:+ ":" +:+ m +:+ ":" +:+ s)
        (dec d) (dec h) (dec m) (dec s).

(** [r] is [a / b] rounded to the nearest integer, a tie going to the even
    neighbour. *)
Definition nearest_even (a b r : Z) : Prop :=
  - b <= 2 * (b * r - a) <= b /\
  (2 * (b * r - a) = b \/ 2 * (b * r - a) = - b -> Z.even r = true).

(** [r] is [secs / 60] rounded to the nearest integer, a tie going to the
    even neighbour. *)
Definition nearest_even_minute (secs r : Z) : Prop :=
  -30 <= 60 * r - secs <= 30 /\
  (60 * r - secs = 30 \/ 60 * r - secs = -30 -> Z.even r = true).

(** The minutes the specification asks for: whole minutes plus the seconds
    rounded to the nearest minute, halves up. *)
Definition spec_minutes (D H M Sec : Z) : Z :=
  D * 1440 + H * 60 + M + (Sec + 30) / 60.

(** ** [lsf_sched.py]: submission output *)

(** [fields[-1]] *)
Definition last_item (l : list string) : result string :=
  match last l with
  | Some x => Ok x
  | None => Raise IndexError
  end.

Definition _parse_submit_output (submit_output : string) : result Z :=
  let start := String.length "Job <" in
  let end_ := PyStr.find submit_output ">" start in
  match PyStr.int (PyStr.slice submit_output (Z.of_nat start) end_) with
  | Ok scheduler_id => Ok scheduler_id
  | Raise (ValueError _) =>
      let* tok := last_item (PyStr.split_ws submit_output) in
      PyStr.int tok
  | Raise e => Raise e
  end.

(** ** [lsf_sched.py]: status output *)

(** What [strptime] builds from ["%m/%d %H:%M:%S"]; the year is left at its
    default. *)
Record datetime : Type := mk_datetime {
  month : Z; day : Z; hour : Z; minute : Z; second : Z
}.

(** The values stored in a status dictionary. *)
Inductive pyval : Type :=
  | PNone
  | PInt (z : Z)
  | PStr (s : string)
  | PTime (t : datetime).

Abbreviation kwargs := (gmap string pyval).

(** Modelled from the spec: the [SchedulerJobStatus] record of
    [scheduler.py], which is not among the sources. It is built from keyword
    arguments and its [scheduler_id] is read back by the caller; the model
    keeps every keyword argument and asks for an integer scheduler id. *)
Record job_status : Type := mk_job_status {
  scheduler_id : Z;
  fields_of : kwargs
}.

Definition SchedulerJobStatus (status : kwargs) : result job_status :=
  match status !! "scheduler_id" with
  | Some (PInt i) => Ok (mk_job_status i status)
  | _ => Raise TypeError
  end.

(** The field tables, in the order the class writes them: iterating a dict
    yields its keys in insertion order. *)
Definition _status_run_fields : list (string * string) :=
  [ ("scheduler_id", "JobID"); ("username", "Username"); ("queue", "Queue");
    ("project", "Project"); ("num_nodes", "Nodes");
    ("time_remaining_min", "Remain"); ("start_time", "StartTime");
    ("jobname", "JobName") ].

Definition _status_pend_fields : list (string * string) :=
  [ ("scheduler_id", "JobID"); ("username", "Username"); ("queue", "Queue");
    ("project", "Project"); ("num_nodes", "Nodes");
    ("wall_time_min", "WallTime"); ("queue_time", "QueueTime");
    ("priority", "Priority"); ("jobname", "JobName") ].

Definition _status_block_fields : list (string * string) :=
  [ ("scheduler_id", "JobID"); ("username", "Username"); ("queue", "Queue");
    ("project", "Project"); ("num_nodes", "Nodes");
    ("wall_time_min", "WallTime"); ("message", "BlockReason") ].

Section StatusParsing.

(** [datetime.datetime.strptime(t_str, "%m/%d %H:%M:%S")], a function of
    Python's library. *)
Variable parse_datetime : string -> result datetime.

Definition lift_int (f : string -> result Z) (v : string) : result pyval :=
  let* z := f v in Ok (PInt z).

Definition lift_time (v : string) : result pyval :=
  let* t := parse_datetime v in Ok (PTime t).

Definition _status_field_map (balsam_field : string)
  : option (string -> result pyval) :=
  if String.eqb balsam_field "scheduler_id" then Some (lift_int PyStr.int)
  else if String.eqb balsam_field "state" then Some (fun v => Ok (PStr v))
  else if String.eqb balsam_field "username" then Some (fun v => Ok (PStr v))
  else if String.eqb balsam_field "queue" then Some (fun v => Ok (PStr v))
  else if String.eqb balsam_field "num_nodes" then
    Some (fun n => if String.eqb n "-" then Ok (PInt 0)
                   else lift_int PyStr.int n)
  else if String.eqb balsam_field "wall_time_min" then
    Some (lift_int parse_clock)
  else if String.eqb balsam_field "start_time" then Some lift_time
  else if String.eqb balsam_field "queue_time" then Some lift_time
  else if String.eqb balsam_field "time_remaining_min" then
    Some (lift_int parse_clock)
  else if String.eqb balsam_field "project" then Some (fun v => Ok (PStr v))
  else if String.eqb balsam_field "jobname" then Some (fun v => Ok (PStr v))
  else None.

(** The loop over [zip(status_fields, fields)]. *)
Fixpoint fill_status (names : list string) (fields : list string)
    (status : kwargs) : result kwargs :=
  match names, fields with
  | name :: names', value :: fields' =>
      match _status_field_map name with
      | Some func =>
          let* v := func value in
          fill_status names' fields' (<[name := v]> status)
      | None => fill_status names' fields' status
      end
  | _, _ => Ok status
  end.

Definition _parse_job_status (fields : list string)
    (status_fields : list (string * string)) (status : kwargs)
  : result job_status :=
  let actual := length fields in
  let expected := length status_fields in
  if negb (actual =? expected)%nat then
    Raise (ValueError (ColumnCount actual expected fields))
  else
    let* status' := fill_status (map fst status_fields) fields status in
    SchedulerJobStatus status'.

(** The loop variables of [_parse_status_output]. *)
Record scan : Type := mk_scan {
  status_dict : gmap Z job_status;
  state : pyval;
  run : bool;
  pend : bool;
  block : bool
}.

Definition rejoin_datetime (fields : list string) : list string :=
  (take 6 fields ++ [PyStr.join " " (take 2 (drop 6 fields))]
     ++ drop 8 fields)%list.

Definition rejoin_reason (fields : list string) : list string :=
  (take 6 fields ++ [PyStr.join " " (drop 6 fields)])%list.

(** One iteration of the loop over [job_lines]. *)
Definition scan_line (st : scan) (line : string) : result scan :=
  if PyStr.startswith line "----" then
    if PyStr.contains line "Running" then
      Ok (mk_scan (status_dict st) (PStr "running") true false false)
    else if PyStr.contains line "Eligible" then
      Ok (mk_scan (status_dict st) (PStr "queued") false true false)
    else if PyStr.contains line "Blocked" then
      Ok (mk_scan (status_dict st) (PStr "submit_failed") false false true)
    else Raise NotImplementedError
  else if PyStr.startswith line "JobID" then Ok st
  else
    let fields := PyStr.split_ws line in
    let* job_stat :=
      if run st then
        _parse_job_status (rejoin_datetime fields) _status_run_fields
          (<["queue" := PStr "batch"]>
             (<["wall_time_min" := PInt 0]> {["state" := state st]}))
      else if pend st then
        _parse_job_status (rejoin_datetime fields) _status_pend_fields
          (<["queue" := PStr "batch"]>
             (<["time_remaining_min" := PInt 0]> {["state" := state st]}))
      else if block st then
        _parse_job_status (rejoin_reason fields) _status_block_fields
          (<["queue" := PStr "batch"]>
             (<["wall_time_min" := PInt 0]>
                (<["time_remaining_min" := PInt 0]>
                   {["state" := state st]})))
      else Raise NotImplementedError in
    Ok (mk_scan (<[scheduler_id job_stat := job_stat]> (status_dict st))
          (state st) (run st) (pend st) (block st)).

Fixpoint scan_lines (st : scan) (job_lines : list string) : result scan :=
  match job_lines with
  | [] => Ok st
  | line :: rest => let* st' := scan_line st line in scan_lines st' rest
  end.

Definition _parse_status_output (raw_output : string)
  : result (gmap Z job_status) :=
  let job_lines := PyStr.split_on "010" (PyStr.strip raw_output) in
  let* st := scan_lines (mk_scan ∅ PNone false false false) job_lines in
  Ok (status_dict st).

(** *** The vocabulary of the claims about status output *)

Inductive section_kind : Type := Running | Eligible | Blocked.

Definition canonical_state (sec : section_kind) : string :=
  match sec with
  | Running => "running"
  | Eligible => "queued"
  | Blocked => "submit_failed"
  end.

(** The section a separator line opens: the first of the three words it
    holds, in the order the code looks for them. *)
Definition separator_of (line : string) : option section_kind :=
  if negb (PyStr.startswith line "----") then None
  else if PyStr.contains line "Running" then Some Running
  else if PyStr.contains line "Eligible" then Some Eligible
  else if PyStr.contains line "Blocked" then Some Blocked
  else None.

Definition recognized (line : string) : bool :=
  match separator_of line with
  | Some _ => true
  | None => false
  end.

Definition unrecognized (line : string) : bool :=
  PyStr.startswith line "----" && negb (recognized line).

Definition is_header (line : string) : bool :=
  negb (PyStr.startswith line "----") && PyStr.startswith line "JobID".

Definition is_data_line (line : string) : bool :=
  negb (PyStr.startswith line "----") && negb (PyStr.startswith line "JobID").

(** The loop variables while the lines of section [sec] are read. *)
Definition in_section (sec : section_kind) (d : gmap Z job_status) : scan :=
  match sec with
  | Running => mk_scan d (PStr "running") true false false
  | Eligible => mk_scan d (PStr "queued") false true false
  | Blocked => mk_scan d (PStr "submit_failed") false false true
  end.

(** The record a data line of section [sec] yields. *)
Definition parse_entry (sec : section_kind) (line : string)
  : result job_status :=
  let fields := PyStr.split_ws line in
  let st := PStr (canonical_state sec) in
  match sec with
  | Running =>
      _parse_job_status (rejoin_datetime fields) _status_run_fields
        (<["queue" := PStr "batch"]>
           (<["wall_time_min" := PInt 0]> {["state" := st]}))
  | Eligible =>
      _parse_job_status (rejoin_datetime fields) _status_pend_fields
        (<["queue" := PStr "batch"]>
           (<["time_remaining_min" := PInt 0]> {["state" := st]}))
  | Blocked =>
      _parse_job_status (rejoin_reason fields) _status_block_fields
        (<["queue" := PStr "batch"]>
           (<["wall_time_min" := PInt 0]>
              (<["time_remaining_min" := PInt 0]> {["state" := st]})))
  end.

(** [line] is a well-formed entry of section [sec] for job [i]. *)
Definition entry (sec : section_kind) (line : string) (i : Z) : Prop :=
  is_data_line line = true /\
  exists js, parse_entry sec line = Ok js /\ scheduler_id js = i.

(** The record stored under [i] is the one of job [i], in state [sec]. *)
Definition holds (d : gmap Z job_status) (sec : section_kind) (i : Z)
  : Prop :=
  exists js, d !! i = Some js /\ scheduler_id js = i /\
             fields_of js !! "state" = Some (PStr (canonical_state sec)).

Definition scan0 : scan := mk_scan ∅ PNone false false false.

(** No section has been opened yet. *)
Definition no_section (st : scan) : Prop :=
  run st = false /\ pend st = false /\ block st = false.

End StatusParsing.

(** ** [parse_datetime]: [strptime] with the format ["%m/%d %H:%M:%S"] *)

(** The digits at the head of [s], and what follows them. *)
Fixpoint span_digits (s : string) : string * string :=
  match s with
  | String c r =>
      if PyStr.is_digit c then let (ds, rest) := span_digits r in
                               (String c ds, rest)
      else (EmptyString, s)
  | EmptyString => (EmptyString, EmptyString)
  end.

(** [s] does not go on with a digit. *)
Definition starts_nondigit (s : string) : Prop :=
  match s with
  | String c _ => PyStr.is_digit c = false
  | EmptyString => True
  end.

(** A numeric directive: one or two digits, with or without a leading
    zero, that denote a number from [lo] to [hi]. What follows a directive
    in this format is no digit, so the digits taken are all there are. *)
Definition date_field (lo hi : Z) (s : string) : option (Z * string) :=
  let (ds, rest) := span_digits s in
  let n := String.length ds in
  if ((n =? 1) || (n =? 2))%nat && (lo <=? dec ds) && (dec ds <=? hi)
  then Some (dec ds, rest)
  else None.

(** [%d] also takes a space followed by one digit. *)
Definition day_field (s : string) : option (Z * string) :=
  match s with
  | String " " (String c rest) =>
      if PyStr.is_digit c && negb (Ascii.eqb c "0")
      then Some (PyStr.digit_val c, rest)
      else None
  | _ => date_field 1 31 s
  end.

(** The character a directive must be followed by. *)
Definition expect (c : ascii) (s : string) : option string :=
  match s with
  | String a rest => if Ascii.eqb a c then Some rest else None
  | EmptyString => None
  end.

(** The space of the format stands for one or more whitespace
    characters. *)
Definition expect_spaces (s : string) : option string :=
  match s with
  | String a rest => if PyStr.is_space a then Some (PyStr.lstrip rest)
                     else None
  | EmptyString => None
  end.

(** The year is left at 1900, which has no 29th of February. *)
Definition days_in_month (m : Z) : Z :=
  if m =? 2 then 28
  else if (m =? 4) || (m =? 6) || (m =? 9) || (m =? 11) then 30
  else 31.

Definition strptime_fields (t_str : string) : option datetime :=
  '(mo, r) ← date_field 1 12 t_str;
  r ← expect "/" r;
  '(dd, r) ← day_field r;
  r ← expect_spaces r;
  '(hh, r) ← date_field 0 23 r;
  r ← expect ":" r;
  '(mi, r) ← date_field 0 59 r;
  r ← expect ":" r;
  '(ss, r) ← date_field 0 59 r;
  match r with
  | EmptyString =>
      if dd <=? days_in_month mo then Some (mk_datetime mo dd hh mi ss)
      else None
  | _ => None
  end.

(** [datetime.datetime.strptime(t_str, "%m/%d %H:%M:%S")]: every failure
    is a [ValueError]. *)
Definition strptime_fixed (t_str : string) : result datetime :=
  match strptime_fields t_str with
  | Some t => Ok t
  | None => Raise (ValueError (BadTimeData t_str))
  end.

Definition parse_datetime (t_str : string) : result datetime :=
  strptime_fixed t_str.

(** *** Well-formed entries, as the scheduler prints them *)

(** A job id or a node count: a decimal numeral within the limit of
    [int]. *)
Definition id_text (s : string) : Prop :=
  numeral s /\ (String.length s <= 4300)%nat.

Definition nodes_text (s : string) : Prop := s = "-" \/ id_text s.

(** A duration: [M:S], [H:M:S] or [D:H:M:S]. *)
Definition clock_text (s : string) : Prop :=
  (String.length s <= 4300)%nat
  /\ exists D H M Sec, clock_shape s D H M Sec /\ Sec < 2 ^ 53.

Definition digit_char (n : Z) : ascii := ascii_of_N (Z.to_N (48 + n)).

(** A number below 100 in two digits. *)
Definition two (n : Z) : string :=
  String (digit_char (n / 10)) (String (digit_char (n mod 10)) EmptyString).

(** A time stamp, printed as the two tokens [MM/DD] and [HH:MM:SS]. *)
Definition stamp_text (date time : string) : Prop :=
  exists mo dd hh mi ss,
    1 <= mo <= 12 /\ 1 <= dd <= days_in_month mo /\ 0 <= hh <= 23
    /\ 0 <= mi <= 59 /\ 0 <= ss <= 59
    /\ date = two mo +:+ "/" +:+ two dd
    /\ time = two hh +:+ ":" +:+ two mi +:+ ":" +:+ two ss.

(** The whitespace-separated tokens of a data line of each section, with
    the job id they are about. The other columns hold any token; the
    reason a job is blocked for takes any number of tokens. *)
Inductive entry_tokens : section_kind -> list string -> Z -> Prop :=
  | running_tokens id user queue project nodes remain date time jobname :
      id_text id -> nodes_text nodes -> clock_text remain ->
      stamp_text date time ->
      entry_tokens Running
        [id; user; queue; project; nodes; remain; date; time; jobname]
        (dec id)
  | eligible_tokens id user queue project nodes walltime date time priority
      jobname :
      id_text id -> nodes_text nodes -> clock_text walltime ->
      stamp_text date time ->
      entry_tokens Eligible
        [id; user; queue; project; nodes; walltime; date; time; priority;
         jobname]
        (dec id)
  | blocked_tokens id user queue project nodes walltime reason :
      id_text id -> nodes_text nodes -> clock_text walltime ->
      entry_tokens Blocked
        ([id; user; queue; project; nodes; walltime] ++ reason)%list
        (dec id).

(** [line] is a well-formed entry of section [sec] for job [i]. *)
Definition well_formed_entry (sec : section_kind) (line : string) (i : Z)
  : Prop :=
  entry_tokens sec (PyStr.split_ws line) i.

(** The sample output quoted in [_parse_status_output], line by line. *)
Definition sample_running : string :=
  "------------------------------- Running Jobs: 1 (batch: 4619/4625=99.87% + batch-hm: 46/54=85.19%) -------------------------------".
Definition sample_running_header : string :=
  "JobID      User       Queue    Project    Nodes Remain     StartTime       JobName".
Definition sample_running_entry : string :=
  "697013     parton     batch    CSC388     1     19:35      01/27 16:28:13  Not_Specified".
Definition sample_eligible : string :=
  "-------------------------------------------------------- Eligible Jobs: 1 --------------------------------------------------------".
Definition sample_eligible_header : string :=
  "JobID      User       Queue    Project    Nodes Walltime   QueueTime       Priority JobName".
Definition sample_eligible_entry : string :=
  "696996     parton     batch    CSC388     1     20:00      01/27 16:12:21  504.00   Not_Specified".
Definition sample_blocked : string :=
  "-------------------------------------------------------- Blocked Jobs: 0 ---------------------------------------------------------".

Definition sample_blocked_one : string :=
  "-------------------------------------------------------- Blocked Jobs: 1 ---------------------------------------------------------".
Definition sample_blocked_header : string :=
  "JobID      User       Queue    Project    Nodes Walltime   BlockReason".
Definition sample_blocked_entry : string :=
  "696997     parton     batch    CSC388     2     10:00      Job dependency not met".

Definition newline : string := String "010" EmptyString.

Definition sample_status_output : string :=
  PyStr.join newline
    [ sample_running; sample_running_header; sample_running_entry;
      sample_eligible; sample_eligible_header; sample_eligible_entry;
      sample_blocked ] +:+ newline.

(** The same output with a job in each section. *)
Definition sample_status_with_blocked : string :=
  PyStr.join newline
    [ sample_running; sample_running_header; sample_running_entry;
      sample_eligible; sample_eligible_header; sample_eligible_entry;
      sample_blocked_one; sample_blocked_header; sample_blocked_entry ]
  +:+ newline.

(** ** [lsf_sched.py]: job states and command lines *)

(** [_job_states.get(scheduler_state, "unknown")] *)
Definition _job_state_map (scheduler_state : string) : string :=
  if String.eqb scheduler_state "PEND" then "queued"
  else if String.eqb scheduler_state "RUN" then "running"
  else if String.eqb scheduler_state "BLOCKED" then "failed"
  else "unknown".

Definition _render_status_args (project user queue : option string)
  : list string :=
  ["jobstat"] ++ match user with
                 | Some u => ["-u"; u]
                 | None => []
                 end.

(** ** [lsf_sched.py]: backfill windows *)

(** Modelled from the spec: the [SchedulerBackfillWindow] record of
    [scheduler.py], which is not among the sources, as the two keyword
    arguments it is built from. *)
Record SchedulerBackfillWindow : Type := mk_window {
  num_nodes : Z;
  wall_time_min : Z
}.

(** [parts[i]] *)
Definition item (parts : list string) (i : nat) : result string :=
  match parts !! i with
  | Some x => Ok x
  | None => Raise IndexError
  end.

(** Whether [words] occur in [s] in this order, one after the end of the
    other: the leftmost place is taken for each. *)
Fixpoint in_order (words : list string) (s : string) : bool :=
  match words with
  | [] => true
  | word :: rest =>
      match PyStr.find_at word s 0 with
      | Some i => in_order rest (PyStr.drop (i + String.length word) s)
      | None => false
      end
  end.

(** [len(re.findall(pattern, line)) > 0] for a pattern [w1.*w2.*...]: a dot
    stands for any character but a newline, so a match lies within one of
    the newline-free pieces of the line. *)
Definition re_found (words : list string) (line : string) : bool :=
  existsb (in_order words) (PyStr.split_on "010" line).

Definition _parse_bslots_line (line : string)
  : result SchedulerBackfillWindow :=
  let parts := PyStr.split_ws line in
  let* p0 := item parts 0 in
  let* nodes := PyStr.int p0 in
  let* backfill_time :=
    if re_found ["hours"; "minutes"; "seconds"] line then
      let* p1 := item parts 1 in
      let* h := PyStr.int p1 in
      let* p3 := item parts 3 in
      let* m := PyStr.int p3 in
      Ok (0 + h * 60 + m)
    else if re_found ["minutes"; "seconds"] line then
      let* p1 := item parts 1 in
      let* m := PyStr.int p1 in
      Ok (0 + m)
    else Ok 0 in
  Ok (mk_window nodes backfill_time).

(** The loop over [node_lines], appending to [windows["batch"]]. *)
Fixpoint parse_node_lines (node_lines : list string)
  : result (list SchedulerBackfillWindow) :=
  match node_lines with
  | [] => Ok []
  | line :: rest =>
      if (String.length (PyStr.strip line) =? 0)%nat then parse_node_lines rest
      else
        let* window := _parse_bslots_line line in
        let* windows := parse_node_lines rest in
        Ok (window :: windows)
  end.

Definition _queue_name : string := "batch".

Definition _parse_backfill_output (stdout : string)
  : result (gmap string (list SchedulerBackfillWindow)) :=
  let raw_lines := PyStr.split_on "010" stdout in
  let node_lines := tail raw_lines in
  let* windows := parse_node_lines node_lines in
  Ok {[ _queue_name := windows ]}.

(** A line of [bslots] output as the scheduler prints it. *)
Definition bslots_line (nodes hours minutes seconds : string) : string :=
  nodes +:+ " " +:+ hours +:+ " hours " +:+ minutes +:+ " minutes "
  +:+ seconds +:+ " seconds".

Definition is_blank (line : string) : bool :=
  (String.length (PyStr.strip line) =? 0)%nat.

(** [s] does not hold the character [c]. *)
Fixpoint free_of (c : ascii) (s : string) : bool :=
  match s with
  | EmptyString => true
  | String a r => negb (Ascii.eqb a c) && free_of c r
  end.

(** [s] is one word: not empty, no whitespace in it. *)
Fixpoint no_space (s : string) : bool :=
  match s with
  | EmptyString => true
  | String a r => negb (PyStr.is_space a) && no_space r
  end.

Definition word (s : string) : Prop :=
  s <> EmptyString /\ no_space s = true.

(** The words occur in [s] one after the other. *)
Inductive occur_in_order : list string -> string -> Prop :=
  | occur_nil s : occur_in_order [] s
  | occur_cons w ws a b :
      occur_in_order ws b -> occur_in_order (w :: ws) (a +:+ w +:+ b).

(** Every record is stored under its own scheduler id and is in one of the
    three states the parser gives. *)
Definition good_records (d : gmap Z job_status) : Prop :=
  forall i js, d !! i = Some js ->
    scheduler_id js = i
    /\ fields_of js !! "scheduler_id" = Some (PInt i)
    /\ exists sec, fields_of js !! "state" = Some (PStr (canonical_state sec)).

(** The loop variables say "no section yet" or are those of a section. *)
Definition shaped_scan (st : scan) : Prop :=
  no_section st \/ exists sec, st = in_section sec (status_dict st).

(** The data lines among [job_lines]. *)
Definition data_lines (job_lines : list string) : list string :=
  filter (fun l => is_data_line l = true) job_lines.

End Lsf.

Module Bases.

(** ** [bases.py]: batch-job validation *)

(** Modelled from the spec: of [schemas.AllowedQueue] and
    [schemas.BatchJobPartition], which are not among the sources, the
    fields that the code reads. *)
Record AllowedQueue : Type := mk_AllowedQueue {
  max_nodes : Z;
  max_walltime : Z
}.

Record BatchJobPartition : Type := mk_BatchJobPartition {
  part_job_mode : string;
  part_num_nodes : Z;
  part_filter_tags : list (string * string)
}.

Record BatchJobBase : Type := mk_BatchJobBase {
  queue : string;
  project : string;
  num_nodes : Z;
  wall_time_min : Z;
  partitions : option (list BatchJobPartition);
  optional_params : gmap string string
}.

(** [sum(part.num_nodes for part in parts)] *)
Definition sum_num_nodes (parts : list BatchJobPartition) : Z :=
  foldr (fun part acc => part_num_nodes part + acc) 0 parts.

(** [if self.partitions:] holds for a list that is neither [None] nor
    empty. *)
Definition truthy_partitions (ps : option (list BatchJobPartition))
  : option (list BatchJobPartition) :=
  match ps with
  | Some (p :: l) => Some (p :: l)
  | _ => None
  end.

Definition validate (self : BatchJobBase)
    (allowed_queues : gmap string AllowedQueue)
    (allowed_projects : list string)
    (optional_batch_job_params : gmap string string) : result unit :=
  match allowed_queues !! queue self with
  | None =>
      Raise (ValueError (UnknownQueue (queue self)
                           (elements (dom allowed_queues))))
  | Some q =>
      if max_nodes q <? num_nodes self then
        Raise (ValueError (ExceedsMaxNodes (num_nodes self) (max_nodes q)))
      else if num_nodes self <? 1 then Raise (ValueError TooFewNodes)
      else if max_walltime q <? wall_time_min self then
        Raise (ValueError (ExceedsMaxWalltime (wall_time_min self)
                             (max_walltime q)))
      else if negb (bool_decide (project self ∈ allowed_projects)) then
        Raise (ValueError (UnknownProject (project self) allowed_projects))
      else if
        match truthy_partitions (partitions self) with
        | Some parts => negb (sum_num_nodes parts =? num_nodes self)
        | None => false
        end
      then Raise (ValueError PartitionSum)
      else
        let extras := dom (optional_params self) in
        let allowed_extras := dom optional_batch_job_params in
        let extraneous := extras ∖ allowed_extras in
        if negb (bool_decide (extraneous = ∅)) then
          Raise (ValueError (ExtraneousParams (elements extraneous)
                               (elements allowed_extras)))
        else Ok tt
  end.

(** The conditions under which [validate] returns. *)
Definition valid (self : BatchJobBase)
    (allowed_queues : gmap string AllowedQueue)
    (allowed_projects : list string)
    (optional_batch_job_params : gmap string string) : Prop :=
  exists q,
    allowed_queues !! queue self = Some q
    /\ num_nodes self <= max_nodes q
    /\ 1 <= num_nodes self
    /\ wall_time_min self <= max_walltime q
    /\ project self ∈ allowed_projects
    /\ (forall parts, truthy_partitions (partitions self) = Some parts ->
                      sum_num_nodes parts = num_nodes self)
    /\ dom (optional_params self) ⊆ dom optional_batch_job_params.

(** The conditions the specification lists: queue and project allowed, node
    count and wall time within the queue's maxima, partition sizes adding up
    when partitions are present. *)
Definition spec_valid (self : BatchJobBase)
    (allowed_queues : gmap string AllowedQueue)
    (allowed_projects : list string) : Prop :=
  exists q,
    allowed_queues !! queue self = Some q
    /\ num_nodes self <= max_nodes q
    /\ wall_time_min self <= max_walltime q
    /\ project self ∈ allowed_projects
    /\ (forall parts, truthy_partitions (partitions self) = Some parts ->
                      sum_num_nodes parts = num_nodes self).

(** A queue table and two batch jobs to run [validate] on. *)
Definition sample_queues : gmap string AllowedQueue :=
  {[ "debug" := mk_AllowedQueue 8 60 ]}.

Definition sample_zero_nodes : BatchJobBase :=
  mk_BatchJobBase "debug" "CSC388" 0 30 None ∅.

Definition sample_extra_param : BatchJobBase :=
  mk_BatchJobBase "debug" "CSC388" 2 30 None {[ "singularity" := "on" ]}.

(** ** [partitions_to_cli_args] *)

(** [":".join(f"{k}={v}" for k, v in part.filter_tags.items())] *)
Definition render_filter_tags (tags : list (string * string)) : string :=
  PyStr.join ":" (map (fun kv => fst kv +:+ "=" +:+ snd kv) tags).

(** What one turn of the loop of [partitions_to_cli_args] adds to [args]. *)
Definition part_cli_args (part : BatchJobPartition) : string :=
  let filter_tags := render_filter_tags (part_filter_tags part) in
  " --part " +:+ part_job_mode part +:+ ":" +:+ pretty (part_num_nodes part)
  +:+ (if String.eqb filter_tags "" then "" else ":" +:+ filter_tags).

Definition partitions_to_cli_args (self : BatchJobBase) : string :=
  match truthy_partitions (partitions self) with
  | None => ""
  | Some parts =>
      foldl (fun args part => args +:+ part_cli_args part) "" parts
  end.

Definition with_partitions (self : BatchJobBase)
    (ps : option (list BatchJobPartition)) : BatchJobBase :=
  mk_BatchJobBase (queue self) (project self) (num_nodes self)
    (wall_time_min self) ps (optional_params self).

End Bases.

Module JobBase.

(** ** [JobBase]: the app caches *)

Section AppCaches.

(** [ApplicationDefinition] and the REST client are not among the sources.
    An app is any value with the two attributes that the code reads; what
    [AppManager.get] does when it is called, return an app or raise, is an
    argument of each function that may call it. *)
Variable ApplicationDefinition : Type.
Variable app_id_attr : ApplicationDefinition -> option Z.   (* [app.id] *)
Variable __app_id__ : ApplicationDefinition -> option Z.
Variable client_error : Type.

Inductive raised : Type :=
  | ClientRaised (e : client_error)   (* out of [AppManager.get] *)
  | AssertionFailed                   (* [assert app.id is not None] *)
  | NoAppId.                          (* the [ValueError] of [_resolve_app_id] *)

Record caches : Type := mk_caches {
  _app_name_cache : gmap (option string * string) ApplicationDefinition;
  _app_id_cache : gmap Z ApplicationDefinition
}.

Definition _fetch_app_by_name (app_name : string) (site_name : option string)
    (get : client_error + ApplicationDefinition) (c : caches)
  : (raised + ApplicationDefinition) * caches :=
  let app_key := (site_name, app_name) in
  match _app_name_cache c !! app_key with
  | Some app => (inr app, c)
  | None =>
      match get with
      | inl e => (inl (ClientRaised e), c)
      | inr app =>
          match app_id_attr app with
          | None => (inl AssertionFailed, c)
          | Some i =>
              (inr app,
               mk_caches (<[app_key := app]> (_app_name_cache c))
                 (<[i := app]> (_app_id_cache c)))
          end
      end
  end.

Definition _fetch_app_by_id (app_id : Z)
    (get : client_error + ApplicationDefinition) (c : caches)
  : (raised + ApplicationDefinition) * caches :=
  match _app_id_cache c !! app_id with
  | Some app => (inr app, c)
  | None =>
      match get with
      | inl e => (inl (ClientRaised e), c)
      | inr app =>
          (inr app,
           mk_caches (_app_name_cache c) (<[app_id := app]> (_app_id_cache c)))
      end
  end.

(** [InputAppType = Union[int, str, ApplicationDefinition]] *)
Inductive InputAppType : Type :=
  | app_int (app_id : Z)
  | app_str (app_name : string)
  | app_def (app : ApplicationDefinition).

Definition _resolve_app_id (app : InputAppType) (site_name : option string)
    (get : client_error + ApplicationDefinition) (c : caches)
  : (raised + Z) * caches :=
  match app with
  | app_int app_id => (inr app_id, c)
  | app_str app_name =>
      match _fetch_app_by_name app_name site_name get c with
      | (inl e, c') => (inl e, c')
      | (inr app', c') =>
          match app_id_attr app' with
          | None => (inl AssertionFailed, c')
          | Some app_id => (inr app_id, c')
          end
      end
  | app_def app' =>
      match __app_id__ app' with
      | None => (inl NoAppId, c)
      | Some app_id =>
          (inr app_id,
           mk_caches (_app_name_cache c) (<[app_id := app']> (_app_id_cache c)))
      end
  end.

(** The calls that touch the caches. *)
Inductive cache_call : Type :=
  | call_fetch_by_name (app_name : string) (site_name : option string)
      (get : client_error + ApplicationDefinition)
  | call_fetch_by_id (app_id : Z) (get : client_error + ApplicationDefinition)
  | call_resolve (app : InputAppType) (site_name : option string)
      (get : client_error + ApplicationDefinition).

Definition after_call (c : caches) (k : cache_call) : caches :=
  match k with
  | call_fetch_by_name app_name site_name get =>
      snd (_fetch_app_by_name app_name site_name get c)
  | call_fetch_by_id app_id get => snd (_fetch_app_by_id app_id get c)
  | call_resolve app site_name get =>
      snd (_resolve_app_id app site_name get c)
  end.

Definition after_calls (c : caches) (ks : list cache_call) : caches :=
  foldl after_call c ks.

Definition empty_caches : caches := mk_caches ∅ ∅.

(** Every app cached under a name has an id, and that id is cached too. *)
Definition names_have_ids (c : caches) : Prop :=
  forall key app, _app_name_cache c !! key = Some app ->
    exists i, app_id_attr app = Some i /\ is_Some (_app_id_cache c !! i).

End AppCaches.

Arguments ClientRaised {client_error} e.
Arguments AssertionFailed {client_error}.
Arguments NoAppId {client_error}.
Arguments mk_caches {ApplicationDefinition} _ _.
Arguments _app_name_cache {ApplicationDefinition} c.
Arguments _app_id_cache {ApplicationDefinition} c.
Arguments empty_caches {ApplicationDefinition}.
Arguments app_int {ApplicationDefinition} app_id.
Arguments app_str {ApplicationDefinition} app_name.
Arguments app_def {ApplicationDefinition} app.
Arguments _fetch_app_by_name {ApplicationDefinition} app_id_attr
  {client_error} app_name site_name get c.
Arguments _fetch_app_by_id {ApplicationDefinition client_error} app_id get c.
Arguments _resolve_app_id {ApplicationDefinition} app_id_attr __app_id__
  {client_error} app site_name get c.
Arguments call_fetch_by_name {ApplicationDefinition client_error}
  app_name site_name get.
Arguments call_fetch_by_id {ApplicationDefinition client_error} app_id get.
Arguments call_resolve {ApplicationDefinition client_error}
  app site_name get.
Arguments after_call {ApplicationDefinition} app_id_attr __app_id__
  {client_error} c k.
Arguments after_calls {ApplicationDefinition} app_id_attr __app_id__
  {client_error} c ks.
Arguments names_have_ids {ApplicationDefinition} app_id_attr c.

(** Apps that are an id and a name, a client that raises a text. *)
Definition sample_app_id (a : Z * string) : option Z := Some (fst a).

Definition sample_caches : caches (Z * string) :=
  snd (_fetch_app_by_name (client_error := string) sample_app_id "hello"
         None (inr (3, "hello")) empty_caches).

Definition sample_calls : list (cache_call (Z * string) string) :=
  [ call_fetch_by_id 3 (inr (4, "other"));
    call_resolve (app_def (3, "changed")) None (inl "connection refused");
    call_fetch_by_name "hello" None (inr (5, "hello")) ].

End JobBase.

Module Processing.

(** ** [processing.py]: the state a worker acts on *)

(** Modelled from the spec: of [schemas.JobState] and [AppType], which are
    not among the sources, the members that the code names; the others are
    kept by name. *)
Inductive JobState : Type :=
  | staged_in
  | run_done
  | run_error
  | run_timeout
  | failed
  | other_state (name : string).

Inductive AppType : Type :=
  | PY_FUNC
  | other_app_type (name : string).

(** Exception classes: the built-in ones that the modelled code can raise,
    and those application code raises, which either derive from [Exception]
    or only from [BaseException] ([SystemExit], [KeyboardInterrupt],
    [GeneratorExit] and their like). *)
Inductive exc_class : Type :=
  | AssertionError
  | KeyError
  | IndexError
  | FileNotFoundError
  | NotADirectoryError
  | FileExistsError
  | IsADirectoryError
  | PermissionError
  | ExceptionSubclass (name : string)
  | BaseExceptionOnly (name : string).

(** An exception object: its class, and what [str(exc)] does. [__str__] is
    code of the class, so for an exception of the application it may
    return a text or raise in turn. The same holds for what an f-string
    makes of any object of the application. *)
Inductive py_exception : Type :=
  | new_exception (cls : exc_class) (__str__ : str_result)
with str_result : Type :=
  | str_returns (text : string)
  | str_raises (e : py_exception).

Definition cls (e : py_exception) : exc_class :=
  match e with
  | new_exception c _ => c
  end.

(** [str(exc)] *)
Definition py_str (e : py_exception) : str_result :=
  match e with
  | new_exception _ r => r
  end.

(** An exception whose [str] is [text]. *)
Definition mk_exc (c : exc_class) (text : string) : py_exception :=
  new_exception c (str_returns text).

(** [isinstance(exc, Exception)] *)
Definition is_Exception (e : py_exception) : bool :=
  match cls e with
  | BaseExceptionOnly _ => false
  | _ => true
  end.

(** Absolute paths, as their components. *)
Abbreviation path := (list string).

(** A file is the list of lines that iterating over it in text mode
    yields. *)
Inductive node : Type :=
  | Dir
  | File (lines : list string).

Inductive stream : Type :=
  | Console (name : string)
  | FileHandle (p : path).

(** The calls into the operating system: those of [job_context], and the
    write to a stream. *)
Inductive os_call : Type :=
  | chdir_call (d : path)
  | mkdir_call (d : path)
  | open_call (p : path)
  | write_call (s : stream).

(** The process-wide state: working directory, the two [sys] streams, the
    file system, what has been written to which stream, and what the
    operating system refuses for reasons the tree does not show
    (permissions, quotas, a file system gone read-only): the [OSError] it
    raises for a call, if any. *)
Record process : Type := mk_process {
  cwd : path;
  sys_stdout : stream;
  sys_stderr : stream;
  fs : gmap path node;
  written : list (stream * string);
  os_error : os_call -> option py_exception
}.

Record JobUpdate : Type := mk_JobUpdate {
  serialized_return_value : option string;
  serialized_exception : option string
}.

Record Job : Type := mk_Job {
  id : Z;
  state : option JobState;
  state_data : gmap string string;
  workdir : path;
  _update_model : option JobUpdate
}.

Record world : Type := mk_world {
  job : Job;
  proc : process
}.

Inductive outcome : Type :=
  | Returns (w : world)
  | Raises (e : py_exception) (w : world).

Definition world_of (r : outcome) : world :=
  match r with
  | Returns w => w
  | Raises _ w => w
  end.

(** A bound method of the application: its [__name__], what putting it in
    an f-string does (the text holds the [repr] of the application object,
    which is code of the application), and what calling it does. *)
Record handler : Type := mk_handler {
  __name__ : string;
  repr : str_result;
  call : world -> outcome
}.

Record ApplicationDefinition : Type := mk_app {
  _app_type : AppType;
  preprocess : handler;
  postprocess : handler;
  handle_error : handler;
  handle_timeout : handler
}.

Definition set_proc (w : world) (p : process) : world := mk_world (job w) p.
Definition set_job (w : world) (j : Job) : world := mk_world j (proc w).

Definition set_cwd (p : process) (d : path) : process :=
  mk_process d (sys_stdout p) (sys_stderr p) (fs p) (written p) (os_error p).
Definition set_streams (p : process) (out err : stream) : process :=
  mk_process (cwd p) out err (fs p) (written p) (os_error p).
Definition set_fs (p : process) (f : gmap path node) : process :=
  mk_process (cwd p) (sys_stdout p) (sys_stderr p) f (written p) (os_error p).

(** The root always is a directory. *)
Definition node_at (f : gmap path node) (p : path) : option node :=
  match p with
  | [] => Some Dir
  | _ => f !! p
  end.

(** ** [job_context] *)

(** [os.chdir(d)] *)
Definition os_chdir (d : path) (w : world) : outcome :=
  match os_error (proc w) (chdir_call d) with
  | Some e => Raises e w
  | None =>
      match node_at (fs (proc w)) d with
      | Some Dir => Returns (set_proc w (set_cwd (proc w) d))
      | Some (File _) => Raises (mk_exc NotADirectoryError "Not a directory") w
      | None =>
          Raises (mk_exc FileNotFoundError "No such file or directory") w
      end
  end.

(** The directories [d.mkdir(parents=True, exist_ok=True)] creates, from the
    root down. *)
Fixpoint mkdir_from (above : path) (rest : list string) (f : gmap path node)
  : gmap path node + exc_class :=
  match rest with
  | [] => inl f
  | c :: rest' =>
      let p := (above ++ [c])%list in
      match f !! p with
      | Some Dir => mkdir_from p rest' f
      | Some (File _) =>
          inr (match rest' with
               | [] => FileExistsError
               | _ => NotADirectoryError
               end)
      | None => mkdir_from p rest' (<[p := Dir]> f)
      end
  end.

Definition mkdir_parents (d : path) (w : world) : outcome :=
  match os_error (proc w) (mkdir_call d) with
  | Some e => Raises e w
  | None =>
      match mkdir_from [] d (fs (proc w)) with
      | inl f => Returns (set_proc w (set_fs (proc w) f))
      | inr c => Raises (mk_exc c "mkdir") w
      end
  end.

(** [open(p, "a")]: the file is created when it is not there, and what it
    holds is kept when it is. *)
Definition open_append (p : path) (w : world) : outcome :=
  match os_error (proc w) (open_call p) with
  | Some e => Raises e w
  | None =>
      match node_at (fs (proc w)) p with
      | Some Dir => Raises (mk_exc IsADirectoryError "Is a directory") w
      | Some (File _) => Returns w
      | None =>
          Returns (set_proc w
                     (set_fs (proc w) (<[p := File []]> (fs (proc w)))))
      end
  end.

Definition is_FileNotFoundError (e : py_exception) : bool :=
  match cls e with
  | FileNotFoundError => true
  | _ => false
  end.

(** The first [try]: [os.chdir(workdir)], and on [FileNotFoundError] the
    directory is made and entered. *)
Definition chdir_or_make (workdir : path) (w : world) : outcome :=
  match os_chdir workdir w with
  | Raises e w' =>
      if is_FileNotFoundError e then
        match mkdir_parents workdir w' with
        | Returns w'' => os_chdir workdir w''
        | Raises e' w'' => Raises e' w''
        end
      else Raises e w'
  | Returns w' => Returns w'
  end.

(** The [finally] block: back to the old directory, then the old streams;
    when [os.chdir] raises, the streams are not reached. The exception of
    the body, if any, goes on after it. *)
Definition restore (old_cwd : path) (old_stdout old_stderr : stream)
    (r : outcome) : outcome :=
  match os_chdir old_cwd (world_of r) with
  | Raises e w' => Raises e w'
  | Returns w4 =>
      let w5 := set_proc w4 (set_streams (proc w4) old_stdout old_stderr) in
      match r with
      | Returns _ => Returns w5
      | Raises e _ => Raises e w5
      end
  end.

Definition job_context (workdir : path) (stdout_filename : string)
    (body : world -> outcome) (w : world) : outcome :=
  let old_stdout := sys_stdout (proc w) in
  let old_stderr := sys_stderr (proc w) in
  let old_cwd := cwd (proc w) in
  match chdir_or_make workdir w with
  | Raises e w' => Raises e w'
  | Returns w1 =>
      restore old_cwd old_stdout old_stderr
        match open_append (workdir ++ [stdout_filename])%list w1 with
        | Raises e w' => Raises e w'
        | Returns w2 =>
            let fp := FileHandle (workdir ++ [stdout_filename])%list in
            body (set_proc w2 (set_streams (proc w2) fp fp))
        end
  end.

(** ** [transition] *)

Definition transition_func_for (app : ApplicationDefinition) (st : JobState)
  : option handler :=
  match st with
  | staged_in => Some (preprocess app)
  | run_done => Some (postprocess app)
  | run_error => Some (handle_error app)
  | run_timeout => Some (handle_timeout app)
  | _ => None
  end.

(** [sys.stdout.write(text)], when the write goes through. *)
Definition stdout_write (text : string) (w : world) : world :=
  let p := proc w in
  set_proc w (mk_process (cwd p) (sys_stdout p) (sys_stderr p) (fs p)
                (written p ++ [(sys_stdout p, text)])%list (os_error p)).

(** The [state_data] of a failed job, from the text the f-string makes of
    the handler and the text of [str(exc)]. *)
Definition failure_data (handler_text exc_text : string)
  : gmap string string :=
  <["exception" := exc_text]>
    {["message" := "An exception occured in " +:+ handler_text]}.

(** The line [transition] writes before it calls the handler. *)
Definition announce (transition_func : handler) (w : world) : world :=
  let msg := "Running " +:+ __name__ transition_func
             +:+ " for Job " +:+ pretty (id (job w)) in
  stdout_write ("#BALSAM " +:+ msg +:+ Lsf.newline) w.

(** The [try] block: the line is written, then the handler is called; when
    the write raises, the handler is not called. The calls of [logger]
    change nothing of this state and are left out. *)
Definition try_block (transition_func : handler) (w : world) : outcome :=
  match os_error (proc w) (write_call (sys_stdout (proc w))) with
  | Some e => Raises e w
  | None => call transition_func (announce transition_func w)
  end.

Definition transition (app : ApplicationDefinition) (w : world) : outcome :=
  match state (job w) with
  | None => Raises (mk_exc AssertionError "") w
  | Some st =>
      match transition_func_for app st with
      | None => Raises (mk_exc KeyError "state") w
      | Some transition_func =>
          match try_block transition_func w with
          | Returns w2 => Returns w2
          | Raises exc w2 =>
              if is_Exception exc then
                (* except Exception as exc: *)
                match repr transition_func with
                | str_raises e => Raises e w2   (* in [logger.exception] *)
                | str_returns handler_text =>
                    let j := job w2 in
                    let w3 := set_job w2
                                (mk_Job (id j) (Some failed) (state_data j)
                                   (workdir j) (_update_model j)) in
                    match py_str exc with
                    | str_raises e => Raises e w3
                    | str_returns exc_text =>
                        Returns (set_job w2
                                   (mk_Job (id j) (Some failed)
                                      (failure_data handler_text exc_text)
                                      (workdir j) (_update_model j)))
                    end
                end
              else Raises exc w2
          end
      end
  end.

(** ** [read_pyapp_result] *)

Definition ret_marker : string := "BALSAM-RETURN-VALUE".
Definition exc_marker : string := "BALSAM-EXCEPTION".

Inductive sentinel : Type :=
  | return_line (line : string)
  | except_line (line : string).

(** The loop over the lines of [job.out], left at the first line holding a
    marker. *)
Fixpoint scan_markers (lines : list string) : option sentinel :=
  match lines with
  | [] => None
  | line :: rest =>
      if PyStr.contains line ret_marker then Some (return_line line)
      else if PyStr.contains line exc_marker then Some (except_line line)
      else scan_markers rest
  end.

(** [line[line.find(marker):].split(None, 1)[1]] *)
Definition payload_of (marker line : string) : option string :=
  let line' := PyStr.slice_from line (PyStr.find line marker 0) in
  PyStr.split_ws_1 line' !! 1%nat.

Definition is_PY_FUNC (t : AppType) : bool :=
  match t with
  | PY_FUNC => true
  | _ => false
  end.

Definition result_bearing (st : option JobState) : bool :=
  match st with
  | Some run_done | Some run_error => true
  | _ => false
  end.

Definition set_update_model (j : Job) (u : JobUpdate) : Job :=
  mk_Job (id j) (state j) (state_data j) (workdir j) (Some u).

Definition read_pyapp_result (app : ApplicationDefinition) (w : world)
  : outcome :=
  if negb (is_PY_FUNC (_app_type app)) then Returns w
  else if negb (result_bearing (state (job w))) then Returns w
  else
    match node_at (fs (proc w)) (cwd (proc w) ++ ["job.out"])%list with
    | Some (File lines) =>
        let found := scan_markers lines in
        let u := match _update_model (job w) with
                 | Some u => u
                 | None => mk_JobUpdate None None
                 end in
        let w1 := set_job w (set_update_model (job w) u) in
        match found with
        | Some (return_line line) =>
            match payload_of ret_marker line with
            | Some payload =>
                Returns (set_job w1 (set_update_model (job w1)
                           (mk_JobUpdate (Some payload) (Some ""))))
            | None => Raises (mk_exc IndexError "list index out of range") w1
            end
        | Some (except_line line) =>
            match payload_of exc_marker line with
            | Some payload =>
                Returns (set_job w1 (set_update_model (job w1)
                           (mk_JobUpdate (Some "") (Some payload))))
            | None => Raises (mk_exc IndexError "list index out of range") w1
            end
        | None => Returns w1
        end
    | _ => Returns w
    end.

(** What a worker does with one job inside [run_worker]. *)
Definition process_job (app : ApplicationDefinition) (data_path : path)
    (w : world) : outcome :=
  job_context (data_path ++ workdir (job w))%list "balsam.log"
    (fun w' =>
       match transition app w' with
       | Returns w'' => read_pyapp_result app w''
       | Raises e w'' => Raises e w''
       end) w.

(** *** The vocabulary of the claims about the worker *)

(** The states a worker is handed: the ones [ProcessingService] asks its job
    source for. *)
Definition worker_state (st : JobState) : bool :=
  match st with
  | staged_in | run_done | run_error | run_timeout => true
  | _ => false
  end.

(** The world in which the body of [job_context] starts, when the context
    is entered. *)
Definition entered (workdir : path) (stdout_filename : string) (w : world)
  : option world :=
  match chdir_or_make workdir w with
  | Raises _ _ => None
  | Returns w1 =>
      match open_append (workdir ++ [stdout_filename])%list w1 with
      | Raises _ _ => None
      | Returns w2 =>
          let fp := FileHandle (workdir ++ [stdout_filename])%list in
          Some (set_proc w2 (set_streams (proc w2) fp fp))
      end
  end.

(** [f'] keeps what [f] holds. *)
Definition grows (f f' : gmap path node) : Prop :=
  forall p n, node_at f p = Some n -> node_at f' p = Some n.

(** What a step leaves alone: the job, the streams and what the operating
    system refuses; the file system only grows. *)
Definition frame (w w' : world) : Prop :=
  job w' = job w
  /\ sys_stdout (proc w') = sys_stdout (proc w)
  /\ sys_stderr (proc w') = sys_stderr (proc w)
  /\ grows (fs (proc w)) (fs (proc w'))
  /\ os_error (proc w') = os_error (proc w).

(** [os.chdir(d)] would succeed in [w]. *)
Definition can_chdir (w : world) (d : path) : Prop :=
  node_at (fs (proc w)) d = Some Dir
  /\ os_error (proc w) (chdir_call d) = None.

(** Same kind of outcome: both return, or both raise the same exception. *)
Definition same_exit (r1 r2 : outcome) : Prop :=
  match r1, r2 with
  | Returns _, Returns _ => True
  | Raises e1 _, Raises e2 _ => e1 = e2
  | _, _ => False
  end.

(** Worlds and applications to run the worker's functions on. *)
Definition sample_process : process :=
  mk_process ["srv"] (Console "stdout") (Console "stderr")
    {[ ["srv"] := Dir ]} [] (fun _ => None).

Definition sample_job (st : JobState) : Job :=
  mk_Job 7 (Some st) ∅ ["data"; "job7"] None.

Definition sample_world (st : JobState) : world :=
  mk_world (sample_job st) sample_process.

Definition raising (name : string) (c : exc_class) (text : string)
  : handler :=
  mk_handler name (str_returns ("<bound method App." +:+ name +:+ ">"))
    (fun w => Raises (mk_exc c text) w).

Definition returning (name : string) : handler :=
  mk_handler name (str_returns ("<bound method App." +:+ name +:+ ">"))
    Returns.

(** A handler that raises an exception whose [__str__] raises in turn. *)
Definition raising_unprintable (name : string) (c : exc_class)
    (e : py_exception) : handler :=
  mk_handler name (str_returns ("<bound method App." +:+ name +:+ ">"))
    (fun w => Raises (new_exception c (str_raises e)) w).

Definition sample_app (t : AppType) (pre : handler) : ApplicationDefinition :=
  mk_app t pre (returning "postprocess") (returning "handle_error")
    (returning "handle_timeout").

(** A body that removes the directory the worker started in. *)
Definition rmdir_body (d : path) (w : world) : outcome :=
  Returns (set_proc w (set_fs (proc w) (delete d (fs (proc w))))).

(** A world in which a file sits where the job's directory should go. *)
Definition world_with_file_in_the_way : world :=
  mk_world (sample_job staged_in)
    (mk_process ["srv"] (Console "stdout") (Console "stderr")
       {[ ["srv"] := Dir; ["data"] := File [] ]} [] (fun _ => None)).

(** A world whose working directory holds a [job.out] with these lines. *)
Definition world_with_output (st : JobState) (lines : list string) : world :=
  mk_world (sample_job st)
    (mk_process ["srv"] (Console "stdout") (Console "stderr")
       {[ ["srv"] := Dir; ["srv"; "job.out"] := File lines ]} []
       (fun _ => None)).

(** ** [run_worker]: one turn of the loop *)

(** What is handed to [status_updater.put], but for the time stamp: the
    fields of the update model that were set, then [id], [state] and
    [state_data] of the job. *)
Record status_update : Type := mk_status_update {
  put_id : Z;
  put_state : option JobState;
  put_state_data : gmap string string;
  put_serialized_return_value : option string;
  put_serialized_exception : option string
}.

Definition update_data (j : Job) : status_update :=
  match _update_model j with
  | Some u =>
      mk_status_update (id j) (state j) (state_data j)
        (serialized_return_value u) (serialized_exception u)
  | None => mk_status_update (id j) (state j) (state_data j) None None
  end.

(** The body of the loop once a job was dequeued: the update that is put,
    if the turn gets that far. *)
Definition run_worker_turn (app : ApplicationDefinition) (data_path : path)
    (w : world) : outcome * option status_update :=
  match process_job app data_path w with
  | Returns w' =>
      match state (job w') with
      | Some _ => (Returns w', Some (update_data (job w')))
      | None => (Raises (mk_exc AssertionError "") w', None)
      end
  | Raises e w' => (Raises e w', None)
  end.

(** What [read_pyapp_result] may change of a job is its update model. *)
Definition same_but_update (j j' : Job) : Prop :=
  id j' = id j /\ state j' = state j /\ state_data j' = state_data j
  /\ workdir j' = workdir j.

End Processing.

Module Shutdown.

(** ** [processing.py]: the worker loop and [ProcessingService.join] as
    interleaved processes *)

(** Where a worker process stands in [run_worker]. *)
Inductive worker_pc : Type :=
  | at_loop                 (* at [while not sig_handler.is_set()] *)
  | waiting                 (* inside [job_source.get(timeout=1)] *)
  | in_flight (job_id : Z)  (* a job was dequeued, its update is not put yet *)
  | exited.                 (* the process has ended *)

(** Modelled from the spec: [SigHandler] and [Process] of [balsam.util],
    which are not among the sources. Shutdown is cooperative: a termination
    signal sets the stop flag of the worker it reaches and does nothing
    else, [is_set] reads that flag, and [Process.join] returns once the
    process has ended. A worker is where it stands in its loop, and its
    flag. *)
Record worker : Type := mk_worker {
  pc : worker_pc;
  sig_set : bool            (* the worker's [SigHandler] flag *)
}.

(** Where the caller of [join] stands. *)
Inductive join_pc : Type :=
  | not_joining
  | join_worker (i : nat)   (* in the loop, at [self.workers[i].join()] *)
  | join_source             (* past [self.status_updater.terminate()] *)
  | join_updater
  | joined.

(** [puts] lists the calls of [status_updater.put] in order, each with
    whether [status_updater.terminate()] had been called by then. *)
Record service : Type := mk_service {
  workers : list worker;
  join_at : join_pc;
  updater_terminated : bool;
  puts : list (Z * bool)
}.

Inductive event : Type :=
  | ev_signal (i : nat)            (* a termination signal reaches worker [i] *)
  | ev_test (i : nat)              (* the loop test *)
  | ev_empty (i : nat)             (* [queue.Empty]: [continue] *)
  | ev_get (i : nat) (job_id : Z)  (* [job_source.get] returns a job *)
  | ev_put (i : nat)               (* transition done, [status_updater.put] *)
  | ev_crash (i : nat)             (* an exception leaves [run_worker] *)
  | ev_call_join
  | ev_worker_joined               (* [worker.join()] returns *)
  | ev_terminate_updater
  | ev_source_joined
  | ev_updater_joined.

Definition set_worker (s : service) (i : nat) (w : worker) : service :=
  mk_service (<[i := w]> (workers s)) (join_at s) (updater_terminated s)
    (puts s).

Definition set_join (s : service) (j : join_pc) : service :=
  mk_service (workers s) j (updater_terminated s) (puts s).

Definition is_exited (w : worker) : bool :=
  match pc w with
  | exited => true
  | _ => false
  end.

(** One atomic step of one of the processes; [None] when the process cannot
    take that step in [s] (a blocked [join] among them). *)
Definition step (s : service) (e : event) : option service :=
  match e with
  | ev_signal i =>
      w ← workers s !! i;
      Some (set_worker s i (mk_worker (pc w) true))
  | ev_test i =>
      w ← workers s !! i;
      match pc w with
      | at_loop =>
          Some (set_worker s i
                  (mk_worker (if sig_set w then exited else waiting)
                     (sig_set w)))
      | _ => None
      end
  | ev_empty i =>
      w ← workers s !! i;
      match pc w with
      | waiting => Some (set_worker s i (mk_worker at_loop (sig_set w)))
      | _ => None
      end
  | ev_get i job_id =>
      w ← workers s !! i;
      match pc w with
      | waiting =>
          Some (set_worker s i (mk_worker (in_flight job_id) (sig_set w)))
      | _ => None
      end
  | ev_put i =>
      w ← workers s !! i;
      match pc w with
      | in_flight job_id =>
          Some (mk_service (<[i := mk_worker at_loop (sig_set w)]> (workers s))
                  (join_at s) (updater_terminated s)
                  (puts s ++ [(job_id, updater_terminated s)]))
      | _ => None
      end
  | ev_crash i =>
      w ← workers s !! i;
      match pc w with
      | in_flight _ => Some (set_worker s i (mk_worker exited (sig_set w)))
      | _ => None
      end
  | ev_call_join =>
      match join_at s with
      | not_joining => Some (set_join s (join_worker 0))
      | _ => None
      end
  | ev_worker_joined =>
      match join_at s with
      | join_worker i =>
          w ← workers s !! i;
          if is_exited w then Some (set_join s (join_worker (S i))) else None
      | _ => None
      end
  | ev_terminate_updater =>
      match join_at s with
      | join_worker i =>
          if (length (workers s) <=? i)%nat then
            Some (mk_service (workers s) join_source true (puts s))
          else None
      | _ => None
      end
  | ev_source_joined =>
      match join_at s with
      | join_source => Some (set_join s join_updater)
      | _ => None
      end
  | ev_updater_joined =>
      match join_at s with
      | join_updater => Some (set_join s joined)
      | _ => None
      end
  end.

Fixpoint run (s : service) (trace : list event) : option service :=
  match trace with
  | [] => Some s
  | e :: rest => s' ← step s e; run s' rest
  end.

(** A started service on which [join] has not been called. *)
Definition initial (s : service) : Prop :=
  join_at s = not_joining ∧ updater_terminated s = false ∧ puts s = [].

(** What holds in every state a started service reaches: the updater is
    terminated only once every worker has exited, no update was put after
    that, and [join] has passed only workers that have exited. *)
Definition inv (s : service) : Prop :=
  (updater_terminated s = true ->
   Forall (fun w => is_exited w = true) (workers s))
  /\ Forall (fun p => snd p = false) (puts s)
  /\ match join_at s with
     | not_joining => updater_terminated s = false
     | join_worker i =>
         updater_terminated s = false
         /\ forall k w, (k < i)%nat -> workers s !! k = Some w ->
                        is_exited w = true
     | _ => updater_terminated s = true
     end.

(** Two workers, the second with a job in flight, as [join] is called. *)
Definition sample_service : service :=
  mk_service [mk_worker at_loop false; mk_worker (in_flight 7) false]
    not_joining false [].

Definition sample_shutdown : list event :=
  [ ev_call_join; ev_signal 0; ev_signal 1; ev_test 0; ev_worker_joined;
    ev_put 1; ev_test 1; ev_worker_joined; ev_terminate_updater;
    ev_source_joined; ev_updater_joined ].

(** ** Counting jobs, and the schedules of a shutdown *)

(** The job a worker has dequeued and not yet reported. *)
Definition in_flight_of (w : worker) : list Z :=
  match pc w with
  | in_flight job_id => [job_id]
  | _ => []
  end.

Definition jobs_in_flight (ws : list worker) : list Z :=
  flat_map in_flight_of ws.

Definition is_get (e : event) : bool :=
  match e with
  | ev_get _ _ => true
  | _ => false
  end.

Definition is_crash (e : event) : bool :=
  match e with
  | ev_crash _ => true
  | _ => false
  end.

(** The events that can end worker [i]: a signal for it, or an exception
    that leaves its loop. *)
Definition ends_worker (i : nat) (e : event) : bool :=
  match e with
  | ev_signal k | ev_crash k => (k =? i)%nat
  | _ => false
  end.

(** [join] is past its loop over the workers. *)
Definition past_workers (j : join_pc) : bool :=
  match j with
  | join_source | join_updater | joined => true
  | _ => false
  end.

(** What worker [i] does once [terminate] has signalled it: it ends the
    turn of the loop it is in, and leaves at the next test. *)
Definition finish_worker (i : nat) (w : worker) : list event :=
  ev_signal i ::
  match pc w with
  | at_loop => [ev_test i]
  | waiting => [ev_empty i; ev_test i]
  | in_flight _ => [ev_put i; ev_test i]
  | exited => []
  end.

Fixpoint finish_workers (i : nat) (ws : list worker) : list event :=
  match ws with
  | [] => []
  | w :: rest => (finish_worker i w ++ finish_workers (S i) rest)%list
  end.

(** [terminate()] followed by [join()], the workers ending one after the
    other. *)
Definition graceful_shutdown (s : service) : list event :=
  (finish_workers 0 (workers s)
   ++ ev_call_join :: repeat ev_worker_joined (length (workers s))
   ++ [ev_terminate_updater; ev_source_joined; ev_updater_joined])%list.

(** [join] is called, but only the first worker is signalled. *)
Definition sample_join_only : list event :=
  [ ev_call_join; ev_signal 0; ev_test 0; ev_worker_joined; ev_put 1;
    ev_test 1; ev_empty 1 ].

(** The jobs the workers take from the source along a trace, in order. *)
Definition dequeued (trace : list event) : list Z :=
  flat_map (fun e => match e with
                     | ev_get _ job_id => [job_id]
                     | _ => []
                     end) trace.

(** No exception leaves the loop of a worker. *)
Definition crash_free (trace : list event) : bool :=
  forallb (fun e => negb (is_crash e)) trace.

(** Both workers are signalled; an exception leaves the loop of the second
    while it holds job 7; [join] runs to its end. *)
Definition sample_crash : list event :=
  [ ev_signal 0; ev_signal 1; ev_test 0; ev_crash 1; ev_call_join;
    ev_worker_joined; ev_worker_joined; ev_terminate_updater;
    ev_source_joined; ev_updater_joined ].

End Shutdown.

(** * Properties *)

Module PyStrFacts.
Import PyStr.

Lemma digit_not_space c : is_digit c = true -> is_space c = false.
Proof.
  unfold is_digit, is_space. intros H.
  destruct (N_of_ascii c) as [|n]; [discriminate|].
  apply andb_true_iff in H as [H1 H2].
  apply N.leb_le in H1, H2.
  repeat match goal with
         | |- context [(?a <=? ?b)%N] => destruct (N.leb_spec a b)
         | |- context [(?a =? ?b)%N] => destruct (N.eqb_spec a b)
         end; simpl; try reflexivity; lia.
Qed.

Lemma digit_neq c (d : ascii) :
  is_digit c = true -> is_digit d = false -> Ascii.eqb c d = false.
Proof.
  intros Hc Hd. destruct (Ascii.eqb_spec c d) as [->|]; congruence.
Qed.

Lemma rstrip_digits s : Lsf.only_digits s = true -> rstrip s = s.
Proof.
  induction s as [|c r IH]; simpl; [reflexivity|].
  intros H. apply andb_true_iff in H as [Hc Hr].
  rewrite (IH Hr). destruct r; [|reflexivity].
  by rewrite (digit_not_space _ Hc).
Qed.

Lemma strip_digits s : Lsf.only_digits s = true -> strip s = s.
Proof.
  intros H. unfold strip.
  assert (lstrip s = s) as ->; [|by apply rstrip_digits].
  destruct s as [|c r]; simpl; [reflexivity|].
  simpl in H. apply andb_true_iff in H as [Hc _].
  by rewrite (digit_not_space _ Hc).
Qed.

Lemma int_digits_horner s acc seen :
  Lsf.only_digits s = true -> (s <> EmptyString \/ seen = true) ->
  int_digits acc seen s = Some (Lsf.horner acc s).
Proof.
  revert acc seen. induction s as [|c r IH]; simpl; intros acc seen H Hne.
  - destruct Hne as [Hne| ->]; [congruence|reflexivity].
  - apply andb_true_iff in H as [Hc Hr]. rewrite Hc.
    apply IH; auto.
Qed.

Lemma digit_not_int_space c : is_digit c = true -> is_int_space c = false.
Proof.
  unfold is_digit, is_int_space. intros H.
  destruct (N_of_ascii c) as [|n]; [discriminate|].
  apply andb_true_iff in H as [H1 H2].
  apply N.leb_le in H1, H2.
  repeat match goal with
         | |- context [(?a <=? ?b)%N] => destruct (N.leb_spec a b)
         | |- context [(?a =? ?b)%N] => destruct (N.eqb_spec a b)
         end; simpl; try reflexivity; lia.
Qed.

Lemma int_rstrip_digits s : Lsf.only_digits s = true -> int_rstrip s = s.
Proof.
  induction s as [|c r IH]; simpl; [reflexivity|].
  intros H. apply andb_true_iff in H as [Hc Hr].
  rewrite (IH Hr). destruct r; [|reflexivity].
  by rewrite (digit_not_int_space _ Hc).
Qed.

Lemma int_strip_digits s :
  Lsf.only_digits s = true -> int_rstrip (int_lstrip s) = s.
Proof.
  intros H.
  assert (int_lstrip s = s) as ->; [|by apply int_rstrip_digits].
  destruct s as [|c r]; simpl; [reflexivity|].
  simpl in H. apply andb_true_iff in H as [Hc _].
  by rewrite (digit_not_int_space _ Hc).
Qed.

Lemma digit_run_digits s : Lsf.only_digits s = true -> digit_run s = s.
Proof.
  induction s as [|c r IH]; simpl; [reflexivity|].
  intros H. apply andb_true_iff in H as [Hc Hr].
  by rewrite Hc, (IH Hr).
Qed.

Lemma count_digits_length s :
  0 <= count_digits s <= Z.of_nat (String.length s).
Proof.
  induction s as [|c r IH]; simpl; [lia|]. destruct (is_digit c); lia.
Qed.

(** [int] reads a numeral within its limit by Horner's rule. *)
Lemma int_numeral s :
  Lsf.numeral s -> (String.length s <= 4300)%nat -> int s = Ok (Lsf.dec s).
Proof.
  intros [Hne Hd] Hlen. unfold int. rewrite (int_strip_digits _ Hd).
  assert (int_digits 0 false s = Some (Lsf.dec s)) as E.
  { apply int_digits_horner; [done | by left]. }
  assert (Hlim : (int_max_str_digits <? count_digits s) = false).
  { apply Z.ltb_ge. pose proof (count_digits_length s).
    unfold int_max_str_digits. lia. }
  destruct s as [|c r]; [congruence|].
  assert (Hc : is_digit c = true).
  { simpl in Hd. by apply andb_true_iff in Hd as [? _]. }
  destruct c as [[] [] [] [] [] [] [] []]; try discriminate Hc;
    by rewrite (digit_run_digits _ Hd), E, Hlim.
Qed.

Lemma split_on_cons sep c r :
  Ascii.eqb c sep = false ->
  split_on sep (String c r) =
    match split_on sep r with
    | w :: ws => String c w :: ws
    | [] => [String c EmptyString]
    end.
Proof. intros H. simpl. by rewrite H. Qed.

(** A part free of the separator is split off whole. *)
Lemma split_on_app sep a rest :
  (forall c, is_digit c = true -> Ascii.eqb c sep = false) ->
  Lsf.only_digits a = true ->
  split_on sep (a +:+ String sep rest) = a :: split_on sep rest.
Proof.
  intros Hsep. induction a as [|c r IH]; intros H.
  - simpl. by rewrite Ascii.eqb_refl.
  - simpl in H. apply andb_true_iff in H as [Hc Hr].
    change (String c r +:+ String sep rest)
      with (String c (r +:+ String sep rest)).
    rewrite split_on_cons; [|by apply Hsep]. by rewrite (IH Hr).
Qed.

Lemma split_on_last sep a :
  (forall c, is_digit c = true -> Ascii.eqb c sep = false) ->
  Lsf.only_digits a = true ->
  split_on sep a = [a].
Proof.
  intros Hsep. induction a as [|c r IH]; intros H; [reflexivity|].
  simpl in H. apply andb_true_iff in H as [Hc Hr].
  rewrite split_on_cons; [|by apply Hsep]. by rewrite (IH Hr).
Qed.

Lemma digit_not_colon c : is_digit c = true -> Ascii.eqb c ":" = false.
Proof. intros H. apply digit_neq; [done|reflexivity]. Qed.

Lemma prefix_head_neq a sub c r :
  a <> c -> String.prefix (String a sub) (String c r) = false.
Proof. intros Hne. simpl. by destruct (ascii_dec a c). Qed.

Lemma length_append a b :
  String.length (a +:+ b) = (String.length a + String.length b)%nat.
Proof. induction a as [|c a IH]; simpl; [done|]. by rewrite IH. Qed.

Lemma horner_nonneg s : forall acc,
  Lsf.only_digits s = true -> 0 <= acc -> 0 <= Lsf.horner acc s.
Proof.
  induction s as [|c r IH]; intros acc H Hacc; simpl; [done|].
  simpl in H. apply andb_true_iff in H as [Hc Hr]. apply IH; [done|].
  unfold is_digit in Hc. unfold digit_val.
  apply andb_true_iff in Hc as [H1 _]. apply N.leb_le in H1. lia.
Qed.

Lemma dec_nonneg s : Lsf.numeral s -> 0 <= Lsf.dec s.
Proof. intros [_ Hd]. by apply horner_nonneg. Qed.

End PyStrFacts.

Module LsfTheory.
Import PyStr PyStrFacts Lsf.

Lemma round_half_even_nearest a b :
  0 < b -> nearest_even a b (round_half_even a b).
Proof.
  intros Hb. unfold nearest_even, round_half_even.
  pose proof (Z.div_mod a b ltac:(lia)) as E.
  pose proof (Z.mod_pos_bound a b Hb) as B.
  set (q := a / b) in *. set (m := a mod b) in *.
  destruct (Z.ltb_spec (2 * m) b).
  { split; [nia|]. intros [?|?]; nia. }
  destruct (Z.ltb_spec b (2 * m)).
  { split; [nia|]. intros [?|?]; nia. }
  destruct (Z.even q) eqn:Ev.
  { split; [nia|]. by intros _. }
  split; [nia|]. intros _.
  rewrite Z.add_1_r, Z.even_succ, <- Z.negb_even, Ev. reflexivity.
Qed.

Lemma nearest_even_unique a b r1 r2 :
  0 < b -> nearest_even a b r1 -> nearest_even a b r2 -> r1 = r2.
Proof.
  intros Hb [B1 E1] [B2 E2].
  destruct (Z.eq_dec r1 r2) as [|Hne]; [assumption|exfalso].
  assert (r1 = r2 + 1 \/ r2 = r1 + 1) as [->| ->] by nia.
  - assert (Z.even r2 = true) as Ev2 by (apply E2; nia).
    assert (Z.even (r2 + 1) = true) as Ev1 by (apply E1; nia).
    rewrite Z.add_1_r, Z.even_succ, <- Z.negb_even, Ev2 in Ev1.
    discriminate.
  - assert (Z.even r1 = true) as Ev1 by (apply E1; nia).
    assert (Z.even (r1 + 1) = true) as Ev2 by (apply E2; nia).
    rewrite Z.add_1_r, Z.even_succ, <- Z.negb_even, Ev1 in Ev2.
    discriminate.
Qed.

Lemma round_half_even_minute secs :
  nearest_even_minute secs (round_half_even secs 60).
Proof.
  destruct (round_half_even_nearest secs 60 ltac:(lia)) as [B E].
  split; [lia|]. intros [?|?]; apply E; lia.
Qed.

(** Rounding to a grid of [1/P], [P >= 32] even, and then to an integer
    gives what rounding at once gives: a quotient by 60 that is not a tie
    is at least [1/60] away from one, further than the first rounding
    moves it, and a tie lies on the grid. *)
Lemma double_rounding n P :
  0 < P -> 32 <= P -> Z.even P = true ->
  round_half_even (round_half_even (n * P) 60) P = round_half_even n 60.
Proof.
  intros HP H32 Hev.
  apply (nearest_even_unique n 60); [lia| |by apply round_half_even_nearest].
  destruct (round_half_even_nearest (n * P) 60 ltac:(lia)) as [B1 E1].
  set (m := round_half_even (n * P) 60) in *.
  destruct (round_half_even_nearest m P HP) as [B2 E2].
  set (r := round_half_even m P) in *. clearbody r. clearbody m.
  assert (HPe : exists h, P = 2 * h).
  { apply Z.even_spec in Hev. destruct Hev as [h ->]. by exists h. }
  destruct HPe as [h ->].
  assert (Hbound : -30 <= 60 * r - n <= 30).
  { assert (-30 * (2 * h) - 30 <= (2 * h) * (60 * r - n) <= 30 * (2 * h) + 30)
      by nia.
    nia. }
  split; [lia|].
  intros Htie. apply E2.
  assert (60 * m = n * (2 * h)) as Hm.
  { destruct Htie as [Ht|Ht].
    - assert (n = 60 * r - 30) as Hn by lia.
      assert (60 * m - n * (2 * h) = 60 * (m - 2 * r * h + h))
        as Hk by (rewrite Hn; ring).
      nia.
    - assert (n = 60 * r + 30) as Hn by lia.
      assert (60 * m - n * (2 * h) = 60 * (m - 2 * r * h - h))
        as Hk by (rewrite Hn; ring).
      nia. }
  destruct Htie as [Ht|Ht]; [left|right]; nia.
Qed.

Lemma float_exponent_small n : 0 < n < 2 ^ 53 -> float_exponent n <= -5.
Proof.
  intros Hn. unfold float_exponent.
  assert (Z.log2 n < 53) by (apply Z.log2_lt_pow2; lia).
  destruct (15 * 2 ^ Z.log2 n <=? 8 * n); lia.
Qed.

Lemma round_half_even_bounds a b :
  0 < b -> 0 <= a -> 0 <= round_half_even a b <= a / b + 1.
Proof.
  intros Hb Ha. unfold round_half_even.
  pose proof (Z.div_pos a b Ha Hb).
  repeat match goal with |- context [if ?c then _ else _] => destruct c end;
    lia.
Qed.

(** Below [2^53] seconds the binary64 quotient rounds as the exact one. *)
Lemma round_div60_small secs :
  0 <= secs < 2 ^ 53 -> round_div60 secs = Ok (round_half_even secs 60).
Proof.
  intros Hs. unfold round_div60.
  destruct (Z.eqb_spec secs 0) as [->|Hne]; [reflexivity|].
  rewrite Z.abs_eq by lia.
  pose proof (float_exponent_small secs ltac:(lia)) as He.
  set (e := float_exponent secs) in *. clearbody e.
  rewrite (proj2 (Z.leb_gt 0 e)) by lia.
  assert (32 <= 2 ^ (- e)) as H32.
  { change 32 with (2 ^ 5). apply Z.pow_le_mono_r; lia. }
  assert (Z.even (2 ^ (- e)) = true) as Hev.
  { rewrite Z.even_pow by lia. reflexivity. }
  rewrite double_rounding by (done || lia).
  pose proof (round_half_even_bounds secs 60 ltac:(lia) ltac:(lia)) as Hb.
  assert (secs / 60 < 2 ^ 53).
  { apply Z.div_lt_upper_bound; lia. }
  rewrite (proj2 (Z.leb_gt (2 ^ 1024) _)).
  - rewrite Z.sgn_pos by lia. f_equal. lia.
  - assert (2 ^ 53 + 1 < 2 ^ 1024) by (vm_compute; reflexivity). lia.
Qed.

Lemma split_colon a rest :
  numeral a -> split_on ":" (a +:+ ":" +:+ rest) = a :: split_on ":" rest.
Proof.
  intros [_ Hd]. apply (split_on_app ":" a rest digit_not_colon Hd).
Qed.

Lemma split_colon_last a : numeral a -> split_on ":" a = [a].
Proof. intros [_ Hd]. apply (split_on_last ":" a digit_not_colon Hd). Qed.

(** A duration of one of the three shapes, within the limit of [int] and
    with fewer than [2^53] seconds, parses to its minutes. *)
Lemma parse_clock_shape t D H M Sec :
  clock_shape t D H M Sec -> (String.length t <= 4300)%nat -> Sec < 2 ^ 53 ->
  parse_clock t = Ok (D * 1440 + H * 60 + M + round_half_even Sec 60).
Proof.
  intros Hshape Hlen Hsec.
  destruct Hshape as [m s Hm Hs|h m s Hh Hm Hs|d h m s Hd Hh Hm Hs];
    rewrite !length_append in Hlen; simpl in Hlen;
    pose proof (dec_nonneg _ Hs);
    unfold parse_clock;
    repeat (rewrite split_colon by assumption);
    rewrite split_colon_last by assumption;
    cbn [map_int bind];
    repeat (rewrite int_numeral by (assumption || lia); cbn [bind]);
    rewrite round_div60_small by lia; cbn [bind];
    f_equal; lia.
Qed.

(** C1 (as the code has it): a duration string of at most 4300 characters
    in one of the shapes [M:S], [H:M:S], [D:H:M:S], made of decimal
    numerals with the seconds below [2^53], parses to
    [D*1440 + H*60 + M] plus the seconds rounded to the nearest minute, a
    half going to the even minute. *)
Theorem parse_clock_rounds_half_even t D H M Sec :
  clock_shape t D H M Sec -> (String.length t <= 4300)%nat -> Sec < 2 ^ 53 ->
  exists r, parse_clock t = Ok (D * 1440 + H * 60 + M + r)
            /\ nearest_even_minute Sec r.
Proof.
  intros Hshape Hlen Hsec. exists (round_half_even Sec 60).
  split; [by apply parse_clock_shape|apply round_half_even_minute].
Qed.

Lemma parse_clock_rounds_half_even_witness :
  clock_shape "01:02:03:30" 1 2 3 30
  /\ (String.length "01:02:03:30" <= 4300)%nat /\ 30 < 2 ^ 53 /\
  exists r, parse_clock "01:02:03:30" = Ok (1 * 1440 + 2 * 60 + 3 + r)
            /\ nearest_even_minute 30 r.
Proof.
  assert (Hn : forall a b : ascii,
             is_digit a = true -> is_digit b = true ->
             numeral (String a (String b EmptyString))).
  { intros a b Ha Hb. split; [discriminate|]. simpl. by rewrite Ha, Hb. }
  assert (Hs : clock_shape "01:02:03:30" 1 2 3 30).
  { apply (shape_DHMS "01" "02" "03" "30"); by apply Hn. }
  split; [exact Hs|]. split; [simpl; lia|]. split; [lia|].
  apply (parse_clock_rounds_half_even "01:02:03:30" 1 2 3 30 Hs);
    [simpl; lia|lia].
Defined.

(** C1 fails as stated: the half minute of ["01:02:03:30"] is dropped, and
    a lone seconds component is not read at all. *)
Lemma parse_clock_half_up_counterexample :
  parse_clock "01:02:03:30" = Ok 1563 /\ spec_minutes 1 2 3 30 = 1564 /\
  parse_clock "90" = Ok 0 /\ spec_minutes 0 0 0 90 = 2.
Proof. vm_compute. auto. Qed.

(** *** Status output *)

Section Status.
Variable parse_datetime : string -> result datetime.
Local Abbreviation scan_line := (scan_line parse_datetime).
Local Abbreviation scan_lines := (scan_lines parse_datetime).
Local Abbreviation fill_status := (fill_status parse_datetime).
Local Abbreviation parse_entry := (parse_entry parse_datetime).
Local Abbreviation entry := (entry parse_datetime).
Local Abbreviation _parse_job_status := (_parse_job_status parse_datetime).
Local Abbreviation _parse_status_output :=
  (_parse_status_output parse_datetime).

Lemma bind_ok {A B} (r : result A) (k : A -> result B) b :
  bind r k = Ok b -> exists a, r = Ok a /\ k a = Ok b.
Proof. destruct r; simpl; [eauto|discriminate]. Qed.

Lemma fill_status_other names : forall fields status status' k,
  fill_status names fields status = Ok status' ->
  k ∉ names -> status' !! k = status !! k.
Proof.
  induction names as [|name names IH]; intros fields status status' k.
  - simpl. intros [= <-] _. reflexivity.
  - destruct fields as [|value fields]; simpl.
    { intros [= <-] _. reflexivity. }
    intros H Hk. apply not_elem_of_cons in Hk as [Hne Hk].
    destruct (_status_field_map parse_datetime name) as [func|].
    + apply bind_ok in H as (v & _ & H).
      rewrite (IH _ _ _ _ H Hk). by rewrite lookup_insert_ne.
    + by apply (IH _ _ _ _ H).
Qed.

Lemma parse_job_status_inv fields sf status js :
  _parse_job_status fields sf status = Ok js ->
  length fields = length sf /\
  exists status', fill_status (map fst sf) fields status = Ok status'
                  /\ fields_of js = status'.
Proof.
  unfold Lsf._parse_job_status.
  destruct (Nat.eqb_spec (length fields) (length sf)) as [E|E]; simpl;
    [|discriminate].
  intros H. split; [exact E|].
  apply bind_ok in H as (status' & Hfill & H).
  exists status'. split; [exact Hfill|].
  unfold SchedulerJobStatus in H.
  destruct (status' !! "scheduler_id") as [[]|]; try discriminate.
  by injection H as <-.
Qed.

(** C7: a field list whose length differs from the number of expected
    fields makes [_parse_job_status] raise the [ValueError] that reports
    both counts; it builds a record only when the counts agree. *)
Theorem parse_job_status_column_count fields status_fields status :
  (length fields <> length status_fields ->
   _parse_job_status fields status_fields status =
     Raise (ValueError (ColumnCount (length fields) (length status_fields)
                          fields)))
  /\ (forall js, _parse_job_status fields status_fields status = Ok js ->
                 length fields = length status_fields).
Proof.
  split.
  - intros Hne. unfold Lsf._parse_job_status.
    by destruct (Nat.eqb_spec (length fields) (length status_fields)).
  - intros js H. by apply parse_job_status_inv in H as [? _].
Qed.

Lemma parse_entry_state sec line js :
  parse_entry sec line = Ok js ->
  fields_of js !! "state" = Some (PStr (canonical_state sec)).
Proof.
  intros H. unfold Lsf.parse_entry in H.
  destruct sec; apply parse_job_status_inv in H as (_ & st' & Hfill & ->);
    (erewrite fill_status_other; [|exact Hfill|]);
    first [reflexivity | by vm_compute; set_solver].
Qed.

Lemma scan_line_entry sec d line :
  is_data_line line = true ->
  scan_line (in_section sec d) line =
    (let* js := parse_entry sec line in
     Ok (in_section sec (<[scheduler_id js := js]> d))).
Proof.
  unfold is_data_line, Lsf.scan_line. intros H.
  apply andb_true_iff in H as [H1 H2].
  apply negb_true_iff in H1, H2. rewrite H1, H2.
  destruct sec; reflexivity.
Qed.

Lemma scan_line_separator sec st line :
  separator_of line = Some sec ->
  scan_line st line = Ok (in_section sec (status_dict st)).
Proof.
  unfold separator_of, Lsf.scan_line.
  destruct (startswith line "----"); simpl; [|discriminate].
  destruct (contains line "Running"); [by intros [= <-]|].
  destruct (contains line "Eligible"); [by intros [= <-]|].
  destruct (contains line "Blocked"); [by intros [= <-]|discriminate].
Qed.

Lemma scan_line_header st line :
  is_header line = true -> scan_line st line = Ok st.
Proof.
  unfold is_header, Lsf.scan_line. intros H.
  apply andb_true_iff in H as [H1 H2].
  apply negb_true_iff in H1. by rewrite H1, H2.
Qed.

Lemma scan_lines_app l1 : forall st l2,
  scan_lines st (l1 ++ l2)%list =
    (let* st' := scan_lines st l1 in scan_lines st' l2).
Proof.
  induction l1 as [|l l1 IH]; intros st l2; simpl; [reflexivity|].
  destruct (scan_line st l); simpl; [apply IH|reflexivity].
Qed.

Lemma scan_headers hs st :
  Forall (fun l => is_header l = true) hs -> scan_lines st hs = Ok st.
Proof.
  induction 1 as [|l hs Hl _ IH]; simpl; [reflexivity|].
  by rewrite (scan_line_header _ _ Hl).
Qed.

(** Reading the entries of one section adds their ids, in that section's
    state, and leaves the other records alone. *)
Lemma scan_block sec ls ids :
  Forall2 (entry sec) ls ids ->
  forall d, exists d',
    scan_lines (in_section sec d) ls = Ok (in_section sec d')
    /\ dom d' = dom d ∪ list_to_set ids
    /\ (forall i, i ∈ ids -> holds d' sec i)
    /\ (forall i, i ∉ ids -> d' !! i = d !! i).
Proof.
  induction 1 as [|line i ls ids [Hdata (js & Hjs & Hid)] _ IH]; intros d.
  - exists d. simpl. split; [reflexivity|]. split; [set_solver|].
    split; [|done]. intros i Hi. by apply elem_of_nil in Hi.
  - destruct (IH (<[i := js]> d)) as (d' & Hrun & Hdom & Hin & Hout).
    exists d'. split; [|split; [|split]].
    + simpl. rewrite (scan_line_entry _ _ _ Hdata), Hjs. simpl.
      by rewrite Hid.
    + rewrite Hdom, dom_insert_L. set_solver.
    + intros k Hk. destruct (decide (k ∈ ids)) as [Hk'|Hk'];
        [by apply Hin|].
      apply elem_of_cons in Hk as [->|Hk]; [|done].
      exists js. rewrite (Hout _ Hk'), lookup_insert_eq.
      split; [done|]. split; [done|].
      by apply (parse_entry_state _ _ _ Hjs).
    + intros k Hk. apply not_elem_of_cons in Hk as [Hne Hk].
      rewrite (Hout _ Hk). by rewrite lookup_insert_ne.
Qed.

Lemma status_dict_in_section sec d : status_dict (in_section sec d) = d.
Proof. by destruct sec. Qed.

Lemma holds_preserved d d' sec i :
  holds d sec i -> d' !! i = d !! i -> holds d' sec i.
Proof. intros (js & ? & ?) E. exists js. by rewrite E. Qed.

(** A text made of the three sections, each with lines that parse as
    entries of it, parses to one record for each entry. *)
Lemma parse_status_output_entries (raw sepR sepE sepB : string)
    (hR rs hE ps hB bs : list string) (rids pids bids : list Z) :
  split_on "010" (strip raw)
    = ([sepR] ++ hR ++ rs ++ [sepE] ++ hE ++ ps ++ [sepB] ++ hB ++ bs)%list ->
  separator_of sepR = Some Running ->
  separator_of sepE = Some Eligible ->
  separator_of sepB = Some Blocked ->
  Forall (fun l => is_header l = true) (hR ++ hE ++ hB)%list ->
  Forall2 (entry Running) rs rids ->
  Forall2 (entry Eligible) ps pids ->
  Forall2 (entry Blocked) bs bids ->
  NoDup (rids ++ pids ++ bids)%list ->
  exists d,
    _parse_status_output raw = Ok d
    /\ size d = (length rs + length ps + length bs)%nat
    /\ dom d = list_to_set (rids ++ pids ++ bids)%list
    /\ (forall i, i ∈ rids -> holds d Running i)
    /\ (forall i, i ∈ pids -> holds d Eligible i)
    /\ (forall i, i ∈ bids -> holds d Blocked i).
Proof.
  intros Hlines HsR HsE HsB Hhdr HR HP HB Hnd.
  apply Forall_app in Hhdr as [HhR Hhdr].
  apply Forall_app in Hhdr as [HhE HhB].
  destruct (scan_block _ _ _ HR ∅) as (d1 & Run1 & Dom1 & In1 & _).
  destruct (scan_block _ _ _ HP d1) as (d2 & Run2 & Dom2 & In2 & Out2).
  destruct (scan_block _ _ _ HB d2) as (d3 & Run3 & Dom3 & In3 & Out3).
  pose proof Hnd as HndAll.
  apply NoDup_app in Hnd as (_ & HndR & Hnd').
  apply NoDup_app in Hnd' as (_ & HndP & _).
  assert (Hdom : dom d3 = list_to_set (rids ++ pids ++ bids)%list).
  { rewrite Dom3, Dom2, Dom1, !list_to_set_app_L. set_solver. }
  exists d3. split; [|split; [|split; [exact Hdom|split; [|split]]]].
  - unfold Lsf._parse_status_output. rewrite Hlines.
    cbn [app Lsf.scan_lines]. rewrite (scan_line_separator _ _ _ HsR).
    cbn [bind scan0 status_dict].
    rewrite scan_lines_app, (scan_headers _ _ HhR). cbn [bind].
    rewrite scan_lines_app, Run1. cbn [bind Lsf.scan_lines].
    rewrite (scan_line_separator _ _ _ HsE), status_dict_in_section.
    cbn [bind].
    rewrite scan_lines_app, (scan_headers _ _ HhE). cbn [bind].
    rewrite scan_lines_app, Run2. cbn [bind Lsf.scan_lines].
    rewrite (scan_line_separator _ _ _ HsB), status_dict_in_section.
    cbn [bind].
    rewrite scan_lines_app, (scan_headers _ _ HhB). cbn [bind].
    rewrite Run3. cbn [bind]. by rewrite status_dict_in_section.
  - rewrite <- size_dom, Hdom, size_list_to_set by exact HndAll.
    rewrite !length_app.
    apply Forall2_length in HR, HP, HB. lia.
  - intros i Hi. apply (holds_preserved d1); [by apply In1|].
    assert (i ∉ (pids ++ bids)%list) as Hn by (by apply HndR).
    apply not_elem_of_app in Hn as [Hp Hb].
    by rewrite (Out3 _ Hb), (Out2 _ Hp).
  - intros i Hi. apply (holds_preserved d2); [by apply In2|].
    by rewrite (Out3 _ (HndP _ Hi)).
  - intros i Hi. by apply In3.
Qed.

Lemma scan_line_unrecognized st line :
  unrecognized line = true -> scan_line st line = Raise NotImplementedError.
Proof.
  unfold unrecognized, recognized, separator_of, Lsf.scan_line.
  destruct (startswith line "----"); simpl; [|discriminate].
  destruct (contains line "Running"); [discriminate|].
  destruct (contains line "Eligible"); [discriminate|].
  by destruct (contains line "Blocked").
Qed.

Lemma scan_lines_raise pre l post st st' e :
  scan_lines st pre = Ok st' -> scan_line st' l = Raise e ->
  scan_lines st (pre ++ l :: post)%list = Raise e.
Proof.
  intros Hpre Hl. rewrite scan_lines_app, Hpre. simpl. by rewrite Hl.
Qed.

(** No text with an unrecognized separator parses. *)
Lemma scan_lines_unrecognized pre l post st :
  unrecognized l = true ->
  exists e, scan_lines st (pre ++ l :: post)%list = Raise e.
Proof.
  intros Hl. rewrite scan_lines_app.
  destruct (scan_lines st pre) as [st'|e]; simpl; [|by exists e].
  rewrite (scan_line_unrecognized _ _ Hl). by exists NotImplementedError.
Qed.

(** Before a recognized separator is met, the first line that is not a
    header raises [NotImplementedError]. *)
Lemma scan_lines_before_section pre : forall l post st,
  no_section st ->
  Forall (fun x => recognized x = false) pre ->
  is_data_line l = true ->
  scan_lines st (pre ++ l :: post)%list = Raise NotImplementedError.
Proof.
  assert (Hdata : forall st x, no_section st -> is_data_line x = true ->
                    scan_line st x = Raise NotImplementedError).
  { intros st x (Hr & Hp & Hb) Hx. unfold is_data_line in Hx.
    apply andb_true_iff in Hx as [H1 H2]. apply negb_true_iff in H1, H2.
    unfold Lsf.scan_line. by rewrite H1, H2, Hr, Hp, Hb. }
  induction pre as [|x pre IH]; intros l post st Hst Hpre Hl.
  - simpl. by rewrite (Hdata _ _ Hst Hl).
  - apply Forall_cons in Hpre as [Hx Hpre]. simpl.
    destruct (startswith x "----") eqn:Hsep.
    + rewrite scan_line_unrecognized; [done|].
      unfold unrecognized. by rewrite Hsep, Hx.
    + destruct (startswith x "JobID") eqn:Hhdr.
      * rewrite scan_line_header by (unfold is_header; by rewrite Hsep, Hhdr).
        simpl. by apply IH.
      * rewrite (Hdata _ _ Hst);
          [done | unfold is_data_line; by rewrite Hsep, Hhdr].
Qed.

Lemma parse_status_output_eq raw :
  _parse_status_output raw =
    (let* st := scan_lines scan0 (split_on "010" (strip raw)) in
     Ok (status_dict st)).
Proof. reflexivity. Qed.

(** C10 (as the code has it): a text with a separator line that names none
    of the three sections never parses, and raises [NotImplementedError] at
    that line when the lines before it were read without error; a data line
    before any recognized separator raises [NotImplementedError]; so a text
    parses only if every separator is recognized and every data line comes
    after one. *)
Theorem parse_status_output_rejects raw :
  let job_lines := split_on "010" (strip raw) in
  (forall pre l post,
     job_lines = (pre ++ l :: post)%list -> unrecognized l = true ->
     (exists e, _parse_status_output raw = Raise e)
     /\ ((exists st, scan_lines scan0 pre = Ok st) ->
         _parse_status_output raw = Raise NotImplementedError))
  /\ (forall pre l post,
        job_lines = (pre ++ l :: post)%list -> is_data_line l = true ->
        Forall (fun x => recognized x = false) pre ->
        _parse_status_output raw = Raise NotImplementedError)
  /\ (forall d,
        _parse_status_output raw = Ok d ->
        Forall (fun l => unrecognized l = false) job_lines
        /\ forall pre l post,
             job_lines = (pre ++ l :: post)%list -> is_data_line l = true ->
             Exists (fun x => recognized x = true) pre).
Proof.
  intros job_lines.
  assert (Hbad : forall pre l post,
            job_lines = (pre ++ l :: post)%list -> unrecognized l = true ->
            exists e, _parse_status_output raw = Raise e).
  { intros pre l post E Hl. rewrite parse_status_output_eq.
    fold job_lines. rewrite E.
    destruct (scan_lines_unrecognized pre l post scan0 Hl) as [e ->].
    by exists e. }
  assert (Hearly : forall pre l post,
            job_lines = (pre ++ l :: post)%list -> is_data_line l = true ->
            Forall (fun x => recognized x = false) pre ->
            _parse_status_output raw = Raise NotImplementedError).
  { intros pre l post E Hl Hpre. rewrite parse_status_output_eq.
    fold job_lines. rewrite E.
    by rewrite (scan_lines_before_section pre l post scan0). }
  split; [|split; [exact Hearly|]].
  - intros pre l post E Hl. split; [by apply (Hbad pre l post)|].
    intros [st Hst]. rewrite parse_status_output_eq. fold job_lines.
    rewrite E.
    by rewrite (scan_lines_raise pre l post scan0 st NotImplementedError Hst
                  (scan_line_unrecognized _ _ Hl)).
  - intros d Hd. split.
    + apply Forall_forall. intros l Hl.
      destruct (unrecognized l) eqn:Hu; [exfalso|done].
      apply list_elem_of_split in Hl as (pre & post & E).
      destruct (Hbad pre l post E Hu) as [e He]. congruence.
    + intros pre l post E Hl.
      destruct (Forall_Exists_dec (fun x => recognized x = false)
                  (fun x => recognized x = true)
                  (fun x => match recognized x as b
                                  return {b = false} + {b = true} with
                            | true => right eq_refl
                            | false => left eq_refl
                            end) pre) as [Hn|?]; [exfalso|done].
      by rewrite (Hearly pre l post E Hl Hn) in Hd.
Qed.

End Status.

(** C6 on the sample output of the source, with one running and one
    eligible job. *)
(** *** Well-formed entries parse *)

Lemma digit_char_digit a :
  0 <= a <= 9 ->
  is_digit (digit_char a) = true /\ digit_val (digit_char a) = a.
Proof.
  intros H.
  assert (a = 0 \/ a = 1 \/ a = 2 \/ a = 3 \/ a = 4 \/ a = 5 \/ a = 6
          \/ a = 7 \/ a = 8 \/ a = 9) as Ha by lia.
  repeat destruct Ha as [->|Ha]; try subst a; by vm_compute.
Qed.

Lemma span_digits_nondigit s :
  starts_nondigit s -> span_digits s = (EmptyString, s).
Proof. destruct s as [|c r]; simpl; [done|]. by intros ->. Qed.

Lemma date_field_two lo hi n rest :
  0 <= n <= 99 -> lo <= n <= hi -> starts_nondigit rest ->
  date_field lo hi (two n +:+ rest) = Some (n, rest).
Proof.
  intros Hn Hr Hrest.
  pose proof (Z.div_mod n 10 ltac:(lia)) as Hdm.
  pose proof (Z.mod_pos_bound n 10 ltac:(lia)) as Hb'.
  assert (0 <= n / 10 <= 9) as Ha by lia.
  assert (0 <= n mod 10 <= 9) as Hb by lia.
  destruct (digit_char_digit _ Ha) as [Ha1 Ha2].
  destruct (digit_char_digit _ Hb) as [Hb1 Hb2].
  unfold two, date_field.
  change (String ?a (String ?b EmptyString) +:+ rest)
    with (String a (String b rest)).
  cbn [span_digits]. rewrite Ha1, Hb1, (span_digits_nondigit _ Hrest).
  cbn [String.length Nat.eqb orb andb].
  unfold dec. cbn [horner]. rewrite Ha2, Hb2.
  assert (10 * (10 * 0 + n / 10) + n mod 10 = n) as -> by lia.
  rewrite (proj2 (Z.leb_le lo n)), (proj2 (Z.leb_le n hi)) by lia.
  reflexivity.
Qed.

Lemma day_field_digit c r :
  is_digit c = true -> day_field (String c r) = date_field 1 31 (String c r).
Proof.
  intros Hc. destruct (Ascii.eqb_spec c " ") as [->|Hne]; [discriminate|].
  destruct c as [[] [] [] [] [] [] [] []]; try reflexivity; congruence.
Qed.

Lemma lstrip_digit c r : is_digit c = true -> lstrip (String c r) = String c r.
Proof. intros Hc. simpl. by rewrite (digit_not_space _ Hc). Qed.

Lemma days_in_month_le m : days_in_month m <= 31.
Proof.
  unfold days_in_month. repeat case_match; lia.
Qed.

Lemma two_head n rest :
  0 <= n <= 99 ->
  exists c r, two n +:+ rest = String c r /\ is_digit c = true.
Proof.
  intros Hn. eexists _, _. split; [reflexivity|].
  apply digit_char_digit.
  pose proof (Z.div_mod n 10 ltac:(lia)).
  pose proof (Z.mod_pos_bound n 10 ltac:(lia)). lia.
Qed.

(** A time stamp as the scheduler prints it is read as it stands. *)
Lemma parse_datetime_stamp date time :
  stamp_text date time ->
  exists t, parse_datetime (join " " [date; time]) = Ok t.
Proof.
  intros (mo & dd & hh & mi & ss & Hmo & Hdd & Hhh & Hmi & Hss & -> & ->).
  exists (mk_datetime mo dd hh mi ss).
  pose proof (days_in_month_le mo) as Hdays.
  unfold parse_datetime, strptime_fixed, strptime_fields.
  cbn [join].
  assert ((two mo +:+ "/" +:+ two dd) +:+ " " +:+ two hh +:+ ":" +:+ two mi
          +:+ ":" +:+ two ss
          = two mo +:+ String "/" (two dd +:+ String " " (two hh +:+ String ":"
              (two mi +:+ String ":" (two ss +:+ EmptyString))))) as ->
    by reflexivity.
  rewrite (date_field_two 1 12 mo) by (done || lia).
  cbn [mbind option_bind expect Ascii.eqb Bool.eqb].
  destruct (two_head dd (String " " (two hh +:+ String ":"
              (two mi +:+ String ":" (two ss +:+ EmptyString))))
              ltac:(lia)) as (c & r & E & Hc).
  rewrite E, (day_field_digit _ _ Hc), <- E. clear c r E Hc.
  rewrite (date_field_two 1 31 dd) by (done || lia).
  cbn [mbind option_bind expect_spaces].
  change (is_space " ") with true. cbv iota.
  destruct (two_head hh (String ":"
              (two mi +:+ String ":" (two ss +:+ EmptyString)))
              ltac:(lia)) as (c & r & E & Hc).
  rewrite E, (lstrip_digit _ _ Hc), <- E. clear c r E Hc.
  cbn [mbind option_bind].
  rewrite (date_field_two 0 23 hh) by (done || lia).
  cbn [mbind option_bind expect Ascii.eqb Bool.eqb].
  rewrite (date_field_two 0 59 mi) by (done || lia).
  cbn [mbind option_bind expect Ascii.eqb Bool.eqb].
  rewrite (date_field_two 0 59 ss) by (done || lia).
  cbn [mbind option_bind].
  by rewrite (proj2 (Z.leb_le dd (days_in_month mo))) by lia.
Qed.

Lemma split_ws_head c r tok rest :
  split_ws (String c r) = tok :: rest ->
  is_space c = true \/ exists t, tok = String c t.
Proof.
  cbn [split_ws]. destruct (is_space c); [by left|]. intros H. right.
  repeat case_match; simplify_eq; eauto.
Qed.

(** A line whose first token is a numeral is neither a separator nor a
    header. *)
Lemma data_line_of_tokens line id rest :
  split_ws line = id :: rest -> numeral id -> is_data_line line = true.
Proof.
  intros Hs [Hne Hd]. destruct line as [|c r]; [discriminate|].
  assert (is_space c = true \/ is_digit c = true) as Hc.
  { destruct (split_ws_head _ _ _ _ Hs) as [?|[t ->]]; [by left|right].
    simpl in Hd. by apply andb_true_iff in Hd as [? _]. }
  assert ("-"%char <> c /\ "J"%char <> c) as [H1 H2].
  { split; intros E; subst c; destruct Hc as [Hc|Hc]; discriminate Hc. }
  unfold is_data_line, startswith.
  by rewrite !prefix_head_neq.
Qed.

Lemma numeral_not_dash s : numeral s -> String.eqb s "-" = false.
Proof.
  intros [Hne Hd]. destruct s as [|c s]; [done|]. simpl in Hd.
  apply andb_true_iff in Hd as [Hc _].
  cbn [String.eqb]. by rewrite (digit_neq c "-" Hc eq_refl).
Qed.

Lemma id_field s : id_text s -> lift_int int s = Ok (PInt (dec s)).
Proof. intros [Hn Hl]. unfold lift_int. by rewrite int_numeral. Qed.

Lemma nodes_field nodes :
  nodes_text nodes ->
  exists z, (if String.eqb nodes "-" then Ok (PInt 0)
             else lift_int int nodes) = Ok (PInt z).
Proof.
  intros [->|Hn]; [by exists 0|]. rewrite numeral_not_dash by apply Hn.
  exists (dec nodes). by apply id_field.
Qed.

Lemma clock_field s :
  clock_text s -> exists z, lift_int parse_clock s = Ok (PInt z).
Proof.
  intros (Hl & D & H & M & Sec & Hs & Hsec). eexists. unfold lift_int.
  by rewrite (parse_clock_shape _ _ _ _ _ Hs Hl Hsec).
Qed.

Lemma stamp_field date time :
  stamp_text date time ->
  exists t, lift_time parse_datetime (join " " [date; time]) = Ok (PTime t).
Proof.
  intros H. destruct (parse_datetime_stamp _ _ H) as [t Ht].
  exists t. unfold lift_time. by rewrite Ht.
Qed.

Section FieldMaps.
Variable pd : string -> result datetime.

Lemma field_map_scheduler_id :
  _status_field_map pd "scheduler_id" = Some (lift_int int).
Proof. reflexivity. Qed.

Lemma field_map_username :
  _status_field_map pd "username" = Some (fun v => Ok (PStr v)).
Proof. reflexivity. Qed.

Lemma field_map_queue :
  _status_field_map pd "queue" = Some (fun v => Ok (PStr v)).
Proof. reflexivity. Qed.

Lemma field_map_project :
  _status_field_map pd "project" = Some (fun v => Ok (PStr v)).
Proof. reflexivity. Qed.

Lemma field_map_jobname :
  _status_field_map pd "jobname" = Some (fun v => Ok (PStr v)).
Proof. reflexivity. Qed.

Lemma field_map_num_nodes :
  _status_field_map pd "num_nodes"
  = Some (fun n => if String.eqb n "-" then Ok (PInt 0)
                   else lift_int int n).
Proof. reflexivity. Qed.

Lemma field_map_wall_time_min :
  _status_field_map pd "wall_time_min" = Some (lift_int parse_clock).
Proof. reflexivity. Qed.

Lemma field_map_time_remaining_min :
  _status_field_map pd "time_remaining_min" = Some (lift_int parse_clock).
Proof. reflexivity. Qed.

Lemma field_map_start_time :
  _status_field_map pd "start_time" = Some (lift_time pd).
Proof. reflexivity. Qed.

Lemma field_map_queue_time :
  _status_field_map pd "queue_time" = Some (lift_time pd).
Proof. reflexivity. Qed.

Lemma field_map_priority : _status_field_map pd "priority" = None.
Proof. reflexivity. Qed.

Lemma field_map_message : _status_field_map pd "message" = None.
Proof. reflexivity. Qed.

End FieldMaps.

Ltac field_maps :=
  rewrite ?field_map_scheduler_id, ?field_map_username, ?field_map_queue,
    ?field_map_project, ?field_map_jobname, ?field_map_num_nodes,
    ?field_map_wall_time_min, ?field_map_time_remaining_min,
    ?field_map_start_time, ?field_map_queue_time, ?field_map_priority,
    ?field_map_message.

Ltac record_built :=
  cbn [bind]; unfold SchedulerJobStatus;
  rewrite !lookup_insert_ne by done; rewrite lookup_insert_eq;
  eexists; split; reflexivity.

(** A well-formed entry is a data line that parses to a record of its
    job. *)
Lemma well_formed_entry_parses sec line i :
  well_formed_entry sec line i -> entry parse_datetime sec line i.
Proof.
  unfold well_formed_entry.
  inversion 1 as [id user queue project nodes remain date time jobname
                    Hid Hnodes Hclock Hstamp Hsec Htok Hi
                 |id user queue project nodes walltime date time priority
                    jobname Hid Hnodes Hclock Hstamp Hsec Htok Hi
                 |id user queue project nodes walltime reason
                    Hid Hnodes Hclock Hsec Htok Hi]; subst;
    (split; [by apply (data_line_of_tokens _ _ _ (eq_sym Htok)), Hid|]);
    unfold Lsf.parse_entry; rewrite <- Htok;
    destruct (nodes_field _ Hnodes) as [n Hn];
    destruct (clock_field _ Hclock) as [m Hm].
  - destruct (stamp_field _ _ Hstamp) as [t Ht].
    change (rejoin_datetime
              [id; user; queue; project; nodes; remain; date; time; jobname])
      with [id; user; queue; project; nodes; remain; join " " [date; time];
            jobname].
    unfold Lsf._parse_job_status, _status_run_fields.
    cbn [length Nat.eqb negb map fst fill_status]. field_maps.
    cbn [bind]. rewrite (id_field _ Hid), Hn, Hm, Ht.
    record_built.
  - destruct (stamp_field _ _ Hstamp) as [t Ht].
    change (rejoin_datetime
              [id; user; queue; project; nodes; walltime; date; time;
               priority; jobname])
      with [id; user; queue; project; nodes; walltime;
            join " " [date; time]; priority; jobname].
    unfold Lsf._parse_job_status, _status_pend_fields.
    cbn [length Nat.eqb negb map fst fill_status]. field_maps.
    cbn [bind]. rewrite (id_field _ Hid), Hn, Hm, Ht.
    record_built.
  - simpl app.
    assert (rejoin_reason
              (id :: user :: queue :: project :: nodes :: walltime :: reason)
            = [id; user; queue; project; nodes; walltime; join " " reason])
      as -> by reflexivity.
    unfold Lsf._parse_job_status, _status_block_fields.
    cbn [length Nat.eqb negb map fst fill_status]. field_maps.
    cbn [bind]. rewrite (id_field _ Hid), Hn, Hm.
    record_built.
Qed.

Lemma well_formed_entries sec ls ids :
  Forall2 (well_formed_entry sec) ls ids ->
  Forall2 (entry parse_datetime sec) ls ids.
Proof.
  intros H. eapply Forall2_impl; [exact H|]. apply well_formed_entry_parses.
Qed.



(** C10 fails as stated: here an unrecognized separator is in the text, and
    what is raised is the column-count [ValueError] of the line before it. *)
Lemma parse_status_output_rejects_counterexample :
  unrecognized "---- Other Jobs: 0 ----" = true
  /\ _parse_status_output strptime_fixed
       ("---- Running Jobs: 1 ----" +:+ newline +:+ "x" +:+ newline
        +:+ "---- Other Jobs: 0 ----")
     = Raise (ValueError (ColumnCount 2 8 ["x"; ""])).
Proof. vm_compute. auto. Qed.

(** C8 at an output without the ["Job <...>"] pattern: the slice between
    index 5 and the last character parses, and the last token, the whole
    output, is never looked at. *)
Lemma parse_submit_output_skips_fallback :
  contains "1234567" "Job <" = false
  /\ _parse_submit_output "1234567" = Ok 6
  /\ bind (last_item (split_ws "1234567")) int = Ok 1234567.
Proof. vm_compute. auto. Qed.

End LsfTheory.

Module BasesTheory.
Import Bases.

(** C5 (as the code has it): [validate] returns exactly when the queue is
    allowed, the node count is at least 1 and at most the queue's maximum,
    the wall time is at most the queue's maximum, the project is allowed,
    the partitions, when there are any, add up to the node count, and every
    optional parameter is an allowed one; in every other case it raises the
    [ValueError] of the first of these checks that fails, in this order,
    naming the offending value and what is allowed. It returns nothing and
    changes nothing, so no value is clamped. *)
Theorem validate_returns_iff_valid self aq ap op :
  (validate self aq ap op = Ok tt <-> valid self aq ap op)
  /\ (aq !! queue self = None ->
      validate self aq ap op
      = Raise (ValueError (UnknownQueue (queue self) (elements (dom aq)))))
  /\ (forall q,
        aq !! queue self = Some q ->
        (max_nodes q < num_nodes self ->
         validate self aq ap op
         = Raise (ValueError (ExceedsMaxNodes (num_nodes self) (max_nodes q))))
        /\ (num_nodes self <= max_nodes q ->
            (num_nodes self < 1 ->
             validate self aq ap op = Raise (ValueError TooFewNodes))
            /\ (1 <= num_nodes self ->
                (max_walltime q < wall_time_min self ->
                 validate self aq ap op
                 = Raise (ValueError (ExceedsMaxWalltime (wall_time_min self)
                                        (max_walltime q))))
                /\ (wall_time_min self <= max_walltime q ->
                    (project self ∉ ap ->
                     validate self aq ap op
                     = Raise (ValueError (UnknownProject (project self) ap)))
                    /\ (project self ∈ ap ->
                        (forall parts,
                           truthy_partitions (partitions self) = Some parts ->
                           sum_num_nodes parts <> num_nodes self ->
                           validate self aq ap op
                           = Raise (ValueError PartitionSum))
                        /\ ((forall parts,
                               truthy_partitions (partitions self)
                               = Some parts ->
                               sum_num_nodes parts = num_nodes self) ->
                            dom (optional_params self) ∖ dom op <> ∅ ->
                            validate self aq ap op
                            = Raise (ValueError
                                       (ExtraneousParams
                                          (elements
                                             (dom (optional_params self)
                                              ∖ dom op))
                                          (elements (dom op)))))))))).
Proof.
  assert (Hiff : validate self aq ap op = Ok tt <-> valid self aq ap op).
  { unfold validate, valid. split.
    - destruct (aq !! queue self) as [q|]; [|discriminate].
      destruct (Z.ltb_spec (max_nodes q) (num_nodes self)); [discriminate|].
      destruct (Z.ltb_spec (num_nodes self) 1); [discriminate|].
      destruct (Z.ltb_spec (max_walltime q) (wall_time_min self));
        [discriminate|].
      destruct (bool_decide_reflect (project self ∈ ap)); simpl;
        [|discriminate].
      destruct (truthy_partitions (partitions self)) as [parts|] eqn:Hp.
      + destruct (Z.eqb_spec (sum_num_nodes parts) (num_nodes self)); simpl;
          [|discriminate].
        destruct (bool_decide_reflect
                    (dom (optional_params self) ∖ dom op = ∅)) as [He|];
          simpl; [|discriminate].
        intros _. exists q. repeat split; try done; try lia.
        * by intros parts' [= <-].
        * set_solver.
      + destruct (bool_decide_reflect
                    (dom (optional_params self) ∖ dom op = ∅)) as [He|];
          simpl; [|discriminate].
        intros _. exists q. repeat split; try done; try lia. set_solver.
    - intros (q & -> & Hn & H1 & Hw & Hpr & Hparts & Hex).
      destruct (Z.ltb_spec (max_nodes q) (num_nodes self)); [lia|].
      destruct (Z.ltb_spec (num_nodes self) 1); [lia|].
      destruct (Z.ltb_spec (max_walltime q) (wall_time_min self)); [lia|].
      rewrite (bool_decide_eq_true_2 _ Hpr). simpl.
      assert (dom (optional_params self) ∖ dom op = ∅) as He.
      { apply set_eq. intros k. rewrite elem_of_difference.
        split; [intros [Hk Hn']; by apply Hex in Hk | by intros ?%elem_of_empty]. }
      rewrite (bool_decide_eq_true_2 _ He). simpl.
      destruct (truthy_partitions (partitions self)) as [parts|]; [|done].
      by rewrite (Hparts parts eq_refl), Z.eqb_refl. }
  split; [exact Hiff|]. clear Hiff. unfold validate. split.
  { by intros ->. }
  intros q ->. split.
  { intros H. by rewrite (proj2 (Z.ltb_lt _ _) H). }
  intros Hmax. rewrite (proj2 (Z.ltb_ge _ _) Hmax). split.
  { intros H. by rewrite (proj2 (Z.ltb_lt _ _) H). }
  intros Hmin. rewrite (proj2 (Z.ltb_ge _ _) Hmin). split.
  { intros H. by rewrite (proj2 (Z.ltb_lt _ _) H). }
  intros Hwall. rewrite (proj2 (Z.ltb_ge _ _) Hwall). split.
  { intros H. by rewrite (bool_decide_eq_false_2 _ H). }
  intros Hproj. rewrite (bool_decide_eq_true_2 _ Hproj). simpl. split.
  { intros parts -> Hsum. by rewrite (proj2 (Z.eqb_neq _ _) Hsum). }
  intros Hsum Hextra.
  assert (match truthy_partitions (partitions self) with
          | Some parts => negb (sum_num_nodes parts =? num_nodes self)
          | None => false
          end = false) as ->.
  { destruct (truthy_partitions (partitions self)) as [parts|]; [|done].
    by rewrite (Hsum parts eq_refl), Z.eqb_refl. }
  by rewrite (bool_decide_eq_false_2 _ Hextra).
Qed.

Lemma validate_returns_iff_valid_witness :
  valid (mk_BatchJobBase "debug" "CSC388" 2 30 None ∅) sample_queues
    ["CSC388"] ∅
  /\ validate (mk_BatchJobBase "debug" "CSC388" 2 30 None ∅) sample_queues
       ["CSC388"] ∅ = Ok tt
  /\ validate (mk_BatchJobBase "debug" "CSC388" 9 30 None ∅) sample_queues
       ["CSC388"] ∅ = Raise (ValueError (ExceedsMaxNodes 9 8)).
Proof.
  destruct (validate_returns_iff_valid
              (mk_BatchJobBase "debug" "CSC388" 2 30 None ∅) sample_queues
              ["CSC388"] ∅) as (Hiff & _).
  destruct (validate_returns_iff_valid
              (mk_BatchJobBase "debug" "CSC388" 9 30 None ∅) sample_queues
              ["CSC388"] ∅) as (_ & _ & Hq).
  split; [apply Hiff; reflexivity|]. split; [reflexivity|].
  apply (Hq (mk_AllowedQueue 8 60) eq_refl). simpl. lia.
Defined.

(** C5 fails as stated: each of these jobs meets every condition the claim
    lists, and is rejected all the same, one for its node count of 0, one
    for an optional parameter the site does not know. *)
Lemma validate_counterexample :
  spec_valid sample_zero_nodes sample_queues ["CSC388"]
  /\ validate sample_zero_nodes sample_queues ["CSC388"] ∅
     = Raise (ValueError TooFewNodes)
  /\ spec_valid sample_extra_param sample_queues ["CSC388"]
  /\ validate sample_extra_param sample_queues ["CSC388"] ∅
     = Raise (ValueError (ExtraneousParams ["singularity"] [])).
Proof.
  assert (Hs : forall n ps, n <= 8 ->
            spec_valid (mk_BatchJobBase "debug" "CSC388" n 30 None ps)
              sample_queues ["CSC388"]).
  { intros n ps Hn. exists (mk_AllowedQueue 8 60). simpl.
    repeat split; try done; try lia. set_solver. }
  split; [by apply Hs|]. split; [by vm_compute|].
  split; [by apply Hs|]. by vm_compute.
Qed.

End BasesTheory.

Module ProcessingTheory.
Import Processing.

(** *** [transition] *)

Lemma worker_state_has_handler app st :
  worker_state st = true ->
  exists transition_func, transition_func_for app st = Some transition_func.
Proof. destruct st; simpl; try discriminate; eauto. Qed.




(** *** [read_pyapp_result] *)

Lemma split_ws_1_payload s payload :
  PyStr.split_ws_1 s !! 1%nat = Some payload -> payload <> EmptyString.
Proof.
  unfold PyStr.split_ws_1. destruct (PyStr.lstrip s) as [|c r]; [done|].
  destruct (PyStr.span_word (String c r)) as [word rest].
  destruct (PyStr.lstrip rest); [done|]. by intros [= <-].
Qed.

Lemma payload_of_nonempty marker line payload :
  payload_of marker line = Some payload -> payload <> EmptyString.
Proof. apply split_ws_1_payload. Qed.

(** The scan stops at the first line that holds a marker, the return marker
    taking precedence within a line. *)
Lemma scan_markers_first pre line post :
  Forall (fun l => PyStr.contains l ret_marker = false
                   /\ PyStr.contains l exc_marker = false) pre ->
  scan_markers (pre ++ line :: post)%list = scan_markers (line :: post).
Proof.
  induction 1 as [|l pre [Hr He] _ IH]; [reflexivity|].
  simpl. rewrite Hr, He. exact IH.
Qed.




(** *** [job_context] *)

Lemma grows_refl f : grows f f.
Proof. by intros p n. Qed.

Lemma grows_trans f1 f2 f3 : grows f1 f2 -> grows f2 f3 -> grows f1 f3.
Proof. intros H1 H2 p n Hp. by apply H2, H1. Qed.

Lemma grows_insert f p n : f !! p = None -> p <> [] -> grows f (<[p := n]> f).
Proof.
  intros Hnone Hne q m. unfold node_at. destruct q as [|c q]; [done|].
  intros Hq. rewrite lookup_insert_ne; [done|]. congruence.
Qed.

(** [mkdir(parents=True, exist_ok=True)] leaves what exists in place, and
    what it adds are directories no longer than the path asked for, the
    path itself among them. *)
Lemma mkdir_from_spec rest : forall above f f',
  mkdir_from above rest f = inl f' ->
  grows f f'
  /\ (rest <> [] -> f' !! (above ++ rest)%list = Some Dir)
  /\ (forall p, f' !! p = f !! p
                \/ (length p <= length above + length rest)%nat).
Proof.
  induction rest as [|c rest IH]; intros above f f'; simpl.
  - intros [= <-]. split; [apply grows_refl|]. split; [done|]. by left.
  - assert (Hne : (above ++ [c])%list <> []) by (by destruct above).
    assert (Hlen : forall p : path,
              (length p <= length (above ++ [c])%list + length rest ->
               length p <= length above + S (length rest))%nat).
    { intros p. rewrite length_app. simpl. lia. }
    assert (Htail : f' !! ((above ++ [c]) ++ rest)%list = Some Dir ->
                    f' !! (above ++ c :: rest)%list = Some Dir).
    { by rewrite <- app_assoc. }
    destruct (f !! (above ++ [c])%list) as [[|lines]|] eqn:Hp.
    + intros H. destruct (IH _ _ _ H) as (Hg & Hd & Hl).
      split; [exact Hg|]. split.
      * intros _. destruct rest as [|c' rest'].
        -- simpl in H. injection H as <-. exact Hp.
        -- apply Htail, Hd. discriminate.
      * intros p. destruct (Hl p) as [?|?]; [by left|right; by apply Hlen].
    + discriminate.
    + intros H. destruct (IH _ _ _ H) as (Hg & Hd & Hl).
      split; [|split].
      * eapply grows_trans; [|exact Hg]. by apply grows_insert.
      * intros _. destruct rest as [|c' rest'].
        -- simpl in H. injection H as <-. apply lookup_insert_eq.
        -- apply Htail, Hd. discriminate.
      * intros p. destruct (Hl p) as [E|?]; [|right; by apply Hlen].
        destruct (decide (p = (above ++ [c])%list)) as [->|Hn].
        -- right. rewrite length_app. simpl. lia.
        -- left. by rewrite E, lookup_insert_ne.
Qed.

Lemma os_chdir_returns d w w' :
  os_chdir d w = Returns w' ->
  cwd (proc w') = d /\ node_at (fs (proc w')) d = Some Dir
  /\ fs (proc w') = fs (proc w) /\ frame w w'.
Proof.
  unfold os_chdir. destruct (os_error (proc w) (chdir_call d));
    [discriminate|].
  destruct (node_at (fs (proc w)) d) as [[|l]|] eqn:Hd; try discriminate.
  intros [= <-]. simpl. repeat split; try done. apply grows_refl.
Qed.

Lemma os_chdir_raises d w e w' : os_chdir d w = Raises e w' -> w' = w.
Proof.
  unfold os_chdir. destruct (os_error (proc w) (chdir_call d));
    [by intros [= _ <-]|].
  destruct (node_at (fs (proc w)) d) as [[|l]|];
    try discriminate; by intros [= _ <-].
Qed.

Lemma os_chdir_can d w :
  can_chdir w d -> os_chdir d w = Returns (set_proc w (set_cwd (proc w) d)).
Proof. intros [Hd He]. unfold os_chdir. by rewrite He, Hd. Qed.

Lemma chdir_or_make_returns workdir w w1 :
  chdir_or_make workdir w = Returns w1 ->
  cwd (proc w1) = workdir /\ node_at (fs (proc w1)) workdir = Some Dir
  /\ frame w w1
  /\ (forall p, fs (proc w1) !! p = fs (proc w) !! p
                \/ (length p <= length workdir)%nat).
Proof.
  unfold chdir_or_make. destruct (os_chdir workdir w) as [w'|e w'] eqn:H1.
  - intros [= <-]. apply os_chdir_returns in H1 as (? & ? & E & ?).
    split; [done|]. split; [done|]. split; [done|].
    intros p. left. by rewrite E.
  - apply os_chdir_raises in H1 as ->.
    destruct (is_FileNotFoundError e); [|discriminate].
    unfold mkdir_parents.
    destruct (os_error (proc w) (mkdir_call workdir)); [discriminate|].
    destruct (mkdir_from [] workdir (fs (proc w))) as [f|c] eqn:Hm;
      [|discriminate].
    intros H2. apply os_chdir_returns in H2 as (Hc & Hd & E & Hf).
    apply mkdir_from_spec in Hm as (Hg & _ & Hl).
    split; [exact Hc|]. split; [exact Hd|]. split.
    + destruct Hf as (? & ? & ? & _ & ?). repeat split; try done.
      rewrite E. exact Hg.
    + intros p. rewrite E. simpl. destruct (Hl p); [by left|by right].
Qed.

Lemma chdir_or_make_raises workdir w e w1 :
  chdir_or_make workdir w = Raises e w1 ->
  cwd (proc w1) = cwd (proc w) /\ frame w w1.
Proof.
  unfold chdir_or_make. destruct (os_chdir workdir w) as [w'|e' w'] eqn:H1;
    [discriminate|].
  apply os_chdir_raises in H1 as ->.
  assert (Hw : cwd (proc w) = cwd (proc w) /\ frame w w).
  { repeat split; try done. apply grows_refl. }
  destruct (is_FileNotFoundError e'); [|by intros [= _ <-]].
  unfold mkdir_parents.
  destruct (os_error (proc w) (mkdir_call workdir)); [by intros [= _ <-]|].
  destruct (mkdir_from [] workdir (fs (proc w))) as [f|c] eqn:Hm;
    [|by intros [= _ <-]].
  intros H2. apply os_chdir_raises in H2 as ->. simpl.
  apply mkdir_from_spec in Hm as (Hg & _). by repeat split.
Qed.

Lemma open_append_frame p w r :
  open_append p w = r ->
  cwd (proc (world_of r)) = cwd (proc w) /\ frame w (world_of r).
Proof.
  unfold open_append. intros <-.
  destruct (os_error (proc w) (open_call p)).
  { simpl. repeat split; try done. apply grows_refl. }
  destruct (node_at (fs (proc w)) p) as [[|l]|] eqn:Hp; simpl;
    repeat split; try done; try apply grows_refl.
  destruct p as [|c p]; [discriminate|]. by apply grows_insert.
Qed.

(** The file is there afterwards: with what it held, or empty when it was
    not there. *)
Lemma open_append_returns p w w' :
  open_append p w = Returns w' ->
  exists lines,
    node_at (fs (proc w')) p = Some (File lines)
    /\ (node_at (fs (proc w)) p = Some (File lines)
        \/ (node_at (fs (proc w)) p = None /\ lines = [])).
Proof.
  unfold open_append. destruct (os_error (proc w) (open_call p));
    [discriminate|].
  destruct (node_at (fs (proc w)) p) as [[|l]|] eqn:Hp; try discriminate.
  - intros [= <-]. exists l. split; [done|by left].
  - intros [= <-]. exists []. split; [|by right]. simpl.
    destruct p as [|c p]; [discriminate|]. simpl. apply lookup_insert_eq.
Qed.

(** The [finally] block, when the directory to go back to is there. *)
Lemma restore_ok old_cwd old_stdout old_stderr (r : outcome) :
  can_chdir (world_of r) old_cwd ->
  exists w5,
    restore old_cwd old_stdout old_stderr r
      = match r with
        | Returns _ => Returns w5
        | Raises e _ => Raises e w5
        end
    /\ cwd (proc w5) = old_cwd
    /\ sys_stdout (proc w5) = old_stdout
    /\ sys_stderr (proc w5) = old_stderr
    /\ job w5 = job (world_of r)
    /\ fs (proc w5) = fs (proc (world_of r)).
Proof.
  intros Hd. unfold restore. rewrite (os_chdir_can _ _ Hd). eexists.
  split; [reflexivity|]. by repeat split.
Qed.

Lemma world_of_exit (r : outcome) w5 :
  world_of match r with
           | Returns _ => Returns w5
           | Raises e _ => Raises e w5
           end = w5.
Proof. by destruct r. Qed.

Lemma job_context_entered workdir fn body w w_in :
  entered workdir fn w = Some w_in ->
  job_context workdir fn body w
    = restore (cwd (proc w)) (sys_stdout (proc w)) (sys_stderr (proc w))
        (body w_in).
Proof.
  unfold entered, job_context.
  destruct (chdir_or_make workdir w) as [w1|]; [|done].
  destruct (open_append (workdir ++ [fn])%list w1) as [w2|]; [|done].
  by intros [= <-].
Qed.

Lemma entered_inv workdir fn w w_in :
  entered workdir fn w = Some w_in ->
  exists w1 w2,
    chdir_or_make workdir w = Returns w1
    /\ open_append (workdir ++ [fn])%list w1 = Returns w2
    /\ w_in = set_proc w2
                (set_streams (proc w2) (FileHandle (workdir ++ [fn])%list)
                   (FileHandle (workdir ++ [fn])%list)).
Proof.
  unfold entered.
  destruct (chdir_or_make workdir w) as [w1|] eqn:H1; [|done].
  destruct (open_append (workdir ++ [fn])%list w1) as [w2|] eqn:H2; [|done].
  intros [= <-]. by exists w1, w2.
Qed.

(** C9 (as the code has it): when the job's working directory is there, or
    is missing and can be made, the log path is not a directory and the
    operating system refuses none of these calls, the body runs in that
    directory with both streams on the log file, which is opened for
    appending: what it held is kept, and it is empty when it was not there;
    and when the directory the worker came from can still be entered as
    the context ends, the working directory and both streams are what they
    were before, whether the body returned or raised. *)
Theorem job_context_restores workdir stdout_filename body w :
  can_chdir w (cwd (proc w)) ->
  (forall w_in,
     entered workdir stdout_filename w = Some w_in ->
     can_chdir (world_of (body w_in)) (cwd (proc w))) ->
  (cwd (proc (world_of (job_context workdir stdout_filename body w)))
     = cwd (proc w)
   /\ sys_stdout (proc (world_of (job_context workdir stdout_filename body w)))
      = sys_stdout (proc w)
   /\ sys_stderr (proc (world_of (job_context workdir stdout_filename body w)))
      = sys_stderr (proc w))
  /\ (forall w_in,
        entered workdir stdout_filename w = Some w_in ->
        cwd (proc w_in) = workdir
        /\ node_at (fs (proc w_in)) workdir = Some Dir
        /\ sys_stdout (proc w_in)
           = FileHandle (workdir ++ [stdout_filename])%list
        /\ sys_stderr (proc w_in)
           = FileHandle (workdir ++ [stdout_filename])%list
        /\ (exists lines,
              node_at (fs (proc w_in)) (workdir ++ [stdout_filename])%list
              = Some (File lines)
              /\ (fs (proc w) !! (workdir ++ [stdout_filename])%list
                  = Some (File lines)
                  \/ (fs (proc w) !! (workdir ++ [stdout_filename])%list
                      = None /\ lines = [])))
        /\ job w_in = job w
        /\ same_exit (job_context workdir stdout_filename body w)
             (body w_in)
        /\ job (world_of (job_context workdir stdout_filename body w))
           = job (world_of (body w_in))
        /\ fs (proc (world_of (job_context workdir stdout_filename body w)))
           = fs (proc (world_of (body w_in))))
  /\ (node_at (fs (proc w)) workdir = Some Dir
      \/ (node_at (fs (proc w)) workdir = None
          /\ os_error (proc w) (mkdir_call workdir) = None
          /\ exists f, mkdir_from [] workdir (fs (proc w)) = inl f) ->
      os_error (proc w) (chdir_call workdir) = None ->
      fs (proc w) !! (workdir ++ [stdout_filename])%list <> Some Dir ->
      os_error (proc w) (open_call (workdir ++ [stdout_filename])%list)
      = None ->
      exists w_in, entered workdir stdout_filename w = Some w_in).
Proof.
  intros Hcwd Hbody.
  set (log := (workdir ++ [stdout_filename])%list) in *.
  set (old := cwd (proc w)) in *.
  assert (Hlog : forall f : gmap path node, node_at f log = f !! log).
  { intros f. unfold log. by destruct workdir. }
  split; [|split].
  - destruct (entered workdir stdout_filename w) as [w_in|] eqn:Hin.
    + rewrite (job_context_entered _ _ body _ _ Hin). fold old.
      destruct (restore_ok old (sys_stdout (proc w)) (sys_stderr (proc w))
                  (body w_in) (Hbody _ eq_refl))
        as (w5 & -> & ? & ? & ? & _).
      by rewrite world_of_exit.
    + unfold entered in Hin. unfold job_context. fold log old in Hin |- *.
      destruct (chdir_or_make workdir w) as [w1|e w1] eqn:H1.
      * apply chdir_or_make_returns in H1
          as (_ & _ & (_ & _ & _ & Hg1 & Ho1) & _).
        destruct (open_append log w1) as [w2|e w2] eqn:H2; [done|].
        pose proof (open_append_frame _ _ _ H2)
          as (_ & _ & _ & _ & Hg2 & Ho2).
        destruct Hcwd as [Hd He].
        destruct (restore_ok old (sys_stdout (proc w)) (sys_stderr (proc w))
                    (Raises e w2))
          as (w5 & -> & ? & ? & ? & _); [|by simpl].
        split; [by apply Hg2, Hg1|]. simpl in *. by rewrite Ho2, Ho1.
      * apply chdir_or_make_raises in H1 as (Hc & _ & Ho & He & _).
        simpl. by rewrite Hc, Ho, He.
  - intros w_in Hin. rewrite (job_context_entered _ _ body _ _ Hin).
    fold old.
    destruct (restore_ok old (sys_stdout (proc w)) (sys_stderr (proc w))
                (body w_in) (Hbody _ Hin))
      as (w5 & -> & _ & _ & _ & Hj & Hf).
    rewrite world_of_exit.
    apply entered_inv in Hin as (w1 & w2 & H1 & H2 & ->). fold log in H2 |- *.
    apply chdir_or_make_returns in H1 as (Hc1 & Hd1 & (Hj1 & _) & Hl1).
    pose proof (open_append_frame _ _ _ H2) as (Hc2 & Hj2 & _ & _ & Hg2 & _).
    apply open_append_returns in H2 as (lines & Hfile & Hwas). simpl in *.
    split; [congruence|]. split; [by apply Hg2|].
    split; [done|]. split; [done|]. split.
    { exists lines. split; [done|]. rewrite !Hlog in Hwas.
      destruct (Hl1 log) as [E|Hlen].
      - by rewrite <- E.
      - unfold log in Hlen. rewrite length_app in Hlen. simpl in Hlen. lia. }
    split; [congruence|]. split; [|by split].
    unfold same_exit. by destruct (body _).
  - intros Hdir Hch Hnot Hop.
    assert (Hopen : forall w1,
              fs (proc w1) !! log <> Some Dir ->
              os_error (proc w1) (open_call log) = None ->
              exists w2, open_append log w1 = Returns w2).
    { intros w1 Hn Ho. unfold open_append. rewrite Ho, Hlog.
      destruct (fs (proc w1) !! log) as [[|l]|]; [done|eauto|eauto]. }
    unfold entered. fold log.
    assert (exists w1, chdir_or_make workdir w = Returns w1
                       /\ fs (proc w1) !! log <> Some Dir
                       /\ os_error (proc w1) = os_error (proc w))
      as (w1 & -> & Hn & Ho).
    { unfold chdir_or_make, os_chdir. rewrite Hch.
      destruct Hdir as [-> | (Hnone & Hmk & f & Hf)].
      - eexists. split; [reflexivity|]. by split.
      - rewrite Hnone. simpl. unfold mkdir_parents. rewrite Hmk, Hf. simpl.
        rewrite Hch.
        destruct (mkdir_from_spec _ _ _ _ Hf) as (_ & Hd & Hl).
        assert (workdir <> []) as Hne by (intros ->; discriminate).
        assert (node_at f workdir = Some Dir) as ->.
        { destruct workdir; [done|]. by apply Hd. }
        eexists. split; [reflexivity|]. simpl. split; [|done].
        destruct (Hl log) as [->|Hlen]; [exact Hnot|].
        unfold log in Hlen. rewrite length_app in Hlen. simpl in Hlen. lia. }
    destruct (Hopen w1 Hn) as [w2 ->]; [by rewrite Ho|]. eauto.
Qed.

Lemma job_context_restores_witness :
  (cwd (proc (world_of
     (job_context ["data"; "job7"] "balsam.log"
        (call (raising "preprocess" (ExceptionSubclass "RuntimeError") "boom"))
        (sample_world staged_in)))) = ["srv"]
   /\ sys_stdout (proc (world_of
        (job_context ["data"; "job7"] "balsam.log"
           (call (raising "preprocess" (ExceptionSubclass "RuntimeError")
                    "boom"))
           (sample_world staged_in)))) = Console "stdout"
   /\ sys_stderr (proc (world_of
        (job_context ["data"; "job7"] "balsam.log"
           (call (raising "preprocess" (ExceptionSubclass "RuntimeError")
                    "boom"))
           (sample_world staged_in)))) = Console "stderr")
  /\ exists w_in,
       entered ["data"; "job7"] "balsam.log" (sample_world staged_in)
       = Some w_in.
Proof.
  destruct (job_context_restores ["data"; "job7"] "balsam.log"
              (call (raising "preprocess" (ExceptionSubclass "RuntimeError")
                       "boom"))
              (sample_world staged_in)) as (Hrestored & _ & Hentered).
  - split; reflexivity.
  - intros w_in Hin. vm_compute in Hin. injection Hin as <-.
    split; vm_compute; reflexivity.
  - split; [exact Hrestored|]. apply Hentered.
    + right. split; [reflexivity|]. split; [reflexivity|].
      eexists. vm_compute. reflexivity.
    + reflexivity.
    + vm_compute. discriminate.
    + reflexivity.
Defined.

(** C9 fails as stated: when the body removes the directory the worker came
    from, [os.chdir] raises in the [finally] block and both streams stay on
    the log file; and when a file sits on the way to the job's directory,
    the context is not entered at all. *)
Lemma job_context_counterexample :
  sys_stdout (proc (sample_world staged_in)) = Console "stdout"
  /\ cwd (proc (sample_world staged_in)) = ["srv"]
  /\ (exists w',
        job_context ["data"; "job7"] "balsam.log" (rmdir_body ["srv"])
          (sample_world staged_in)
        = Raises (mk_exc FileNotFoundError "No such file or directory") w'
        /\ sys_stdout (proc w') = FileHandle ["data"; "job7"; "balsam.log"]
        /\ sys_stderr (proc w') = FileHandle ["data"; "job7"; "balsam.log"]
        /\ cwd (proc w') = ["data"; "job7"])
  /\ (forall body,
        job_context ["data"; "job7"] "balsam.log" body
          world_with_file_in_the_way
        = Raises (mk_exc NotADirectoryError "mkdir")
            world_with_file_in_the_way).
Proof.
  split; [reflexivity|]. split; [reflexivity|]. split.
  - eexists. split; [vm_compute; reflexivity|]. by repeat split.
  - intros body. reflexivity.
Qed.

End ProcessingTheory.

Module ShutdownTheory.
Import Shutdown.

Lemma initial_inv s : initial s -> inv s.
Proof.
  intros (Hj & Hu & Hp). unfold inv. rewrite Hj, Hu, Hp.
  split; [discriminate|]. split; [constructor|reflexivity].
Qed.

(** A worker that has not exited keeps the updater alive. *)
Lemma inv_alive s i w :
  inv s -> workers s !! i = Some w -> is_exited w = false ->
  updater_terminated s = false.
Proof.
  intros (Hall & _) Hw Hne.
  destruct (updater_terminated s); [|reflexivity].
  specialize (Hall eq_refl). rewrite Forall_lookup in Hall.
  specialize (Hall _ _ Hw). congruence.
Qed.

(** A step of worker [i] that does not bring it back from [exited]. *)
Lemma inv_set_worker s i w w' :
  inv s -> workers s !! i = Some w ->
  (is_exited w = true -> is_exited w' = true) ->
  inv (set_worker s i w').
Proof.
  intros (Hall & Hputs & Hjoin) Hw Hex. unfold inv, set_worker. simpl.
  assert (Hk : forall k x, <[i := w']> (workers s) !! k = Some x ->
                 (forall y, workers s !! k = Some y -> is_exited y = true) ->
                 is_exited x = true).
  { intros k x Hx Hy. apply list_lookup_insert_Some in Hx
      as [(-> & <- & _)|(_ & Hx)]; [by apply Hex, Hy|by apply Hy]. }
  split; [|split; [exact Hputs|]].
  - intros Hu. specialize (Hall Hu). rewrite Forall_lookup in Hall.
    apply Forall_lookup. intros k x Hx. apply (Hk _ _ Hx).
    intros y Hy. by apply (Hall k).
  - destruct (join_at s); try done.
    destruct Hjoin as [Hu Hpast]. split; [exact Hu|].
    intros k x Hlt Hx. apply (Hk _ _ Hx). intros y Hy.
    by apply (Hpast k).
Qed.

Lemma inv_put s job_id :
  inv s -> updater_terminated s = false ->
  inv (mk_service (workers s) (join_at s) (updater_terminated s)
         (puts s ++ [(job_id, updater_terminated s)])).
Proof.
  intros (Hall & Hputs & Hjoin) Hu. unfold inv. simpl.
  split; [exact Hall|]. split; [|exact Hjoin].
  apply Forall_app. split; [exact Hputs|]. by repeat constructor.
Qed.

Lemma step_inv s e s' : inv s -> step s e = Some s' -> inv s'.
Proof.
  intros Hinv. destruct e as [i|i|i|i job_id|i|i| | | | |]; simpl.
  - destruct (workers s !! i) as [w|] eqn:Hw; simpl; [|discriminate].
    intros [= <-]. by apply (inv_set_worker s i w).
  - destruct (workers s !! i) as [w|] eqn:Hw; simpl; [|discriminate].
    destruct (pc w) eqn:Hpc; try discriminate. intros [= <-].
    apply (inv_set_worker s i w); [done..|].
    unfold is_exited. by rewrite Hpc.
  - destruct (workers s !! i) as [w|] eqn:Hw; simpl; [|discriminate].
    destruct (pc w) eqn:Hpc; try discriminate. intros [= <-].
    apply (inv_set_worker s i w); [done..|].
    unfold is_exited. by rewrite Hpc.
  - destruct (workers s !! i) as [w|] eqn:Hw; simpl; [|discriminate].
    destruct (pc w) eqn:Hpc; try discriminate. intros [= <-].
    apply (inv_set_worker s i w); [done..|].
    unfold is_exited. by rewrite Hpc.
  - destruct (workers s !! i) as [w|] eqn:Hw; simpl; [|discriminate].
    destruct (pc w) as [| |job_id|] eqn:Hpc; try discriminate. intros [= <-].
    assert (Hne : is_exited w = false) by (unfold is_exited; by rewrite Hpc).
    pose proof (inv_alive s i w Hinv Hw Hne) as Hu.
    apply (inv_put (set_worker s i (mk_worker at_loop (sig_set w))) job_id);
      [|exact Hu].
    apply (inv_set_worker s i w); [done..|]. congruence.
  - destruct (workers s !! i) as [w|] eqn:Hw; simpl; [|discriminate].
    destruct (pc w) eqn:Hpc; try discriminate. intros [= <-].
    by apply (inv_set_worker s i w).
  - destruct Hinv as (Hall & Hputs & Hjoin).
    destruct (join_at s) eqn:Hj; try discriminate. intros [= <-].
    unfold inv, set_join. simpl. split; [exact Hall|].
    split; [exact Hputs|]. split; [exact Hjoin|]. intros k w Hk. lia.
  - destruct Hinv as (Hall & Hputs & Hjoin).
    destruct (join_at s) as [|i| | |] eqn:Hj; try discriminate.
    destruct (workers s !! i) as [w|] eqn:Hw; simpl; [|discriminate].
    destruct (is_exited w) eqn:Hex; [|discriminate]. intros [= <-].
    destruct Hjoin as [Hu Hpast].
    unfold inv, set_join. simpl. split; [exact Hall|].
    split; [exact Hputs|]. split; [exact Hu|]. intros k x Hk Hx.
    destruct (decide (k = i)) as [->|Hne]; [congruence|].
    apply (Hpast k); [lia|exact Hx].
  - destruct Hinv as (Hall & Hputs & Hjoin).
    destruct (join_at s) as [|i| | |] eqn:Hj; try discriminate.
    destruct (Nat.leb_spec (length (workers s)) i) as [Hlen|];
      [|discriminate].
    intros [= <-]. destruct Hjoin as [Hu Hpast].
    unfold inv. simpl. split; [|split; [exact Hputs|reflexivity]].
    intros _. apply Forall_lookup. intros k w Hw.
    apply (Hpast k); [|exact Hw]. apply lookup_lt_Some in Hw. lia.
  - destruct Hinv as (Hall & Hputs & Hjoin).
    destruct (join_at s) eqn:Hj; try discriminate. intros [= <-].
    unfold inv, set_join. simpl. by repeat split.
  - destruct Hinv as (Hall & Hputs & Hjoin).
    destruct (join_at s) eqn:Hj; try discriminate. intros [= <-].
    unfold inv, set_join. simpl. by repeat split.
Qed.

Lemma run_inv trace : forall s s', inv s -> run s trace = Some s' -> inv s'.
Proof.
  induction trace as [|e trace IH]; intros s s' Hinv; simpl.
  - by intros [= <-].
  - destruct (step s e) as [s1|] eqn:Hstep; simpl; [|discriminate].
    apply IH. by apply (step_inv s e).
Qed.

(** *** Every job is accounted for *)

Lemma jobs_in_flight_insert_perm ws : forall i w w',
  ws !! i = Some w ->
  jobs_in_flight (<[i := w']> ws) ++ in_flight_of w
  ≡ₚ jobs_in_flight ws ++ in_flight_of w'.
Proof.
  unfold jobs_in_flight.
  induction ws as [|x ws IH]; intros [|i] w w' Hw; try done; simpl in *.
  - injection Hw as ->.
    rewrite <- !app_assoc.
    rewrite (Permutation_app_comm (in_flight_of w') _).
    rewrite (Permutation_app_comm (flat_map _ ws) (in_flight_of w)).
    by rewrite <- app_assoc.
  - rewrite <- !app_assoc. by rewrite (IH i w w' Hw).
Qed.

Lemma step_accounts s e s' :
  step s e = Some s' -> is_crash e = false ->
  map fst (puts s') ++ jobs_in_flight (workers s')
  ≡ₚ (map fst (puts s) ++ jobs_in_flight (workers s)) ++ dequeued [e].
Proof.
  assert (Hins : forall i w w' pc',
            workers s !! i = Some w -> pc w' = pc' ->
            jobs_in_flight (<[i := w']> (workers s))
            ++ match pc w with in_flight j => [j] | _ => [] end
            ≡ₚ jobs_in_flight (workers s)
               ++ match pc' with in_flight j => [j] | _ => [] end).
  { intros i w w' pc' Hw <-. apply (jobs_in_flight_insert_perm _ _ _ _ Hw). }
  destruct e as [i|i|i|i job_id|i|i| | | | |]; simpl; intros Hstep Hc;
    try discriminate; unfold dequeued; simpl; rewrite ?app_nil_r.
  - destruct (workers s !! i) as [w|] eqn:Hw; simpl in *; [|discriminate].
    injection Hstep as <-. simpl.
    pose proof (Hins i w (mk_worker (pc w) true) (pc w) Hw eq_refl) as E.
    apply Permutation_app_inv_r in E. by rewrite E.
  - destruct (workers s !! i) as [w|] eqn:Hw; simpl in *; [|discriminate].
    destruct (pc w) eqn:Hpc; try discriminate. injection Hstep as <-. simpl.
    pose proof (Hins i w (mk_worker (if sig_set w then exited else waiting)
                            (sig_set w)) _ Hw eq_refl) as E.
    rewrite Hpc in E. destruct (sig_set w); simpl in E;
      rewrite !app_nil_r in E; by rewrite E.
  - destruct (workers s !! i) as [w|] eqn:Hw; simpl in *; [|discriminate].
    destruct (pc w) eqn:Hpc; try discriminate. injection Hstep as <-. simpl.
    pose proof (Hins i w (mk_worker at_loop (sig_set w)) _ Hw eq_refl) as E.
    rewrite Hpc in E. simpl in E. rewrite !app_nil_r in E. by rewrite E.
  - destruct (workers s !! i) as [w|] eqn:Hw; simpl in *; [|discriminate].
    destruct (pc w) eqn:Hpc; try discriminate. injection Hstep as <-. simpl.
    pose proof (Hins i w (mk_worker (in_flight job_id) (sig_set w)) _ Hw
                  eq_refl) as E.
    rewrite Hpc in E. simpl in E. rewrite !app_nil_r in E.
    by rewrite E, app_assoc.
  - destruct (workers s !! i) as [w|] eqn:Hw; simpl in *; [|discriminate].
    destruct (pc w) eqn:Hpc; try discriminate. injection Hstep as <-. simpl.
    pose proof (Hins i w (mk_worker at_loop (sig_set w)) _ Hw eq_refl) as E.
    rewrite Hpc in E. simpl in E. rewrite !app_nil_r in E.
    rewrite map_app. simpl. rewrite <- E.
    rewrite <- !app_assoc. apply Permutation_app_head.
    apply Permutation_app_comm.
  - destruct (join_at s); try discriminate. by injection Hstep as <-.
  - destruct (join_at s) as [|i| | |]; try discriminate.
    destruct (workers s !! i) as [w|]; simpl in *; [|discriminate].
    destruct (is_exited w); [|discriminate]. by injection Hstep as <-.
  - destruct (join_at s) as [|i| | |]; try discriminate.
    destruct (length (workers s) <=? i)%nat; [|discriminate].
    by injection Hstep as <-.
  - destruct (join_at s); try discriminate. by injection Hstep as <-.
  - destruct (join_at s); try discriminate. by injection Hstep as <-.
Qed.

Lemma run_accounts trace : forall s s',
  run s trace = Some s' -> crash_free trace = true ->
  map fst (puts s') ++ jobs_in_flight (workers s')
  ≡ₚ (map fst (puts s) ++ jobs_in_flight (workers s)) ++ dequeued trace.
Proof.
  induction trace as [|e trace IH]; intros s s'; simpl.
  - intros [= <-] _. unfold dequeued. simpl. by rewrite app_nil_r.
  - destruct (step s e) as [s1|] eqn:Hstep; simpl; [|discriminate].
    intros Hrun Hc. apply andb_true_iff in Hc as [He Hc].
    apply negb_true_iff in He.
    rewrite (IH _ _ Hrun Hc), (step_accounts _ _ _ Hstep He).
    unfold dequeued. simpl. rewrite app_nil_r.
    by rewrite <- !app_assoc.
Qed.

Lemma exited_none_in_flight ws :
  Forall (fun w => is_exited w = true) ws -> jobs_in_flight ws = [].
Proof.
  unfold jobs_in_flight, in_flight_of, is_exited.
  induction 1 as [|w ws Hw _ IH]; simpl; [done|].
  rewrite IH. by destruct (pc w).
Qed.

(** C3 (as the code has it): in every state that a started service reaches
    by steps of its workers, of signals and of [join], the updater has been
    terminated only if every worker has exited, and every status update
    was put before the updater was terminated; and as long as no exception
    leaves the loop of a worker, the jobs whose update was put and the jobs
    still in flight are, each once, the jobs that were in flight at the
    start and those taken from the source since: once the updater is
    terminated, each of them has had its update put. *)
Theorem updater_outlives_workers s0 trace s :
  initial s0 -> run s0 trace = Some s ->
  (updater_terminated s = true ->
   Forall (fun w => pc w = exited) (workers s))
  /\ Forall (fun p => snd p = false) (puts s)
  /\ (crash_free trace = true ->
      map fst (puts s) ++ jobs_in_flight (workers s)
      ≡ₚ jobs_in_flight (workers s0) ++ dequeued trace)
  /\ (crash_free trace = true -> updater_terminated s = true ->
      map fst (puts s) ≡ₚ jobs_in_flight (workers s0) ++ dequeued trace).
Proof.
  intros H0 Hrun.
  destruct (run_inv trace s0 s (initial_inv _ H0) Hrun) as (Hall & Hputs & _).
  assert (Hacc : crash_free trace = true ->
            map fst (puts s) ++ jobs_in_flight (workers s)
            ≡ₚ jobs_in_flight (workers s0) ++ dequeued trace).
  { intros Hc. rewrite (run_accounts _ _ _ Hrun Hc).
    destruct H0 as (_ & _ & ->). reflexivity. }
  split; [|split; [exact Hputs|split; [exact Hacc|]]].
  - intros Hu. eapply Forall_impl; [exact (Hall Hu)|]. simpl. intros w.
    unfold is_exited. by destruct (pc w).
  - intros Hc Hu. rewrite <- (Hacc Hc).
    by rewrite (exited_none_in_flight _ (Hall Hu)), app_nil_r.
Qed.

Lemma updater_outlives_workers_witness :
  exists s,
    run sample_service sample_shutdown = Some s
    /\ join_at s = joined
    /\ puts s = [(7, false)]
    /\ (updater_terminated s = true ->
        Forall (fun w => pc w = exited) (workers s))
    /\ Forall (fun p => snd p = false) (puts s)
    /\ (crash_free sample_shutdown = true ->
        map fst (puts s) ++ jobs_in_flight (workers s)
        ≡ₚ jobs_in_flight (workers sample_service) ++ dequeued sample_shutdown)
    /\ (crash_free sample_shutdown = true -> updater_terminated s = true ->
        map fst (puts s)
        ≡ₚ jobs_in_flight (workers sample_service) ++ dequeued sample_shutdown).
Proof.
  eexists. split; [vm_compute; reflexivity|].
  split; [reflexivity|]. split; [reflexivity|].
  apply (updater_outlives_workers sample_service sample_shutdown).
  - by repeat split.
  - vm_compute. reflexivity.
Defined.

(** C3 fails as stated: [run_worker] has nothing around the turn of its
    loop, so an exception that leaves it, the [SystemExit] of a handler
    that calls [sys.exit], say, ends the worker with its job in flight and
    no update put for it; [join] still returns, and the updater is
    terminated with that update missing. *)
Lemma shutdown_counterexample :
  exists s,
    run sample_service sample_crash = Some s
    /\ jobs_in_flight (workers sample_service) = [7]
    /\ join_at s = joined
    /\ updater_terminated s = true
    /\ Forall (fun w => pc w = exited) (workers s)
    /\ puts s = [].
Proof.
  eexists. split; [vm_compute; reflexivity|].
  repeat split; repeat constructor.
Qed.

End ShutdownTheory.

(** * Further properties of the scheduler interface *)

Module LsfMore.
Import PyStr PyStrFacts Lsf LsfTheory.

(** ** Durations *)

Lemma int_raise s e :
  int s = Raise e ->
  e = ValueError (BadIntLiteral s) \/ e = ValueError ExceedsDigitLimit.
Proof.
  unfold int. repeat case_match; intros [= <-]; (by left) || by right.
Qed.

Lemma map_int_raise parts e :
  map_int parts = Raise e ->
  exists p, p ∈ parts /\ int p = Raise e
            /\ (e = ValueError (BadIntLiteral p)
                \/ e = ValueError ExceedsDigitLimit).
Proof.
  induction parts as [|p parts IH]; simpl; [discriminate|].
  destruct (int p) as [z|e'] eqn:Hp; simpl.
  - destruct (map_int parts) as [zs|e'']; simpl; [discriminate|].
    intros [= ->]. destruct (IH eq_refl) as (q & Hq & Hi & He).
    exists q. split; [by right|done].
  - intros [= ->]. exists p. split; [by left|]. split; [done|].
    by apply int_raise.
Qed.

(** The division [S / 60] overflows only far above [2^53] seconds. *)
Lemma round_div60_raise secs e :
  round_div60 secs = Raise e -> e = OverflowError /\ 2 ^ 53 <= Z.abs secs.
Proof.
  intros H. split.
  - unfold round_div60 in H. repeat case_match; congruence.
  - destruct (Z.lt_ge_cases (Z.abs secs) (2 ^ 53)) as [Hlt|]; [|done].
    exfalso. pose proof (round_div60_small (Z.abs secs) ltac:(lia)) as Hs.
    unfold round_div60 in H, Hs. rewrite Z.abs_idemp in Hs.
    destruct (Z.eqb_spec secs 0) as [|Hne]; [discriminate|].
    destruct (Z.eqb_spec (Z.abs secs) 0) as [|_]; [lia|].
    destruct (2 ^ 1024 <=? _); discriminate.
Qed.

Lemma map_int_length parts l : map_int parts = Ok l -> length l = length parts.
Proof.
  revert l. induction parts as [|p parts IH]; intros l; simpl.
  - by intros [= <-].
  - destruct (int p); simpl; [|discriminate].
    destruct (map_int parts) as [zs|]; simpl; [|discriminate].
    intros [= <-]. simpl. by rewrite (IH zs).
Qed.

(** A string that splits at its colons into one part, or into five or more,
    parses to 0 minutes whatever it holds: its parts are not read. *)
Theorem parse_clock_other_shapes t :
  length (split_on ":" t) <> 2%nat ->
  length (split_on ":" t) <> 3%nat ->
  length (split_on ":" t) <> 4%nat ->
  parse_clock t = Ok 0.
Proof.
  intros H2 H3 H4. unfold parse_clock.
  destruct (split_on ":" t) as [|a [|b [|c [|d [|e l]]]]]; simpl in *;
    try reflexivity; congruence.
Qed.

Lemma parse_clock_other_shapes_witness :
  parse_clock "ninety" = Ok 0 /\ parse_clock "1:2:3:4:5" = Ok 0.
Proof.
  split; apply parse_clock_other_shapes; vm_compute; discriminate.
Defined.

(** [parse_clock] raises nothing but the [ValueError] of [int] on one of
    the parts between the colons, for a part that is no integer literal or
    has more digits than [int] converts, and the [OverflowError] of the
    division [S / 60], which takes a seconds part of [2^53] or more in
    magnitude. *)
Theorem parse_clock_raises t e :
  parse_clock t = Raise e ->
  (exists p, p ∈ split_on ":" t /\ int p = Raise e
             /\ (e = ValueError (BadIntLiteral p)
                 \/ e = ValueError ExceedsDigitLimit))
  \/ (exists p Sec, last (split_on ":" t) = Some p /\ int p = Ok Sec
                    /\ round_div60 Sec = Raise e
                    /\ e = OverflowError /\ 2 ^ 53 <= Z.abs Sec).
Proof.
  assert (Hint : forall p l, map_int [p] = Ok l -> exists z, int p = Ok z /\ l = [z]).
  { intros p l. simpl. destruct (int p); simpl; [|discriminate].
    intros [= <-]. eauto. }
  unfold parse_clock.
  destruct (split_on ":" t) as [|a [|b [|c [|d [|x l]]]]] eqn:Hs;
    try discriminate.
  - destruct (map_int [a; b]) as [l|e'] eqn:Hm; simpl.
    + pose proof (map_int_length _ _ Hm) as Hl.
      destruct l as [|M [|Sec [|]]]; try discriminate.
      simpl. destruct (round_div60 Sec) eqn:Hr; simpl; [discriminate|].
      intros [= ->]. right. exists b, Sec.
      destruct (round_div60_raise _ _ Hr) as [-> ?].
      repeat split; try done.
      simpl in Hm. destruct (int a); simpl in Hm; [|discriminate].
      destruct (int b); simpl in Hm; congruence.
    + intros [= ->]. left. by apply map_int_raise.
  - destruct (map_int [a; b; c]) as [l|e'] eqn:Hm; simpl.
    + pose proof (map_int_length _ _ Hm) as Hl.
      destruct l as [|H [|M [|Sec [|]]]]; try discriminate.
      simpl. destruct (round_div60 Sec) eqn:Hr; simpl; [discriminate|].
      intros [= ->]. right. exists c, Sec.
      destruct (round_div60_raise _ _ Hr) as [-> ?].
      repeat split; try done.
      simpl in Hm. destruct (int a); simpl in Hm; [|discriminate].
      destruct (int b); simpl in Hm; [|discriminate].
      destruct (int c); simpl in Hm; congruence.
    + intros [= ->]. left. by apply map_int_raise.
  - destruct (map_int [a; b; c; d]) as [l|e'] eqn:Hm; simpl.
    + pose proof (map_int_length _ _ Hm) as Hl.
      destruct l as [|D [|H [|M [|Sec [|]]]]]; try discriminate.
      simpl. destruct (round_div60 Sec) eqn:Hr; simpl; [discriminate|].
      intros [= ->]. right. exists d, Sec.
      destruct (round_div60_raise _ _ Hr) as [-> ?].
      repeat split; try done.
      simpl in Hm. destruct (int a); simpl in Hm; [|discriminate].
      destruct (int b); simpl in Hm; [|discriminate].
      destruct (int c); simpl in Hm; [|discriminate].
      destruct (int d); simpl in Hm; congruence.
    + intros [= ->]. left. by apply map_int_raise.
Qed.

Lemma parse_clock_raises_witness :
  (exists p, p ∈ split_on ":" "12:3x"
             /\ int p = Raise (ValueError (BadIntLiteral "3x"))
             /\ (ValueError (BadIntLiteral "3x") = ValueError (BadIntLiteral p)
                 \/ ValueError (BadIntLiteral "3x")
                    = ValueError ExceedsDigitLimit))
  \/ (exists p Sec, last (split_on ":" "12:3x") = Some p /\ int p = Ok Sec
                    /\ round_div60 Sec = Raise (ValueError (BadIntLiteral "3x"))
                    /\ ValueError (BadIntLiteral "3x") = OverflowError
                    /\ 2 ^ 53 <= Z.abs Sec).
Proof. apply (parse_clock_raises "12:3x"). vm_compute. reflexivity. Defined.

(** ** Submission output *)

Lemma prefix_app w b : String.prefix w (w +:+ b) = true.
Proof.
  induction w as [|a w IH]; simpl; [by destruct b|].
  by destruct (ascii_dec a a).
Qed.

Lemma find_at_skip_digits sep n rest k :
  is_digit sep = false -> only_digits n = true ->
  find_at (String sep EmptyString) (n +:+ String sep rest) k
  = Some (k + String.length n)%nat.
Proof.
  intros Hsep. revert k. induction n as [|c n IH]; intros k Hn.
  - change (EmptyString +:+ String sep rest) with (String sep rest).
    simpl. destruct (ascii_dec sep sep); [|done]. destruct rest; f_equal; lia.
  - simpl in Hn. apply andb_true_iff in Hn as [Hc Hn].
    change (String c n +:+ String sep rest)
      with (String c (n +:+ String sep rest)).
    cbn [find_at]. rewrite prefix_head_neq by congruence.
    rewrite IH by done. f_equal. simpl. lia.
Qed.

Lemma find_at_digits_none sep n k :
  is_digit sep = false -> only_digits n = true ->
  find_at (String sep EmptyString) n k = None.
Proof.
  intros Hsep. revert k. induction n as [|c n IH]; intros k Hn; [done|].
  simpl in Hn. apply andb_true_iff in Hn as [Hc Hn].
  cbn [find_at]. rewrite prefix_head_neq by congruence. by apply IH.
Qed.

Lemma substring_0_app a b : substring 0 (String.length a) (a +:+ b) = a.
Proof.
  induction a as [|c a IH]; simpl; [by destruct b|]. by rewrite IH.
Qed.

Lemma drop_app_length a b : drop (String.length a) (a +:+ b) = b.
Proof. induction a as [|c a IH]; [by destruct b|exact IH]. Qed.

Lemma substring_drop k m s : substring k m s = substring 0 m (drop k s).
Proof.
  revert s. induction k as [|k IH]; intros s; [by destruct s|].
  destruct s as [|c s]; [by destruct m|]. apply IH.
Qed.

(** An output that starts with ["Job <"], a decimal id of at most 4300
    digits and [">"], as [bsub] prints it, gives that id, whatever
    follows. *)
Theorem parse_submit_output_job_pattern n rest :
  numeral n -> (String.length n <= 4300)%nat ->
  _parse_submit_output ("Job <" +:+ n +:+ ">" +:+ rest) = Ok (dec n).
Proof.
  intros [Hne Hd] Hdigits. unfold _parse_submit_output.
  change (">" +:+ rest) with (String ">" rest).
  set (s := "Job <" +:+ n +:+ String ">" rest).
  assert (Hlen : String.length s
                 = (5 + (String.length n + S (String.length rest)))%nat).
  { unfold s. by rewrite !length_append. }
  assert (Hdrop : drop 5 s = n +:+ String ">" rest).
  { apply (drop_app_length "Job <"). }
  assert (0 < String.length n)%nat by (destruct n; [done|simpl; lia]).
  assert (Hfind : find s ">" 5 = Z.of_nat (5 + String.length n)).
  { unfold find. rewrite Hdrop.
    destruct (Nat.ltb_spec (String.length s) 5); [lia|].
    by rewrite (find_at_skip_digits ">" n rest 5). }
  change (String.length "Job <") with 5%nat. rewrite Hfind.
  assert (Hslice : slice s (Z.of_nat 5) (Z.of_nat (5 + String.length n)) = n).
  { unfold slice. rewrite Hlen.
    rewrite !(proj2 (Z.ltb_ge _ 0)) by lia.
    rewrite !Z.min_l by lia.
    rewrite (proj2 (Z.ltb_lt _ _)) by lia.
    replace (Z.to_nat (Z.of_nat 5)) with 5%nat by lia.
    replace (Z.to_nat (_ - _)) with (String.length n) by lia.
    rewrite substring_drop, Hdrop. apply substring_0_app. }
  rewrite Hslice. by rewrite int_numeral.
Qed.

Lemma no_space_digits s : only_digits s = true -> no_space s = true.
Proof.
  induction s as [|c s IH]; simpl; [done|]. intros H.
  apply andb_true_iff in H as [Hc Hs]. by rewrite (digit_not_space _ Hc), IH.
Qed.

(** A word is its own only token. *)
Lemma split_ws_word s : word s -> split_ws s = [s].
Proof.
  intros [Hne Hs]. induction s as [|c s IH]; [done|].
  simpl in Hs. apply andb_true_iff in Hs as [Hc Hs].
  apply negb_true_iff in Hc. cbn [split_ws]. rewrite Hc.
  destruct s as [|c' s']; [done|].
  assert (is_space c' = false) as ->.
  { simpl in Hs. apply andb_true_iff in Hs as [Hc' _].
    by apply negb_true_iff in Hc'. }
  by rewrite IH.
Qed.

Lemma numeral_word s : numeral s -> word s.
Proof. intros [Hne Hd]. split; [done|by apply no_space_digits]. Qed.

(** An output that is a bare decimal id of at most six digits gives that
    id: the slice from index 5 is empty, [int] rejects it, and the last
    token is read. *)
Theorem parse_submit_output_short_id n :
  numeral n -> (String.length n <= 6)%nat ->
  _parse_submit_output n = Ok (dec n).
Proof.
  intros Hn Hlen. pose proof Hn as [Hne Hd]. unfold _parse_submit_output.
  change (String.length "Job <") with 5%nat.
  assert (Hfind : find n ">" 5 = -1).
  { unfold find. destruct (String.length n <? 5)%nat; [done|].
    rewrite (find_at_digits_none ">"); [done|done|].
    clear -Hd. revert Hd. generalize 5%nat. intros k. revert n.
    induction k as [|k IH]; intros n Hd; [done|].
    destruct n as [|c n]; [done|]. simpl in Hd.
    apply andb_true_iff in Hd as [_ Hd]. by apply IH. }
  rewrite Hfind.
  assert (Hslice : slice n (Z.of_nat 5) (-1) = EmptyString).
  { unfold slice. rewrite (proj2 (Z.ltb_ge _ 0)) by lia.
    rewrite (proj2 (Z.ltb_lt (-1) 0)) by lia.
    rewrite (proj2 (Z.ltb_ge _ _)); [done|]. lia. }
  rewrite Hslice. change (int EmptyString) with
    (@Raise Z (ValueError (BadIntLiteral EmptyString))).
  rewrite (split_ws_word n (numeral_word n Hn)). simpl.
  rewrite int_numeral by (done || lia). reflexivity.
Qed.

Lemma parse_submit_output_job_pattern_witness :
  _parse_submit_output "Job <123456> is submitted to default queue <batch>."
  = Ok 123456.
Proof.
  apply (parse_submit_output_job_pattern "123456"
           " is submitted to default queue <batch>.").
  - split; [discriminate|reflexivity].
  - simpl. lia.
Defined.

Lemma parse_submit_output_short_id_witness :
  _parse_submit_output "123456" = Ok 123456.
Proof.
  apply (parse_submit_output_short_id "123456").
  - split; [discriminate|reflexivity].
  - simpl. lia.
Defined.

(** ** Status output *)

Section StatusMore.
Variable parse_datetime : string -> result datetime.
Local Abbreviation scan_line := (scan_line parse_datetime).
Local Abbreviation scan_lines := (scan_lines parse_datetime).
Local Abbreviation parse_entry := (parse_entry parse_datetime).
Local Abbreviation _parse_job_status := (_parse_job_status parse_datetime).
Local Abbreviation _parse_status_output :=
  (_parse_status_output parse_datetime).

Lemma length_rejoin_datetime (fields : list string) :
  length (rejoin_datetime fields)
  = (length fields `min` 6 + 1 + (length fields - 8))%nat.
Proof.
  unfold rejoin_datetime. rewrite !length_app, length_take, length_drop.
  cbn [length]. lia.
Qed.

Lemma length_rejoin_reason (fields : list string) :
  length (rejoin_reason fields) = (length fields `min` 6 + 1)%nat.
Proof.
  unfold rejoin_reason. rewrite !length_app, length_take. cbn [length]. lia.
Qed.

Lemma parse_job_status_mismatch fields sf status :
  length fields <> length sf ->
  _parse_job_status fields sf status
  = Raise (ValueError (ColumnCount (length fields) (length sf) fields)).
Proof.
  intros Hne. unfold Lsf._parse_job_status.
  by destruct (Nat.eqb_spec (length fields) (length sf)).
Qed.

(** A data line of the Running section is rejected for its column count
    unless it has exactly nine whitespace-separated tokens, one of the
    Eligible section unless it has exactly ten, one of the Blocked section
    when it has fewer than six. *)
Theorem scan_line_token_count d line :
  is_data_line line = true ->
  (length (split_ws line) <> 9%nat ->
   scan_line (in_section Running d) line
   = Raise (ValueError
              (ColumnCount (length (rejoin_datetime (split_ws line))) 8
                 (rejoin_datetime (split_ws line)))))
  /\ (length (split_ws line) <> 10%nat ->
      scan_line (in_section Eligible d) line
      = Raise (ValueError
                 (ColumnCount (length (rejoin_datetime (split_ws line))) 9
                    (rejoin_datetime (split_ws line)))))
  /\ ((length (split_ws line) < 6)%nat ->
      scan_line (in_section Blocked d) line
      = Raise (ValueError
                 (ColumnCount (length (rejoin_reason (split_ws line))) 7
                    (rejoin_reason (split_ws line))))).
Proof.
  intros Hdata. split; [|split]; intros Hn;
    rewrite (scan_line_entry _ _ _ _ Hdata); unfold Lsf.parse_entry;
    rewrite parse_job_status_mismatch; try reflexivity.
  - rewrite length_rejoin_datetime. simpl. lia.
  - rewrite length_rejoin_datetime. simpl. lia.
  - rewrite length_rejoin_reason. simpl. lia.
Qed.

Lemma length_0_empty s : String.length s = 0%nat -> s = EmptyString.
Proof. by destruct s. Qed.

(** Output that is empty or blank is not read as "no jobs": it raises
    [NotImplementedError]. *)
Theorem parse_status_output_blank raw :
  is_blank raw = true ->
  _parse_status_output raw = Raise NotImplementedError.
Proof.
  unfold is_blank. intros H. apply Nat.eqb_eq, length_0_empty in H.
  unfold Lsf._parse_status_output. by rewrite H.
Qed.

Lemma parse_entry_id sec line js :
  parse_entry sec line = Ok js ->
  fields_of js !! "scheduler_id" = Some (PInt (scheduler_id js)).
Proof.
  intros H. unfold Lsf.parse_entry in H.
  assert (forall fields sf status,
            _parse_job_status fields sf status = Ok js ->
            fields_of js !! "scheduler_id" = Some (PInt (scheduler_id js)))
    as Hgen.
  { intros fields sf status. unfold Lsf._parse_job_status.
    destruct (negb _); [discriminate|].
    destruct (fill_status _ _ _ _) as [status'|]; simpl; [|discriminate].
    unfold SchedulerJobStatus.
    destruct (status' !! "scheduler_id") as [[| | |]|] eqn:E; try discriminate.
    by intros [= <-]. }
  destruct sec; by apply Hgen in H.
Qed.

Lemma scan_line_no_section st line :
  no_section st -> is_data_line line = true ->
  scan_line st line = Raise NotImplementedError.
Proof.
  intros Hno Hdata.
  pose proof (scan_lines_before_section parse_datetime [] line [] st Hno
                ltac:(constructor) Hdata) as E.
  simpl in E. by destruct (scan_line st line).
Qed.

Lemma scan_line_step st line st' :
  shaped_scan st -> good_records (status_dict st) -> scan_line st line = Ok st' ->
  shaped_scan st' /\ good_records (status_dict st')
  /\ (size (status_dict st')
      <= size (status_dict st) + (if is_data_line line then 1 else 0))%nat.
Proof.
  intros Hshape Hgood Hstep.
  destruct (separator_of line) as [sec|] eqn:Hsep.
  { rewrite (scan_line_separator _ _ _ _ Hsep) in Hstep.
    injection Hstep as <-. rewrite status_dict_in_section.
    split; [right; exists sec; by rewrite status_dict_in_section|].
    split; [done|lia]. }
  destruct (startswith line "----") eqn:Hdash.
  { rewrite scan_line_unrecognized in Hstep; [discriminate|].
    unfold unrecognized, recognized. by rewrite Hdash, Hsep. }
  destruct (startswith line "JobID") eqn:Hhdr.
  { rewrite scan_line_header in Hstep
      by (unfold is_header; by rewrite Hdash, Hhdr).
    injection Hstep as <-. split; [done|]. split; [done|lia]. }
  assert (Hdata : is_data_line line = true)
    by (unfold is_data_line; by rewrite Hdash, Hhdr).
  rewrite Hdata. destruct Hshape as [Hno|[sec Hst]].
  { by rewrite (scan_line_no_section _ _ Hno Hdata) in Hstep. }
  rewrite Hst, (scan_line_entry _ _ _ _ Hdata) in Hstep.
  destruct (parse_entry sec line) as [js|] eqn:Hjs; simpl in Hstep;
    [|discriminate].
  injection Hstep as <-. rewrite status_dict_in_section.
  split; [right; exists sec; by rewrite status_dict_in_section|]. split.
  - intros i js' Hi. apply lookup_insert_Some in Hi as [[<- <-]|[_ Hi]];
      [|by apply Hgood].
    split; [done|]. split; [by apply (parse_entry_id sec line)|].
    exists sec. by apply (parse_entry_state parse_datetime sec line).
  - rewrite map_size_insert. destruct (status_dict st !! _); simpl; lia.
Qed.

Lemma scan_lines_steps job_lines : forall st st',
  shaped_scan st -> good_records (status_dict st) -> scan_lines st job_lines = Ok st' ->
  good_records (status_dict st')
  /\ (size (status_dict st')
      <= size (status_dict st) + length (data_lines job_lines))%nat.
Proof.
  induction job_lines as [|line rest IH]; intros st st' Hshape Hgood; simpl.
  - intros [= <-]. split; [done|]. unfold data_lines. simpl. lia.
  - destruct (scan_line st line) as [st1|] eqn:H1; simpl; [|discriminate].
    intros Hrest.
    destruct (scan_line_step _ _ _ Hshape Hgood H1) as (Hs1 & Hg1 & Hn1).
    destruct (IH _ _ Hs1 Hg1 Hrest) as (Hg & Hn). split; [done|].
    unfold data_lines in *. rewrite filter_cons.
    destruct (decide (is_data_line line = true)) as [E|E].
    + rewrite E in Hn1. simpl. lia.
    + apply not_true_is_false in E. rewrite E in Hn1. lia.
Qed.

(** Whatever text parses, every record of the result is stored under its
    own scheduler id, is in one of the states [running], [queued] and
    [submit_failed], and there are no more records than data lines. *)
Theorem parse_status_output_records raw d :
  _parse_status_output raw = Ok d ->
  (forall i js, d !! i = Some js ->
     scheduler_id js = i
     /\ fields_of js !! "scheduler_id" = Some (PInt i)
     /\ exists sec,
          fields_of js !! "state" = Some (PStr (canonical_state sec)))
  /\ (size d <= length (data_lines (split_on "010" (strip raw))))%nat.
Proof.
  rewrite parse_status_output_eq. intros H.
  apply bind_ok in H as (st & Hscan & [= <-]).
  apply (scan_lines_steps _ scan0 st);
    [left; by repeat split | | exact Hscan].
  intros i js Hi. change (status_dict scan0) with (∅ : gmap Z job_status) in Hi.
  by rewrite lookup_empty in Hi.
Qed.

End StatusMore.

Lemma scan_line_token_count_witness :
  scan_line strptime_fixed (in_section Running ∅) "697013 parton"
  = Raise (ValueError (ColumnCount 3 8 ["697013"; "parton"; ""])).
Proof.
  destruct (scan_line_token_count strptime_fixed ∅ "697013 parton" eq_refl)
    as (H & _).
  apply H. vm_compute. discriminate.
Defined.

Lemma parse_status_output_blank_witness :
  _parse_status_output strptime_fixed newline = Raise NotImplementedError.
Proof. apply parse_status_output_blank. reflexivity. Defined.

Lemma parse_status_output_records_witness :
  exists d,
    _parse_status_output strptime_fixed sample_status_output = Ok d
    /\ (forall i js, d !! i = Some js ->
          scheduler_id js = i
          /\ fields_of js !! "scheduler_id" = Some (PInt i)
          /\ exists sec,
               fields_of js !! "state" = Some (PStr (canonical_state sec)))
    /\ (size d
        <= length (data_lines (split_on "010" (strip sample_status_output))))%nat.
Proof.
  destruct (_parse_status_output strptime_fixed sample_status_output)
    as [d|] eqn:E; [|by vm_compute in E].
  exists d. split; [reflexivity|].
  by apply (parse_status_output_records strptime_fixed sample_status_output).
Defined.


(** ** Backfill windows *)

Lemma append_assoc a b c : (a +:+ b) +:+ c = a +:+ b +:+ c.
Proof.
  induction a as [|x a IH]; [done|].
  change (String x ((a +:+ b) +:+ c) = String x (a +:+ b +:+ c)).
  by rewrite IH.
Qed.

Lemma find_at_eq sub s i :
  find_at sub s i
  = if String.prefix sub s then Some i
    else match s with
         | String _ r => find_at sub r (S i)
         | EmptyString => None
         end.
Proof. by destruct s. Qed.

(** Where a word occurs, the leftmost search finds it there or earlier. *)
Lemma find_at_occurs w a b : forall k,
  exists i, find_at w (a +:+ w +:+ b) k = Some (k + i)%nat
            /\ (i <= String.length a)%nat.
Proof.
  induction a as [|c a IH]; intros k.
  - exists 0%nat. rewrite find_at_eq.
    change (EmptyString +:+ w +:+ b) with (w +:+ b).
    rewrite prefix_app. split; [f_equal; lia|simpl; lia].
  - rewrite find_at_eq.
    destruct (String.prefix w (String c a +:+ w +:+ b)).
    + exists 0%nat. split; [f_equal; lia|simpl; lia].
    + change (String c a +:+ w +:+ b) with (String c (a +:+ w +:+ b)).
      destruct (IH (S k)) as (i & -> & Hi).
      exists (S i). split; [f_equal; lia|simpl; lia].
Qed.

Lemma drop_app_le n a b :
  (n <= String.length a)%nat -> drop n (a +:+ b) = drop n a +:+ b.
Proof.
  revert a. induction n as [|n IH]; intros a Hn; [done|].
  destruct a as [|c a]; [simpl in Hn; lia|].
  simpl in *. apply IH. lia.
Qed.

Lemma occur_in_order_app x ws b :
  occur_in_order ws b -> occur_in_order ws (x +:+ b).
Proof.
  destruct 1 as [s|w ws a b Hb]; [constructor|].
  rewrite <- append_assoc. by constructor.
Qed.

(** The search of [in_order] finds the words whenever they occur one after
    the other. *)
Lemma in_order_complete ws : forall s,
  occur_in_order ws s -> in_order ws s = true.
Proof.
  induction ws as [|w ws IH]; intros s Hs; [done|].
  inversion Hs as [|w' ws' a b Hb]; subst. cbn [in_order].
  destruct (find_at_occurs w a b 0) as (i & -> & Hi). simpl.
  apply IH. rewrite <- append_assoc.
  rewrite drop_app_le by (rewrite length_append; lia).
  by apply occur_in_order_app.
Qed.

Lemma free_of_app c a b :
  free_of c (a +:+ b) = free_of c a && free_of c b.
Proof.
  induction a as [|x a IH]; simpl; [done|]. by rewrite IH, andb_assoc.
Qed.

Lemma free_of_digits c s :
  is_digit c = false -> only_digits s = true -> free_of c s = true.
Proof.
  intros Hc. induction s as [|x s IH]; simpl; [done|]. intros H.
  apply andb_true_iff in H as [Hx Hs]. rewrite (IH Hs), andb_true_r.
  apply negb_true_iff. by apply digit_neq.
Qed.

Lemma split_on_free sep s : free_of sep s = true -> split_on sep s = [s].
Proof.
  induction s as [|c s IH]; simpl; [done|]. intros H.
  apply andb_true_iff in H as [Hc Hs]. apply negb_true_iff in Hc.
  by rewrite Hc, (IH Hs).
Qed.

Lemma split_on_free_app sep a rest :
  free_of sep a = true ->
  split_on sep (a +:+ String sep rest) = a :: split_on sep rest.
Proof.
  induction a as [|c a IH]; simpl.
  - intros _. by rewrite Ascii.eqb_refl.
  - intros H. apply andb_true_iff in H as [Hc Ha].
    apply negb_true_iff in Hc. by rewrite Hc, (IH Ha).
Qed.

(** A word followed by a whitespace character is the first token. *)
Lemma split_ws_cons_nonspace x y r :
  is_space x = false -> is_space y = false ->
  split_ws (String x (String y r))
  = match split_ws (String y r) with
    | w :: ws => String x w :: ws
    | [] => [String x EmptyString]
    end.
Proof. intros Hx Hy. simpl. by rewrite Hx, Hy. Qed.

Lemma split_ws_word_space w c rest :
  word w -> is_space c = true ->
  split_ws (w +:+ String c rest) = w :: split_ws rest.
Proof.
  intros [Hne Hw] Hc. induction w as [|x w IH]; [done|].
  simpl in Hw. apply andb_true_iff in Hw as [Hx Hw].
  apply negb_true_iff in Hx. destruct w as [|y w].
  - change (split_ws (String x (String c rest))
            = String x EmptyString :: split_ws rest).
    cbn [split_ws]. by rewrite Hx, Hc.
  - assert (is_space y = false) as Hy.
    { simpl in Hw. apply andb_true_iff in Hw as [Hy _].
      by apply negb_true_iff in Hy. }
    change (split_ws (String x (String y (w +:+ String c rest)))
            = String x (String y w) :: split_ws rest).
    rewrite split_ws_cons_nonspace by done.
    change (String y (w +:+ String c rest))
      with (String y w +:+ String c rest).
    by rewrite IH.
Qed.

Lemma bslots_line_tokens N H M S :
  numeral N -> numeral H -> numeral M -> numeral S ->
  split_ws (bslots_line N H M S)
  = [N; H; "hours"; M; "minutes"; S; "seconds"].
Proof.
  intros HN HH HM HS. unfold bslots_line.
  change (N +:+ " " +:+ H +:+ " hours " +:+ M +:+ " minutes " +:+ S
          +:+ " seconds")
    with (N +:+ String " " (H +:+ String " " ("hours" +:+ String " "
            (M +:+ String " " ("minutes" +:+ String " "
               (S +:+ String " " "seconds")))))).
  assert (Hlit : forall s, no_space s = true -> s <> EmptyString -> word s)
    by (by split).
  rewrite (split_ws_word_space N) by (by try apply numeral_word).
  rewrite (split_ws_word_space H) by (by try apply numeral_word).
  rewrite (split_ws_word_space "hours") by (by try apply Hlit).
  rewrite (split_ws_word_space M) by (by try apply numeral_word).
  rewrite (split_ws_word_space "minutes") by (by try apply Hlit).
  rewrite (split_ws_word_space S) by (by try apply numeral_word).
  reflexivity.
Qed.

Lemma bslots_line_found N H M S :
  numeral N -> numeral H -> numeral M -> numeral S ->
  re_found ["hours"; "minutes"; "seconds"] (bslots_line N H M S) = true.
Proof.
  intros [_ HN] [_ HH] [_ HM] [_ HS]. unfold re_found.
  rewrite split_on_free.
  - cbn [existsb]. rewrite orb_false_r. apply in_order_complete.
    unfold bslots_line.
    replace (N +:+ " " +:+ H +:+ " hours " +:+ M +:+ " minutes " +:+ S
             +:+ " seconds")
      with ((N +:+ " " +:+ H +:+ " ") +:+ "hours"
            +:+ ((" " +:+ M +:+ " ") +:+ "minutes"
                 +:+ ((" " +:+ S +:+ " ") +:+ "seconds" +:+ EmptyString))).
    { repeat constructor. }
    rewrite !append_assoc. reflexivity.
  - unfold bslots_line. rewrite !free_of_app.
    rewrite (free_of_digits _ N), (free_of_digits _ H), (free_of_digits _ M),
      (free_of_digits _ S) by done.
    reflexivity.
Qed.

(** A window printed as hours, minutes and seconds, the node count, the
    hours and the minutes of at most 4300 digits each, is read as the hours
    and minutes in minutes: the seconds are dropped, not rounded. *)
Theorem parse_bslots_line_drops_seconds N H M S :
  numeral N -> numeral H -> numeral M -> numeral S ->
  (String.length N <= 4300)%nat -> (String.length H <= 4300)%nat ->
  (String.length M <= 4300)%nat ->
  _parse_bslots_line (bslots_line N H M S)
  = Ok (mk_window (dec N) (dec H * 60 + dec M)).
Proof.
  intros HN HH HM HS LN LH LM. unfold _parse_bslots_line.
  rewrite bslots_line_tokens, bslots_line_found by done.
  cbn [item lookup list_lookup bind].
  by rewrite !int_numeral.
Qed.

Lemma parse_bslots_line_drops_seconds_witness :
  _parse_bslots_line "4 23 hours 50 minutes 59 seconds"
  = Ok (mk_window 4 (23 * 60 + 50)).
Proof.
  assert (Hn : forall s, s <> EmptyString -> only_digits s = true ->
                         numeral s) by (by split).
  apply (parse_bslots_line_drops_seconds "4" "23" "50" "59");
    (by apply Hn) || (simpl; lia).
Defined.

(** *** The whole output *)

Lemma parse_node_lines_length node_lines windows :
  parse_node_lines node_lines = Ok windows ->
  length windows
  = length (filter (fun l => is_blank l = false) node_lines).
Proof.
  revert windows. induction node_lines as [|line rest IH]; intros windows.
  - by intros [= <-].
  - cbn [parse_node_lines]. rewrite filter_cons. fold (is_blank line).
    destruct (is_blank line) eqn:Hb.
    + intros H. rewrite (IH _ H). by destruct (decide (true = false)).
    + destruct (_parse_bslots_line line) as [window|]; simpl; [|discriminate].
      destruct (parse_node_lines rest) as [ws|]; simpl; [|discriminate].
      intros [= <-]. destruct (decide (false = false)); [|done].
      simpl. by rewrite (IH ws).
Qed.

(** The first line of the output is a header and is never read: an output
    without a newline, the empty one among them, gives no window and no
    error; otherwise there is one window for each line after the first that
    is not blank, all under the queue [batch]. *)
Theorem parse_backfill_output_shape stdout :
  (free_of "010" stdout = true ->
   _parse_backfill_output stdout = Ok {[ "batch" := [] ]})
  /\ (forall header rest,
        free_of "010" header = true ->
        stdout = header +:+ newline +:+ rest ->
        _parse_backfill_output stdout
        = (let* windows := parse_node_lines (split_on "010" rest) in
           Ok {[ "batch" := windows ]}))
  /\ (forall d,
        _parse_backfill_output stdout = Ok d ->
        exists windows,
          d = {[ "batch" := windows ]}
          /\ length windows
             = length (filter (fun l => is_blank l = false)
                         (tail (split_on "010" stdout)))).
Proof.
  split; [|split].
  - intros H. unfold _parse_backfill_output. by rewrite split_on_free.
  - intros header rest Hh ->. unfold _parse_backfill_output.
    change (newline +:+ rest) with (String "010" rest).
    by rewrite split_on_free_app.
  - intros d. unfold _parse_backfill_output.
    destruct (parse_node_lines _) as [windows|] eqn:Hw; simpl; [|discriminate].
    intros [= <-]. exists windows. split; [done|].
    by apply parse_node_lines_length.
Qed.

End LsfMore.

(** * Further properties of the processing service *)

Module ProcessingMore.
Import Processing ProcessingTheory.

(** ** [transition] *)

(** A job whose state has no handler, or no state at all, makes
    [transition] raise outside its [try]: nothing is written, the job is
    left as it was, and the exception, a [KeyError] or an
    [AssertionError], goes on to the caller. *)
Theorem transition_without_handler app w :
  (forall st, state (job w) = Some st -> worker_state st = false) ->
  exists e,
    transition app w = Raises e w
    /\ is_Exception e = true
    /\ (cls e = KeyError \/ cls e = AssertionError).
Proof.
  intros H. unfold transition. destruct (state (job w)) as [st|] eqn:Hst.
  - specialize (H st eq_refl).
    assert (transition_func_for app st = None) as ->
      by (by destruct st).
    eexists. split; [reflexivity|]. split; [done|by left].
  - eexists. split; [reflexivity|]. split; [done|by right].
Qed.

Lemma transition_without_handler_witness :
  exists e,
    transition (sample_app PY_FUNC (returning "preprocess"))
      (sample_world failed)
    = Raises e (sample_world failed)
    /\ is_Exception e = true
    /\ (cls e = KeyError \/ cls e = AssertionError).
Proof.
  apply transition_without_handler. intros st [= <-]. reflexivity.
Defined.

(** ** [read_pyapp_result] *)

Lemma read_pyapp_result_cases app w :
  read_pyapp_result app w = Returns w
  \/ (exists u, read_pyapp_result app w
                = Returns (set_job w (set_update_model (job w) u)))
  \/ (exists e u, read_pyapp_result app w
                  = Raises e (set_job w (set_update_model (job w) u))).
Proof.
  unfold read_pyapp_result.
  destruct (is_PY_FUNC _); simpl; [|by left].
  destruct (result_bearing _); simpl; [|by left].
  destruct (node_at _ _) as [[|lines]|]; [by left| |by left].
  destruct (scan_markers lines) as [[line|line]|].
  - destruct (payload_of ret_marker line); right; [left|right]; eauto.
  - destruct (payload_of exc_marker line); right; [left|right]; eauto.
  - right. left. eauto.
Qed.




(** ** [job_context] *)

(** Entering the context takes nothing away: every directory and every
    file that was there is still there with what it held, the log file
    among them, which is opened for appending. *)
Theorem job_context_entry_keeps_files workdir stdout_filename w w_in :
  entered workdir stdout_filename w = Some w_in ->
  (forall p n, node_at (fs (proc w)) p = Some n ->
               node_at (fs (proc w_in)) p = Some n)
  /\ job w_in = job w
  /\ written (proc w_in) = written (proc w).
Proof.
  intros Hin. apply entered_inv in Hin as (w1 & w2 & H1 & H2 & ->).
  assert (Hw1 : written (proc w1) = written (proc w)).
  { clear H2. unfold chdir_or_make, os_chdir, mkdir_parents in H1.
    repeat case_match; simplify_eq; done. }
  assert (Hw2 : written (proc w2) = written (proc w1)).
  { clear H1. unfold open_append in H2.
    repeat case_match; simplify_eq; done. }
  apply chdir_or_make_returns in H1 as (_ & _ & (Hj1 & _ & _ & Hg1 & _) & _).
  apply open_append_frame in H2 as (_ & Hj2 & _ & _ & Hg2 & _). simpl in *.
  split; [|split; congruence].
  intros p n Hp. by apply Hg2, Hg1.
Qed.

Lemma job_context_entry_keeps_files_witness :
  exists w_in,
    entered ["srv"] "job.out" (world_with_output run_done ["kept"])
    = Some w_in
    /\ node_at (fs (proc w_in)) ["srv"; "job.out"] = Some (File ["kept"]).
Proof.
  eexists. split; [vm_compute; reflexivity|].
  eapply (job_context_entry_keeps_files ["srv"] "job.out"
            (world_with_output run_done ["kept"])).
  - vm_compute. reflexivity.
  - reflexivity.
Defined.

(** When the context cannot be entered its body is not run: the result is
    the same whatever the body is. *)
Theorem job_context_not_entered workdir stdout_filename w body1 body2 :
  entered workdir stdout_filename w = None ->
  job_context workdir stdout_filename body1 w
  = job_context workdir stdout_filename body2 w.
Proof.
  unfold entered, job_context.
  destruct (chdir_or_make workdir w) as [w1|]; [|done].
  by destruct (open_append _ w1).
Qed.

Lemma job_context_not_entered_witness :
  job_context ["data"; "job7"] "balsam.log" (rmdir_body ["srv"])
    world_with_file_in_the_way
  = job_context ["data"; "job7"] "balsam.log" Returns
      world_with_file_in_the_way.
Proof. apply job_context_not_entered. reflexivity. Defined.

(** ** One turn of the loop *)

(** When the context of a job is entered and the [try] block of
    [transition], the handler or the write before it, raises an instance
    of [Exception], the f-string of the handler and [str(exc)] return, and the directory the worker came from can still be entered,
    the turn ends with an update being put: it carries the job's id, the
    state [failed] and the text of the exception; the working directory and
    the streams of the worker are what they were. *)
Theorem run_worker_turn_failure app data_path w st transition_func w_in
    exc w2 handler_text exc_text :
  state (job w) = Some st ->
  transition_func_for app st = Some transition_func ->
  entered (data_path ++ workdir (job w))%list "balsam.log" w = Some w_in ->
  try_block transition_func w_in = Raises exc w2 ->
  is_Exception exc = true ->
  repr transition_func = str_returns handler_text ->
  py_str exc = str_returns exc_text ->
  can_chdir w2 (cwd (proc w)) ->
  exists w' update,
    run_worker_turn app data_path w = (Returns w', Some update)
    /\ put_id update = id (job w2)
    /\ put_state update = Some failed
    /\ put_state_data update !! "message"
       = Some ("An exception occured in " +:+ handler_text)
    /\ put_state_data update !! "exception" = Some exc_text
    /\ cwd (proc w') = cwd (proc w)
    /\ sys_stdout (proc w') = sys_stdout (proc w)
    /\ sys_stderr (proc w') = sys_stderr (proc w).
Proof.
  intros Hst Hf Hin Hcall Hexc Hrepr Hstr Hdir.
  unfold run_worker_turn, process_job.
  rewrite (job_context_entered _ _ _ _ _ Hin).
  assert (Hjob : job w_in = job w).
  { apply entered_inv in Hin as (w1 & w2' & H1 & H2 & ->).
    apply chdir_or_make_returns in H1 as (_ & _ & (Hj1 & _) & _).
    apply open_append_frame in H2 as (_ & Hj2 & _). simpl in *. congruence. }
  unfold transition. rewrite Hjob, Hst, Hf, Hcall, Hexc, Hrepr, Hstr.
  set (w3 := set_job w2 _).
  assert (read_pyapp_result app w3 = Returns w3) as ->.
  { unfold read_pyapp_result. by destruct (is_PY_FUNC _). }
  destruct (restore_ok (cwd (proc w)) (sys_stdout (proc w))
              (sys_stderr (proc w)) (Returns w3) Hdir)
    as (w5 & -> & Hc & Ho & He & Hj & _).
  change (job w5 = job w3) in Hj. rewrite Hj. subst w3. simpl.
  exists w5. eexists. split; [reflexivity|].
  unfold update_data, failure_data.
  destruct (_update_model (job w2)); simpl;
    repeat split; try done;
    by rewrite ?lookup_insert_eq, ?lookup_insert_ne, ?lookup_singleton_eq.
Qed.

Lemma run_worker_turn_failure_witness :
  exists w' update,
    run_worker_turn
      (sample_app PY_FUNC
         (raising "preprocess" (ExceptionSubclass "RuntimeError") "boom"))
      [] (sample_world staged_in) = (Returns w', Some update)
    /\ put_id update = 7
    /\ put_state update = Some failed
    /\ put_state_data update !! "exception" = Some "boom"
    /\ cwd (proc w') = ["srv"]
    /\ sys_stdout (proc w') = Console "stdout"
    /\ sys_stderr (proc w') = Console "stderr".
Proof.
  edestruct (run_worker_turn_failure
               (sample_app PY_FUNC
                  (raising "preprocess" (ExceptionSubclass "RuntimeError")
                     "boom"))
               [] (sample_world staged_in) staged_in)
    as (w' & update & Hturn & Hid & Hstate & _ & Hexc & Hcwd & Hout & Herr).
  - reflexivity.
  - reflexivity.
  - vm_compute. reflexivity.
  - reflexivity.
  - reflexivity.
  - reflexivity.
  - reflexivity.
  - split; vm_compute; reflexivity.
  - exists w', update.
    split; [exact Hturn|]. split; [exact Hid|]. split; [exact Hstate|].
    split; [exact Hexc|]. split; [exact Hcwd|]. split; [exact Hout|].
    exact Herr.
Defined.

(** When the context of a job is entered, the [try] block of
    [transition] raises something that is not an instance of [Exception],
    the [SystemExit] or [KeyboardInterrupt] of a handler, and the directory the worker came from can still
    be entered, the turn ends with that exception and nothing is put for
    the job; the working directory and the streams are put back. *)
Theorem run_worker_turn_base_exception app data_path w st transition_func
    w_in exc w2 :
  state (job w) = Some st ->
  transition_func_for app st = Some transition_func ->
  entered (data_path ++ workdir (job w))%list "balsam.log" w = Some w_in ->
  try_block transition_func w_in = Raises exc w2 ->
  is_Exception exc = false ->
  can_chdir w2 (cwd (proc w)) ->
  exists w',
    run_worker_turn app data_path w = (Raises exc w', None)
    /\ job w' = job w2
    /\ cwd (proc w') = cwd (proc w)
    /\ sys_stdout (proc w') = sys_stdout (proc w)
    /\ sys_stderr (proc w') = sys_stderr (proc w).
Proof.
  intros Hst Hf Hin Hcall Hexc Hdir.
  unfold run_worker_turn, process_job.
  rewrite (job_context_entered _ _ _ _ _ Hin).
  assert (Hjob : job w_in = job w).
  { apply entered_inv in Hin as (w1 & w2' & H1 & H2 & ->).
    apply chdir_or_make_returns in H1 as (_ & _ & (Hj1 & _) & _).
    apply open_append_frame in H2 as (_ & Hj2 & _). simpl in *. congruence. }
  unfold transition. rewrite Hjob, Hst, Hf, Hcall, Hexc.
  destruct (restore_ok (cwd (proc w)) (sys_stdout (proc w))
              (sys_stderr (proc w)) (Raises exc w2) Hdir)
    as (w5 & -> & Hc & Ho & He & Hj & _).
  exists w5. by repeat split.
Qed.

Lemma run_worker_turn_base_exception_witness :
  exists w',
    run_worker_turn
      (sample_app PY_FUNC
         (raising "preprocess" (BaseExceptionOnly "SystemExit") "1"))
      [] (sample_world staged_in)
    = (Raises (mk_exc (BaseExceptionOnly "SystemExit") "1") w', None)
    /\ state (job w') = Some staged_in
    /\ cwd (proc w') = ["srv"].
Proof.
  edestruct (run_worker_turn_base_exception
               (sample_app PY_FUNC
         (raising "preprocess" (BaseExceptionOnly "SystemExit") "1"))
               [] (sample_world staged_in) staged_in)
    as (w' & Hturn & Hjob & Hcwd & _).
  - reflexivity.
  - reflexivity.
  - vm_compute. reflexivity.
  - reflexivity.
  - reflexivity.
  - split; vm_compute; reflexivity.
  - exists w'. split; [exact Hturn|]. split; [|exact Hcwd].
    rewrite Hjob. reflexivity.
Defined.

End ProcessingMore.

Module ShutdownMore.
Import Shutdown ShutdownTheory.

Lemma run_app t1 : forall s t2,
  run s (t1 ++ t2)%list = s1 ← run s t1; run s1 t2.
Proof.
  induction t1 as [|e t1 IH]; intros s t2; simpl; [done|].
  destruct (step s e) as [s1|]; simpl; [apply IH|done].
Qed.

Lemma jobs_in_flight_insert ws : forall i w w',
  ws !! i = Some w ->
  (length (jobs_in_flight (<[i := w']> ws)) + length (in_flight_of w)
   = length (jobs_in_flight ws) + length (in_flight_of w'))%nat.
Proof.
  unfold jobs_in_flight.
  induction ws as [|x ws IH]; intros [|i] w w' Hw; try done; simpl in *.
  - injection Hw as ->. rewrite !length_app. lia.
  - rewrite !length_app. specialize (IH i w w' Hw). lia.
Qed.

(** One step keeps the balance of jobs taken and jobs accounted for. *)
Lemma step_balance s e s' :
  step s e = Some s' ->
  (length (puts s') + length (jobs_in_flight (workers s'))
   + (if is_crash e then 1 else 0)
   = length (puts s) + length (jobs_in_flight (workers s))
     + (if is_get e then 1 else 0))%nat.
Proof.
  assert (Hins : forall i w w' pc',
            workers s !! i = Some w -> pc w' = pc' ->
            (length (jobs_in_flight (<[i := w']> (workers s)))
             + length (match pc w with in_flight j => [j] | _ => [] end)
             = length (jobs_in_flight (workers s))
               + length (match pc' with in_flight j => [j] | _ => [] end))%nat).
  { intros i w w' pc' Hw <-. apply (jobs_in_flight_insert _ _ _ _ Hw). }
  destruct e as [i|i|i|i job_id|i|i| | | | |]; simpl.
  - destruct (workers s !! i) as [w|] eqn:Hw; simpl; [|discriminate].
    intros [= <-]. simpl.
    pose proof (Hins i w (mk_worker (pc w) true) (pc w) Hw eq_refl). lia.
  - destruct (workers s !! i) as [w|] eqn:Hw; simpl; [|discriminate].
    destruct (pc w) eqn:Hpc; try discriminate. intros [= <-]. simpl.
    pose proof (Hins i w (mk_worker (if sig_set w then exited else waiting)
                            (sig_set w)) _ Hw eq_refl) as E.
    rewrite Hpc in E. destruct (sig_set w); simpl in E; lia.
  - destruct (workers s !! i) as [w|] eqn:Hw; simpl; [|discriminate].
    destruct (pc w) eqn:Hpc; try discriminate. intros [= <-]. simpl.
    pose proof (Hins i w (mk_worker at_loop (sig_set w)) _ Hw eq_refl) as E.
    rewrite Hpc in E. simpl in E. lia.
  - destruct (workers s !! i) as [w|] eqn:Hw; simpl; [|discriminate].
    destruct (pc w) eqn:Hpc; try discriminate. intros [= <-]. simpl.
    pose proof (Hins i w (mk_worker (in_flight job_id) (sig_set w)) _ Hw
                  eq_refl) as E.
    rewrite Hpc in E. simpl in E. lia.
  - destruct (workers s !! i) as [w|] eqn:Hw; simpl; [|discriminate].
    destruct (pc w) eqn:Hpc; try discriminate. intros [= <-]. simpl.
    pose proof (Hins i w (mk_worker at_loop (sig_set w)) _ Hw eq_refl) as E.
    rewrite Hpc in E. simpl in E. rewrite length_app. simpl. lia.
  - destruct (workers s !! i) as [w|] eqn:Hw; simpl; [|discriminate].
    destruct (pc w) eqn:Hpc; try discriminate. intros [= <-]. simpl.
    pose proof (Hins i w (mk_worker exited (sig_set w)) _ Hw eq_refl) as E.
    rewrite Hpc in E. simpl in E. lia.
  - destruct (join_at s); try discriminate. intros [= <-]. simpl. lia.
  - destruct (join_at s) as [|i| | |]; try discriminate.
    destruct (workers s !! i) as [w|]; simpl; [|discriminate].
    destruct (is_exited w); [|discriminate]. intros [= <-]. simpl. lia.
  - destruct (join_at s) as [|i| | |]; try discriminate.
    destruct (length (workers s) <=? i)%nat; [|discriminate].
    intros [= <-]. simpl. lia.
  - destruct (join_at s); try discriminate. intros [= <-]. simpl. lia.
  - destruct (join_at s); try discriminate. intros [= <-]. simpl. lia.
Qed.

(** Every job a worker takes from the source is accounted for: its update
    was put, once, or its worker went down with it, or the worker still
    holds it. Nothing is put that was not taken. *)
Theorem dequeued_jobs_balance s0 trace s :
  run s0 trace = Some s ->
  (length (puts s) + length (jobs_in_flight (workers s))
   + length (filter (fun e => is_crash e = true) trace)
   = length (puts s0) + length (jobs_in_flight (workers s0))
     + length (filter (fun e => is_get e = true) trace))%nat.
Proof.
  revert s0. induction trace as [|e trace IH]; intros s0; simpl.
  - by intros [= <-].
  - destruct (step s0 e) as [s1|] eqn:Hstep; simpl; [|discriminate].
    intros Hrun. specialize (IH _ Hrun). apply step_balance in Hstep.
    rewrite !filter_cons.
    destruct (is_crash e), (is_get e); simpl in *;
      repeat case_decide; try done; simpl; lia.
Qed.

Lemma dequeued_jobs_balance_witness :
  exists s,
    run sample_service sample_shutdown = Some s
    /\ (length (puts s) + length (jobs_in_flight (workers s)) + 0
        = 0 + 1 + 0)%nat.
Proof.
  eexists. split; [vm_compute; reflexivity|].
  apply (dequeued_jobs_balance sample_service sample_shutdown).
  vm_compute. reflexivity.
Defined.

(** *** [join] without [terminate] *)

Lemma step_spares_worker s e s' i w :
  step s e = Some s' -> ends_worker i e = false ->
  workers s !! i = Some w -> sig_set w = false -> is_exited w = false ->
  exists w', workers s' !! i = Some w' /\ sig_set w' = false
             /\ is_exited w' = false.
Proof.
  intros Hstep He Hw Hsig Hex.
  assert (Hset : forall k x y,
            workers s !! k = Some y ->
            (k = i -> sig_set x = false /\ is_exited x = false) ->
            exists w', <[k := x]> (workers s) !! i = Some w'
                       /\ sig_set w' = false /\ is_exited w' = false).
  { intros k x y Hk Hx. destruct (decide (k = i)) as [->|Hne].
    - exists x. rewrite list_lookup_insert_eq by (by eapply lookup_lt_Some).
      destruct (Hx eq_refl). done.
    - exists w. by rewrite list_lookup_insert_ne. }
  assert (Hkeep : forall k x y,
            workers s !! k = Some y ->
            (k = i -> y = w -> sig_set x = false /\ is_exited x = false) ->
            exists w', workers (set_worker s k x) !! i = Some w'
                       /\ sig_set w' = false /\ is_exited w' = false).
  { intros k x y Hk Hx. apply (Hset k x y Hk). intros ->.
    apply Hx; congruence. }
  destruct e as [k|k|k|k job_id|k|k| | | | |]; simpl in *.
  - destruct (workers s !! k) as [x|] eqn:Hk; simpl in *; [|discriminate].
    injection Hstep as <-. apply (Hkeep _ _ x); [done|].
    intros ->. by apply Nat.eqb_neq in He.
  - destruct (workers s !! k) as [x|] eqn:Hk; simpl in *; [|discriminate].
    destruct (pc x) eqn:Hpc; try discriminate.
    injection Hstep as <-. apply (Hkeep _ _ x); [done|].
    intros -> ->. by rewrite Hsig.
  - destruct (workers s !! k) as [x|] eqn:Hk; simpl in *; [|discriminate].
    destruct (pc x) eqn:Hpc; try discriminate.
    injection Hstep as <-. apply (Hkeep _ _ x); [done|]. by intros -> ->.
  - destruct (workers s !! k) as [x|] eqn:Hk; simpl in *; [|discriminate].
    destruct (pc x) eqn:Hpc; try discriminate.
    injection Hstep as <-. apply (Hkeep _ _ x); [done|]. by intros -> ->.
  - destruct (workers s !! k) as [x|] eqn:Hk; simpl in *; [|discriminate].
    destruct (pc x) eqn:Hpc; try discriminate.
    injection Hstep as <-. apply (Hset _ _ x); [done|].
    intros ->. by assert (x = w) as -> by congruence.
  - destruct (workers s !! k) as [x|] eqn:Hk; simpl in *; [|discriminate].
    destruct (pc x) eqn:Hpc; try discriminate.
    injection Hstep as <-. apply (Hkeep _ _ x); [done|].
    intros ->. by apply Nat.eqb_neq in He.
  - destruct (join_at s); try discriminate. injection Hstep as <-. eauto.
  - destruct (join_at s) as [|j| | |]; try discriminate.
    destruct (workers s !! j) as [x|]; simpl in *; [|discriminate].
    destruct (is_exited x); [|discriminate]. injection Hstep as <-. eauto.
  - destruct (join_at s) as [|j| | |]; try discriminate.
    destruct (length (workers s) <=? j)%nat; [|discriminate].
    injection Hstep as <-. eauto.
  - destruct (join_at s); try discriminate. injection Hstep as <-. eauto.
  - destruct (join_at s); try discriminate. injection Hstep as <-. eauto.
Qed.

Lemma run_spares_worker trace : forall s s' i w,
  run s trace = Some s' -> forallb (fun e => negb (ends_worker i e)) trace = true ->
  workers s !! i = Some w -> sig_set w = false -> is_exited w = false ->
  exists w', workers s' !! i = Some w' /\ sig_set w' = false
             /\ is_exited w' = false.
Proof.
  induction trace as [|e trace IH]; intros s s' i w; simpl.
  - intros [= <-] _ Hw Hs He. eauto.
  - destruct (step s e) as [s1|] eqn:Hstep; simpl; [|discriminate].
    intros Hrun Hall Hw Hs He. apply andb_true_iff in Hall as [He1 Hall].
    apply negb_true_iff in He1.
    destruct (step_spares_worker _ _ _ _ _ Hstep He1 Hw Hs He)
      as (w1 & Hw1 & Hs1 & Hx1).
    by apply (IH s1 s' i w1).
Qed.

(** [join] alone stops nothing: as long as a worker is neither signalled
    nor brought down by an exception it stays in its loop, and [join] does
    not get past the workers, so the updater is not terminated either. *)
Theorem join_waits_for_signal s0 trace s i w :
  initial s0 -> run s0 trace = Some s ->
  workers s0 !! i = Some w -> sig_set w = false -> is_exited w = false ->
  forallb (fun e => negb (ends_worker i e)) trace = true ->
  past_workers (join_at s) = false
  /\ updater_terminated s = false
  /\ exists w', workers s !! i = Some w' /\ is_exited w' = false.
Proof.
  intros H0 Hrun Hw Hsig Hex Hall.
  destruct (run_spares_worker _ _ _ _ _ Hrun Hall Hw Hsig Hex)
    as (w' & Hw' & _ & Hex').
  pose proof (run_inv trace s0 s (initial_inv _ H0) Hrun) as Hinv.
  pose proof (inv_alive s i w' Hinv Hw' Hex') as Hu.
  split; [|split; [done|by exists w']].
  destruct Hinv as (_ & _ & Hj).
  destruct (join_at s); try done; congruence.
Qed.

Lemma join_waits_for_signal_witness :
  exists s,
    run sample_service sample_join_only = Some s
    /\ past_workers (join_at s) = false
    /\ updater_terminated s = false.
Proof.
  destruct (run sample_service sample_join_only) as [s|] eqn:Hrun;
    [|vm_compute in Hrun; discriminate].
  exists s. split; [reflexivity|].
  destruct (join_waits_for_signal sample_service sample_join_only s 1%nat
              (mk_worker (in_flight 7) false)) as (Hj & Hu & _);
    [by repeat split|exact Hrun|reflexivity..|].
  split; [exact Hj|exact Hu].
Defined.

(** *** [terminate] and then [join] *)

Lemma run_finish_worker s i w :
  workers s !! i = Some w -> updater_terminated s = false ->
  run s (finish_worker i w)
  = Some (mk_service (<[i := mk_worker exited true]> (workers s)) (join_at s)
            false
            (puts s ++ map (fun j => (j, false)) (in_flight_of w))).
Proof.
  intros Hw Hu. pose proof (lookup_lt_Some _ _ _ Hw) as Hlt.
  unfold finish_worker, in_flight_of. destruct s as [ws j u p].
  simpl in *. subst u. rewrite Hw. simpl.
  destruct (pc w) eqn:Hpc; simpl;
    rewrite ?list_lookup_insert_eq by (by rewrite ?length_insert);
    simpl; rewrite ?Hpc; simpl;
    rewrite ?list_lookup_insert_eq by (by rewrite ?length_insert);
    simpl;
    rewrite ?list_lookup_insert_eq by (by rewrite ?length_insert);
    simpl; rewrite ?list_insert_insert_eq, ?app_nil_r; try done;
    unfold set_worker; simpl; by rewrite ?list_insert_insert_eq.
Qed.

Lemma run_finish_workers rest : forall s done,
  workers s = (done ++ rest)%list -> updater_terminated s = false ->
  run s (finish_workers (length done) rest)
  = Some (mk_service
            (done ++ map (fun _ => mk_worker exited true) rest)%list
            (join_at s) false
            (puts s ++ map (fun j => (j, false)) (jobs_in_flight rest))).
Proof.
  induction rest as [|w rest IH]; intros s done Hws Hu.
  - rewrite app_nil_r in Hws. cbn. rewrite !app_nil_r.
    destruct s; simpl in *. by subst.
  - cbn [finish_workers]. rewrite run_app.
    assert (Hw : workers s !! length done = Some w).
    { rewrite Hws. by rewrite list_lookup_middle. }
    rewrite (run_finish_worker s _ w Hw Hu). simpl.
    assert (Hins : <[length done := mk_worker exited true]> (workers s)
                   = ((done ++ [mk_worker exited true]) ++ rest)%list).
    { rewrite Hws, <- app_assoc. simpl.
      by rewrite insert_app_r_alt, Nat.sub_diag by lia. }
    pose proof (IH (mk_service
                      (<[length done := mk_worker exited true]> (workers s))
                      (join_at s) false
                      (puts s ++ map (fun j => (j, false)) (in_flight_of w)))
                  (done ++ [mk_worker exited true])%list Hins eq_refl) as E.
    rewrite length_app in E. simpl in E.
    replace (length done + 1)%nat with (S (length done)) in E by lia.
    rewrite E. simpl. f_equal. f_equal.
    + by rewrite <- app_assoc.
    + unfold jobs_in_flight. simpl. by rewrite map_app, app_assoc.
Qed.

Lemma run_joins k : forall s i,
  join_at s = join_worker i ->
  (forall n, (i <= n < i + k)%nat ->
             exists w, workers s !! n = Some w /\ is_exited w = true) ->
  run s (repeat ev_worker_joined k) = Some (set_join s (join_worker (i + k))).
Proof.
  induction k as [|k IH]; intros s i Hj Hall.
  - simpl. rewrite Nat.add_0_r, <- Hj. by destruct s.
  - destruct (Hall i ltac:(lia)) as (w & Hw & Hex).
    assert (step s ev_worker_joined = Some (set_join s (join_worker (S i))))
      as Hstep.
    { simpl. rewrite Hj, Hw. simpl. by rewrite Hex. }
    cbn [repeat run]. rewrite Hstep.
    change (run (set_join s (join_worker (S i))) (repeat ev_worker_joined k)
            = Some (set_join s (join_worker (i + S k)))).
    rewrite (IH _ (S i)); [|done|].
    + unfold set_join. simpl. do 3 f_equal. lia.
    + intros n Hn. simpl. apply Hall. lia.
Qed.

(** With signals as modelled, a signal setting the flag of its worker and
    nothing else, one schedule of [terminate] followed by [join] runs to
    the end from every state in which [join] has not been called: the one
    in which every worker is signalled, ends the turn of the loop it is in
    with no exception leaving it, and leaves at its next test. At its end
    all workers have exited and the updates of the jobs that were in flight
    have been put, before the updater was terminated. *)
Theorem graceful_shutdown_completes s :
  join_at s = not_joining -> updater_terminated s = false ->
  exists s',
    run s (graceful_shutdown s) = Some s'
    /\ join_at s' = joined
    /\ Forall (fun w => pc w = exited) (workers s')
    /\ puts s'
       = (puts s ++ map (fun j => (j, false)) (jobs_in_flight (workers s)))%list.
Proof.
  intros Hj Hu. unfold graceful_shutdown. rewrite run_app.
  pose proof (run_finish_workers (workers s) s [] eq_refl Hu) as E.
  simpl in E. rewrite E. clear E. cbn [mbind option_bind].
  set (ws := map (fun _ => mk_worker exited true) (workers s)).
  set (ps := (puts s ++ _)%list).
  change (run (mk_service ws (join_at s) false ps)
            (ev_call_join :: ?t))
    with (s1 ← step (mk_service ws (join_at s) false ps) ev_call_join;
          run s1 t).
  assert (step (mk_service ws (join_at s) false ps) ev_call_join
          = Some (mk_service ws (join_worker 0) false ps)) as ->
    by (simpl; by rewrite Hj).
  cbn [mbind option_bind]. rewrite run_app.
  rewrite (run_joins _ _ 0%nat); [|done|].
  - simpl. unfold ws at 1. rewrite length_map, Nat.leb_refl. simpl.
    eexists. split; [reflexivity|]. simpl. split; [done|]. split; [|done].
    apply Forall_map. by apply Forall_true.
  - intros n Hn. simpl. exists (mk_worker exited true). split; [|done].
    unfold ws. rewrite list_lookup_fmap.
    destruct (lookup_lt_is_Some_2 (workers s) n ltac:(lia)) as [w ->].
    done.
Qed.

Lemma graceful_shutdown_completes_witness :
  exists s',
    run sample_service (graceful_shutdown sample_service) = Some s'
    /\ join_at s' = joined
    /\ Forall (fun w => pc w = exited) (workers s')
    /\ puts s' = [(7, false)].
Proof. apply (graceful_shutdown_completes sample_service); reflexivity. Defined.

End ShutdownMore.

(** * Further properties of the API models *)

Module BasesMore.
Import Bases JobBase LsfMore.

Lemma append_empty_r s : s +:+ "" = s.
Proof.
  induction s as [|c s IH]; [done|].
  change (String c (s +:+ "") = String c s). by rewrite IH.
Qed.

Lemma foldl_append_acc (f : BatchJobPartition -> string) parts : forall acc,
  foldl (fun args part => args +:+ f part) acc parts
  = acc +:+ foldl (fun args part => args +:+ f part) "" parts.
Proof.
  induction parts as [|p parts IH]; intros acc; simpl.
  - by rewrite append_empty_r.
  - change ("" +:+ f p) with (f p).
    rewrite IH, (IH (f p)). by rewrite append_assoc.
Qed.

Lemma foldl_cli_nonempty p parts :
  foldl (fun args part => args +:+ part_cli_args part) "" (p :: parts)
  <> "".
Proof. simpl. rewrite foldl_append_acc. unfold part_cli_args. done. Qed.

Lemma cli_args_with_partitions self parts :
  partitions_to_cli_args (with_partitions self (Some parts))
  = foldl (fun args part => args +:+ part_cli_args part) "" parts.
Proof. by destruct parts. Qed.

(** The arguments of a list of partitions are those of its parts, one after
    the other: splitting the list anywhere and rendering the two pieces gives
    the same text. No list and the empty list both give the empty text, and
    only they do. *)
Theorem partitions_to_cli_args_app self parts1 parts2 :
  partitions_to_cli_args (with_partitions self (Some (parts1 ++ parts2)%list))
  = partitions_to_cli_args (with_partitions self (Some parts1))
    +:+ partitions_to_cli_args (with_partitions self (Some parts2))
  /\ (partitions_to_cli_args self = ""
      <-> truthy_partitions (partitions self) = None).
Proof.
  split.
  - rewrite !cli_args_with_partitions, foldl_app.
    by rewrite foldl_append_acc.
  - unfold partitions_to_cli_args.
    destruct (partitions self) as [[|p l]|]; simpl; try done.
    split; [|done]. intros H. by apply (foldl_cli_nonempty p l) in H.
Qed.

(** A batch job that is accepted stays accepted when the site allows more:
    more queues, higher limits for the queue of the job, more projects, more
    optional parameters. *)
Theorem validate_monotone self aq ap op aq' ap' op' :
  validate self aq ap op = Ok tt ->
  (forall q, aq !! queue self = Some q ->
     exists q', aq' !! queue self = Some q'
                /\ max_nodes q <= max_nodes q'
                /\ max_walltime q <= max_walltime q') ->
  ap ⊆ ap' -> dom op ⊆ dom op' ->
  validate self aq' ap' op' = Ok tt.
Proof.
  unfold validate. intros H Hq Hp Ho.
  destruct (aq !! queue self) as [q|]; [|discriminate].
  destruct (Hq q eq_refl) as (q' & -> & Hn & Hw).
  destruct (Z.ltb_spec (max_nodes q) (num_nodes self)); [discriminate|].
  destruct (Z.ltb_spec (num_nodes self) 1); [discriminate|].
  destruct (Z.ltb_spec (max_walltime q) (wall_time_min self));
    [discriminate|].
  destruct (Z.ltb_spec (max_nodes q') (num_nodes self)); [lia|].
  destruct (Z.ltb_spec (max_walltime q') (wall_time_min self)); [lia|].
  destruct (bool_decide_reflect (project self ∈ ap)) as [Hin|];
    [|discriminate].
  rewrite (bool_decide_eq_true_2 _ (Hp _ Hin)). simpl in *.
  destruct (match truthy_partitions (partitions self) with
            | Some parts => negb (sum_num_nodes parts =? num_nodes self)
            | None => false
            end); [discriminate|].
  destruct (bool_decide_reflect
              (dom (optional_params self) ∖ dom op = ∅)) as [He|];
    [|discriminate].
  assert (dom (optional_params self) ∖ dom op' = ∅) as He'.
  { apply set_eq. intros k. rewrite elem_of_difference.
    split; [intros [Hk Hk']|by intros ?%elem_of_empty].
    destruct (decide (k ∈ dom op)) as [Hin'|Hout]; [by apply Ho in Hin'|].
    rewrite <- He. by apply elem_of_difference. }
  by rewrite (bool_decide_eq_true_2 _ He').
Qed.

Lemma validate_monotone_witness :
  validate (mk_BatchJobBase "debug" "CSC388" 2 30 None ∅)
    {[ "debug" := mk_AllowedQueue 16 120; "prod" := mk_AllowedQueue 512 720 ]}
    ["CSC388"; "CSC500"] {[ "singularity" := "on" ]}
  = Ok tt.
Proof.
  apply (validate_monotone _ sample_queues ["CSC388"] ∅).
  - reflexivity.
  - intros q Hq. exists (mk_AllowedQueue 16 120).
    split; [reflexivity|].
    assert (q = mk_AllowedQueue 8 60) as -> by (vm_compute in Hq; congruence).
    simpl. lia.
  - intros x Hx. apply list_elem_of_singleton in Hx as ->. by left.
  - rewrite dom_empty_L. apply empty_subseteq.
Defined.

(** ** The app caches *)

Section AppCachesTheory.
Context {ApplicationDefinition client_error : Type}.
Variable app_id_attr : ApplicationDefinition -> option Z.
Variable __app_id__ : ApplicationDefinition -> option Z.

Local Abbreviation caches := (caches ApplicationDefinition).
Local Abbreviation fetch_by_name :=
  (_fetch_app_by_name (client_error := client_error) app_id_attr).
Local Abbreviation fetch_by_id :=
  (@_fetch_app_by_id ApplicationDefinition client_error).
Local Abbreviation resolve :=
  (_resolve_app_id (client_error := client_error) app_id_attr __app_id__).
Local Abbreviation after_call :=
  (after_call (client_error := client_error) app_id_attr __app_id__).
Local Abbreviation after_calls :=
  (after_calls (client_error := client_error) app_id_attr __app_id__).
Local Abbreviation names_have_ids := (names_have_ids app_id_attr).

(** A call leaves every name where it is and removes no id. *)
Lemma after_call_keeps (c : caches) k :
  (forall key app, _app_name_cache c !! key = Some app ->
                   _app_name_cache (after_call c k) !! key = Some app)
  /\ (forall i, is_Some (_app_id_cache c !! i) ->
                is_Some (_app_id_cache (after_call c k) !! i)).
Proof.
  assert (Hid : forall (i j : Z) a (m : gmap Z ApplicationDefinition),
            is_Some (m !! i) -> is_Some (<[j := a]> m !! i)).
  { intros i j a m H. rewrite lookup_insert_is_Some.
    destruct (decide (j = i)); [by left|by right]. }
  destruct k as [app_name site_name get|app_id get|app site_name get];
    simpl.
  - unfold Bases_fetch_by_name_unfold_marker || idtac.
    unfold _fetch_app_by_name.
    destruct (_app_name_cache c !! (site_name, app_name)) eqn:Hc; [done|].
    destruct get as [e|a]; [done|].
    destruct (app_id_attr a); [|done]. simpl. split.
    + intros key app Hk. rewrite lookup_insert_ne; [done|congruence].
    + intros i. apply Hid.
  - unfold _fetch_app_by_id.
    destruct (_app_id_cache c !! app_id); [done|].
    destruct get as [e|a]; [done|]. simpl. split; [done|].
    intros i. apply Hid.
  - unfold _resolve_app_id. destruct app as [i|name|a]; [done| |].
    + unfold _fetch_app_by_name.
      destruct (_app_name_cache c !! (site_name, name)) eqn:Hc.
      { by destruct (app_id_attr a). }
      destruct get as [e|a]; [done|].
      destruct (app_id_attr a) eqn:Ha; [|done]. simpl. rewrite Ha. simpl.
      split.
      * intros key app Hk. rewrite lookup_insert_ne; [done|congruence].
      * intros i. apply Hid.
    + destruct (__app_id__ a); [|done]. simpl. split; [done|].
      intros i. apply Hid.
Qed.

Lemma after_calls_keeps ks : forall (c : caches),
  (forall key app, _app_name_cache c !! key = Some app ->
                   _app_name_cache (after_calls c ks) !! key = Some app)
  /\ (forall i, is_Some (_app_id_cache c !! i) ->
                is_Some (_app_id_cache (after_calls c ks) !! i)).
Proof.
  induction ks as [|k ks IH]; intros c; [done|].
  destruct (after_call_keeps c k) as [Hn Hi].
  destruct (IH (after_call c k)) as [Hn' Hi'].
  split; [intros key app H; by apply Hn', Hn|intros i H; by apply Hi', Hi].
Qed.

(** Once a name has been resolved, it is resolved for good: whatever calls
    come in between and whatever the server would answer by then, the same
    app is returned, the server is not asked, and the caches are left as
    they are. *)
Theorem fetch_app_by_name_stable app_name site_name get (c : caches) app c1
    ks get' :
  fetch_by_name app_name site_name get c = (inr app, c1) ->
  fetch_by_name app_name site_name get' (after_calls c1 ks)
  = (inr app, after_calls c1 ks).
Proof.
  intros H.
  assert (Hc1 : _app_name_cache c1 !! (site_name, app_name) = Some app).
  { unfold _fetch_app_by_name in H.
    destruct (_app_name_cache c !! (site_name, app_name)) eqn:Hc.
    - by injection H as <- <-.
    - destruct get as [e|a]; [done|].
      destruct (app_id_attr a); [|done]. injection H as <- <-. simpl.
      by rewrite lookup_insert_eq. }
  destruct (after_calls_keeps ks c1) as [Hn _].
  unfold _fetch_app_by_name. by rewrite (Hn _ _ Hc1).
Qed.

(** A call that raises leaves both caches as they were: a failure is not
    remembered, and the next call asks the server again. *)
Theorem failed_call_leaves_caches (c : caches) :
  (forall app_name site_name get e c',
     fetch_by_name app_name site_name get c = (inl e, c') ->
     c' = c /\ _app_name_cache c !! (site_name, app_name) = None)
  /\ (forall app_id get e c',
        fetch_by_id app_id get c = (inl e, c') ->
        c' = c /\ _app_id_cache c !! app_id = None)
  /\ (forall app site_name get e c',
        resolve app site_name get c = (inl e, c') -> c' = c).
Proof.
  split; [|split].
  - intros app_name site_name get e c'. unfold _fetch_app_by_name.
    destruct (_app_name_cache c !! (site_name, app_name)); [done|].
    destruct get as [e'|a]; [by intros [= <- <-]|].
    destruct (app_id_attr a); [done|]. by intros [= <- <-].
  - intros app_id get e c'. unfold _fetch_app_by_id.
    destruct (_app_id_cache c !! app_id); [done|].
    destruct get as [e'|a]; [by intros [= <- <-]|done].
  - intros app site_name get e c'. unfold _resolve_app_id.
    destruct app as [i|name|a]; [done| |].
    + unfold _fetch_app_by_name.
      destruct (_app_name_cache c !! (site_name, name)) as [a|].
      { destruct (app_id_attr a); [done|]. by intros [= <- <-]. }
      destruct get as [e'|a]; [by intros [= <- <-]|].
      destruct (app_id_attr a) eqn:Ha; [|by intros [= <- <-]].
      by rewrite Ha.
    + destruct (__app_id__ a); [done|]. by intros [= <- <-].
Qed.

Lemma after_call_names_have_ids (c : caches) k :
  names_have_ids c -> names_have_ids (after_call c k).
Proof.
  intros Hinv.
  assert (Hid : forall j a (ns : gmap (option string * string)
                                   ApplicationDefinition) ids,
            names_have_ids (mk_caches ns ids) ->
            names_have_ids (mk_caches ns (<[j := a]> ids))).
  { intros j a ns ids H key app Hk. destruct (H key app Hk) as (i & Hi & Hs).
    exists i. split; [done|]. simpl in *. rewrite lookup_insert_is_Some.
    destruct (decide (j = i)); [by left|by right]. }
  assert (Hname : forall key a i,
            app_id_attr a = Some i ->
            names_have_ids
              (mk_caches (<[key := a]> (_app_name_cache c))
                 (<[i := a]> (_app_id_cache c)))).
  { intros key a i Ha key' app Hk. simpl in *.
    apply lookup_insert_Some in Hk as [[<- <-]|[_ Hk]].
    - exists i. split; [done|]. by rewrite lookup_insert_eq.
    - destruct (Hinv key' app Hk) as (i' & Hi' & Hs). exists i'.
      split; [done|]. rewrite lookup_insert_is_Some.
      destruct (decide (i = i')); [by left|by right]. }
  destruct c as [ns ids].
  destruct k as [app_name site_name get|app_id get|app site_name get];
    simpl.
  - unfold _fetch_app_by_name. simpl.
    destruct (ns !! (site_name, app_name)); [done|].
    destruct get as [e|a]; [done|].
    destruct (app_id_attr a) eqn:Ha; [|done]. by apply (Hname _ _ _ Ha).
  - unfold _fetch_app_by_id. simpl.
    destruct (ids !! app_id); [done|].
    destruct get as [e|a]; [done|]. by apply Hid.
  - unfold _resolve_app_id. destruct app as [i|name|a]; [done| |].
    + unfold _fetch_app_by_name. simpl.
      destruct (ns !! (site_name, name)) as [a|].
      { by destruct (app_id_attr a). }
      destruct get as [e|a]; [done|].
      destruct (app_id_attr a) eqn:Ha; [|done]. rewrite Ha.
      by apply (Hname _ _ _ Ha).
    + destruct (__app_id__ a); [|done]. by apply Hid.
Qed.

Lemma after_calls_names_have_ids ks : forall (c : caches),
  names_have_ids c -> names_have_ids (after_calls c ks).
Proof.
  induction ks as [|k ks IH]; intros c Hc; [done|].
  by apply IH, after_call_names_have_ids.
Qed.

(** Resolving an app by name readies the look-up by id: in caches that were
    filled by these functions, an app that is returned for a name has an id,
    and from then on a look-up of that id is answered from the cache, the
    server is not asked. *)
Theorem fetch_by_name_primes_id_cache ks app_name site_name get app c1 :
  fetch_by_name app_name site_name get (after_calls empty_caches ks)
  = (inr app, c1) ->
  exists i,
    app_id_attr app = Some i
    /\ forall ks' get',
         exists app',
           fetch_by_id i get' (after_calls c1 ks')
           = (inr app', after_calls c1 ks').
Proof.
  intros H.
  assert (Hinv : names_have_ids (after_calls empty_caches ks)).
  { apply after_calls_names_have_ids. intros key a Hk. simpl in Hk.
    by rewrite lookup_empty in Hk. }
  pose proof (after_call_names_have_ids _
                (call_fetch_by_name app_name site_name get) Hinv) as H1.
  simpl in H1. rewrite H in H1. simpl in H1.
  assert (Hc1 : _app_name_cache c1 !! (site_name, app_name) = Some app).
  { unfold _fetch_app_by_name in H.
    destruct (_app_name_cache _ !! (site_name, app_name)) eqn:Hc.
    - by injection H as <- <-.
    - destruct get as [e|a]; [done|].
      destruct (app_id_attr a); [|done]. injection H as <- <-. simpl.
      by rewrite lookup_insert_eq. }
  destruct (H1 _ _ Hc1) as (i & Hi & Hs). exists i. split; [done|].
  intros ks' get'. destruct (after_calls_keeps ks' c1) as [_ Hkeep].
  destruct (Hkeep i Hs) as [app' Happ']. exists app'.
  unfold _fetch_app_by_id. by rewrite Happ'.
Qed.

End AppCachesTheory.

Lemma fetch_app_by_name_stable_witness :
  _fetch_app_by_name sample_app_id "hello" None (inl "connection refused")
    (after_calls sample_app_id sample_app_id sample_caches sample_calls)
  = (inr (3, "hello"),
     after_calls sample_app_id sample_app_id sample_caches sample_calls).
Proof.
  apply (fetch_app_by_name_stable sample_app_id sample_app_id
           "hello" None (inr (3, "hello")) empty_caches).
  reflexivity.
Defined.

Lemma fetch_by_name_primes_id_cache_witness :
  exists i,
    sample_app_id (3, "hello") = Some i
    /\ forall (ks' : list (cache_call (Z * string) string))
         (get' : string + Z * string),
         exists app',
           _fetch_app_by_id i get'
             (after_calls sample_app_id sample_app_id sample_caches ks')
           = (inr app',
              after_calls sample_app_id sample_app_id sample_caches ks').
Proof.
  apply (fetch_by_name_primes_id_cache sample_app_id sample_app_id
           [] "hello" None (inr (3, "hello"))).
  reflexivity.
Defined.

End BasesMore.
